(** * Signed market-data stream: a shallow embedding of [main.py]

    The development follows the source top-down:
    - Python [str] values are lists of Unicode code points and [bytes] values
      are lists of octets, both carried as [Z];
    - [hashlib.sha256] and [hmac.new(...).hexdigest()] are written out on
      32-bit words ([Z] with the wrap-around made explicit);
    - Python floats are binary64 values ([PrimFloat.float]); what the bar
      needs of round-to-nearest-even (monotone, the identity on representable
      values, exact on close subtractions) is derived from [SpecFloat];
    - [market_stream] is a step function on its loop-carried locals, fed with
      the values that each iteration reads from the outside world (the random
      draws and the two clock readings);
    - [event_generator] of [sse_market] is a step function on top of it, fed
      additionally with the answer of [request.is_disconnected()];
    - [test_database] is a function of the outcome of importing the
      database module and of two environment variables, in a small error
      monad: a call returns or raises. *)

From Stdlib Require Import String Ascii ZArith List Lia Bool.
From Stdlib Require Import Floats Reals Lra.
Import ListNotations.
Local Open Scope Z_scope.

(** ** Python strings and bytes *)

Module PyStr.

(** A [str] is a sequence of code points, a [bytes] a sequence of octets. *)
Definition str := list Z.
Definition bytes := list Z.

(** A string literal of the source (ASCII only). *)
Definition lit (s : string) : str :=
  map (fun a => Z.of_N (N_of_ascii a)) (list_ascii_of_string s).

(** The double quote, which a literal cannot hold. *)
Definition dquote : Z := 34.
Definition backslash : Z := 92.

(** [str.encode()] on one code point: UTF-8 with [errors='strict'].
    [None] stands for [UnicodeEncodeError], raised on a surrogate
    (U+D800..U+DFFF); a number that is no code point at all is refused
    too. *)
Definition encode_cp (c : Z) : option bytes :=
  if c <? 0 then None
  else if c <? 0x80 then Some [c]
  else if c <? 0x800 then
    Some [Z.lor 0xC0 (Z.shiftr c 6); Z.lor 0x80 (Z.land c 0x3F)]
  else if (0xD800 <=? c) && (c <=? 0xDFFF) then None
  else if c <? 0x10000 then
    Some [Z.lor 0xE0 (Z.shiftr c 12);
          Z.lor 0x80 (Z.land (Z.shiftr c 6) 0x3F);
          Z.lor 0x80 (Z.land c 0x3F)]
  else if c <=? 0x10FFFF then
    Some [Z.lor 0xF0 (Z.shiftr c 18);
          Z.lor 0x80 (Z.land (Z.shiftr c 12) 0x3F);
          Z.lor 0x80 (Z.land (Z.shiftr c 6) 0x3F);
          Z.lor 0x80 (Z.land c 0x3F)]
  else None.

Fixpoint encode (s : str) : option bytes :=
  match s with
  | [] => Some []
  | c :: s' =>
      match encode_cp c, encode s' with
      | Some b, Some bs => Some (b ++ bs)
      | _, _ => None
      end
  end.

(** [==] on strings. *)
Fixpoint eqb (a b : str) : bool :=
  match a, b with
  | [], [] => true
  | x :: a', y :: b' => (x =? y) && eqb a' b'
  | _, _ => false
  end.

(** Code points that are their own UTF-8 encoding. *)
Definition is_ascii (c : Z) : bool := (0 <=? c) && (c <? 0x80).

(** One lowercase hexadecimal digit, as [format(d, 'x')] prints it. *)
Definition hexchar (d : Z) : Z := if d <? 10 then 48 + d else 87 + d.

Definition is_lower_hex (c : Z) : bool :=
  ((48 <=? c) && (c <=? 57)) || ((97 <=? c) && (c <=? 102)).

(** [int.__repr__]: decimal digits, most significant first. *)
Fixpoint digits_pos (fuel : nat) (n : Z) (acc : str) : str :=
  match fuel with
  | O => acc
  | S fuel' =>
      let acc' := (48 + n mod 10) :: acc in
      if n <? 10 then acc' else digits_pos fuel' (n / 10) acc'
  end.

Definition repr_int (n : Z) : str :=
  if n <? 0
  then 45 :: digits_pos (Z.to_nat (Z.log2 (- n)) + 1) (- n) []
  else digits_pos (Z.to_nat (Z.log2 n) + 1) n [].

End PyStr.

(** ** SHA-256 (FIPS 180-4) on 32-bit words *)

Module Sha256.

Definition w32 (x : Z) : Z := x mod 2 ^ 32.
Definition add32 (x y : Z) : Z := w32 (x + y).
Definition not32 (x : Z) : Z := Z.lxor x 0xFFFFFFFF.
Definition rotr (n x : Z) : Z :=
  Z.lor (Z.shiftr x n) (w32 (Z.shiftl x (32 - n))).

Definition Ch (x y z : Z) : Z := Z.lxor (Z.land x y) (Z.land (not32 x) z).
Definition Maj (x y z : Z) : Z :=
  Z.lxor (Z.lxor (Z.land x y) (Z.land x z)) (Z.land y z).
Definition bsig0 (x : Z) : Z := Z.lxor (Z.lxor (rotr 2 x) (rotr 13 x)) (rotr 22 x).
Definition bsig1 (x : Z) : Z := Z.lxor (Z.lxor (rotr 6 x) (rotr 11 x)) (rotr 25 x).
Definition ssig0 (x : Z) : Z := Z.lxor (Z.lxor (rotr 7 x) (rotr 18 x)) (Z.shiftr x 3).
Definition ssig1 (x : Z) : Z := Z.lxor (Z.lxor (rotr 17 x) (rotr 19 x)) (Z.shiftr x 10).

(** The constants are derived as the standard defines them, from the first
    sixty-four primes: the first 32 bits of the fractional part of the cube
    root of each for [K], and of the square root of the first eight for the
    initial hash value. *)
Definition is_prime (n : Z) : bool :=
  (1 <? n)
  && forallb (fun d => negb (n mod Z.of_nat d =? 0)) (seq 2 (Z.to_nat n - 2)).

Definition primes : list Z :=
  filter is_prime (map Z.of_nat (seq 2 310)).

(** The integer cube root, found bit by bit from the top. *)
Fixpoint cube_root_bits (bits : nat) (n r : Z) : Z :=
  match bits with
  | O => r
  | S b =>
      let r' := r + 2 ^ Z.of_nat b in
      cube_root_bits b n (if r' * r' * r' <=? n then r' else r)
  end.

Definition frac_cube_root (p : Z) : Z := w32 (cube_root_bits 40 (p * 2 ^ 96) 0).
Definition frac_square_root (p : Z) : Z := w32 (Z.sqrt (p * 2 ^ 64)).

Definition K : list Z := Eval vm_compute in map frac_cube_root primes.

(** The eight working variables, together with the sixteen most recent
    words of the message schedule. *)
Record regs := Regs { ra : Z; rb : Z; rc : Z; rd : Z; re : Z; rf : Z; rg : Z; rh : Z }.

Definition H0 : regs :=
  Eval vm_compute in
    let h := fun i => frac_square_root (nth i primes 0) in
    Regs (h 0%nat) (h 1%nat) (h 2%nat) (h 3%nat) (h 4%nat) (h 5%nat) (h 6%nat) (h 7%nat).

Definition wnth (w : list Z) (i : nat) : Z := nth i w 0.

(** One round: consumes the schedule word at the head of the window and
    appends the word sixteen places further on. *)
Definition round (st : regs * list Z) (k : Z) : regs * list Z :=
  let '(r, w) := st in
  let wi := wnth w 0 in
  let t1 := add32 (add32 (add32 (add32 (rh r) (bsig1 (re r))) (Ch (re r) (rf r) (rg r))) k) wi in
  let t2 := add32 (bsig0 (ra r)) (Maj (ra r) (rb r) (rc r)) in
  let wnew := add32 (add32 (add32 (ssig1 (wnth w 14)) (wnth w 9)) (ssig0 (wnth w 1))) wi in
  (Regs (add32 t1 t2) (ra r) (rb r) (rc r) (add32 (rd r) t1) (re r) (rf r) (rg r),
   tl w ++ [wnew]).

Definition compress (h : regs) (block : list Z) : regs :=
  let r := fst (fold_left round K (h, block)) in
  Regs (add32 (ra h) (ra r)) (add32 (rb h) (rb r)) (add32 (rc h) (rc r))
       (add32 (rd h) (rd r)) (add32 (re h) (re r)) (add32 (rf h) (rf r))
       (add32 (rg h) (rg r)) (add32 (rh h) (rh r)).

(** Big-endian packing of octets into words, and back. *)
Fixpoint words_of_bytes (bs : list Z) : list Z :=
  match bs with
  | b0 :: b1 :: b2 :: b3 :: rest =>
      (((b0 mod 256) * 256 + b1 mod 256) * 256 + b2 mod 256) * 256 + b3 mod 256
      :: words_of_bytes rest
  | _ => []
  end.

Definition bytes_of_word (w : Z) : list Z :=
  [(w / 2 ^ 24) mod 256; (w / 2 ^ 16) mod 256; (w / 2 ^ 8) mod 256; w mod 256].

Definition bytes_of_regs (r : regs) : list Z :=
  bytes_of_word (ra r) ++ bytes_of_word (rb r) ++ bytes_of_word (rc r) ++
  bytes_of_word (rd r) ++ bytes_of_word (re r) ++ bytes_of_word (rf r) ++
  bytes_of_word (rg r) ++ bytes_of_word (rh r).

(** Padding: a one bit, zeros up to 56 modulo 64, the bit length on 64 bits. *)
Definition pad (msg : list Z) : list Z :=
  let len := Z.of_nat (length msg) in
  let zeros := Z.to_nat ((55 - len) mod 64) in
  let bits := 8 * len in
  msg ++ [0x80] ++ repeat 0 zeros ++
  bytes_of_word (bits / 2 ^ 32) ++ bytes_of_word bits.

Fixpoint blocks (fuel : nat) (h : regs) (bs : list Z) : regs :=
  match fuel, bs with
  | S fuel', _ :: _ => blocks fuel' (compress h (words_of_bytes (firstn 64 bs))) (skipn 64 bs)
  | _, _ => h
  end.

Definition sha256 (msg : list Z) : list Z :=
  let p := pad msg in
  bytes_of_regs (blocks (length p) H0 p).

End Sha256.

(** ** HMAC (RFC 2104) with SHA-256, as [hmac.new(key, msg, hashlib.sha256)] *)

Module Hmac.

Definition block_size : nat := 64.

Definition key_block (key : list Z) : list Z :=
  let k := if (length key <=? block_size)%nat then key else Sha256.sha256 key in
  k ++ repeat 0 (block_size - length k).

Definition digest (key msg : list Z) : list Z :=
  let kb := key_block key in
  let inner := Sha256.sha256 (map (Z.lxor 0x36) kb ++ msg) in
  Sha256.sha256 (map (Z.lxor 0x5C) kb ++ inner).

(** [bytes.hex()]: two lowercase digits per octet. *)
Definition hex (bs : list Z) : PyStr.str :=
  flat_map (fun b => [PyStr.hexchar ((b mod 256) / 16); PyStr.hexchar (b mod 16)]) bs.

Definition hexdigest (key msg : list Z) : PyStr.str := hex (digest key msg).

End Hmac.

(** ** Python floats: binary64 *)

Module PyFloat.

(** Nearest integer to [n / d], ties to the even one ([0 <= n], [0 < d]). *)
Definition round_half_even_div (n d : Z) : Z :=
  let q := n / d in
  match 2 * (n mod d) ?= d with
  | Lt => q
  | Gt => q + 1
  | Eq => if Z.even q then q else q + 1
  end.

(** The binary64 value nearest to [n / d] (ties to even), with the sign
    [s]: what [strtod] returns on a decimal string.  The quotient is taken
    with more than 64 significant bits and a sticky bit, then rounded
    once. *)
Definition float_of_ratio (s : bool) (n d : Z) : float :=
  if n =? 0 then (if s then neg_zero else zero)
  else
    let k := 64 + Z.log2 d in
    let q := (n * 2 ^ k) / d in
    let sticky := if (n * 2 ^ k) mod d =? 0 then 0 else 1 in
    let m := 2 * q + sticky in
    SF2Prim (binary_normalize prec emax (if s then - m else m) (- (k + 1)) false).

(** [round(x, 2)].  Zeros, infinities and NaN come back unchanged;
    a finite [x = m * 2^e] is first rounded to the nearest multiple of
    1/100 (ties to even, on the exact binary value), and that decimal is
    read back as a float. *)
Definition round2 (x : float) : float :=
  match Prim2SF x with
  | S754_finite s m e =>
      let cents :=
        round_half_even_div (Zpos m * 100 * 2 ^ Z.max e 0) (2 ^ Z.max (- e) 0) in
      float_of_ratio s cents 100
  | _ => x
  end.

(** [random.uniform(a, b)], given the value [r] that [random.random()]
    returns. *)
Definition uniform (a b r : float) : float :=
  PrimFloat.add a (PrimFloat.mul (PrimFloat.sub b a) r).

(** *** [float.__repr__]: the shortest decimal that reads back as [x] *)

(** [c * 10^p] compared with [x * 2^q], for [0 <= c] and [0 <= x]. *)
Definition cmp_dec_bin (c p x q : Z) : comparison :=
  (c * 10 ^ Z.max p 0 * 2 ^ Z.max (- q) 0)
  ?= (x * 2 ^ Z.max q 0 * 10 ^ Z.max (- p) 0).

(** The [k] with [10^(k-1) <= m * 2^e < 10^k], from an estimate. *)
Fixpoint dec_exp (fuel : nat) (m e k : Z) : Z :=
  match fuel with
  | O => k
  | S fuel' =>
      match cmp_dec_bin 1 k m e with
      | Gt =>
          match cmp_dec_bin 1 (k - 1) m e with
          | Gt => dec_exp fuel' m e (k - 1)
          | _ => k
          end
      | _ => dec_exp fuel' m e (k + 1)
      end
  end.

(** Is [c * 10^p] read back as [m * 2^e]?  The interval of such reals
    runs from half-way to the float below to half-way to the float above,
    ends included when [m] is even; in units of [2^(e-2)]. *)
Definition reads_back (m e c p : Z) : bool :=
  let below := if (m =? 2 ^ 52) && (-1074 <? e) then 4 * m - 1 else 4 * m - 2 in
  let above := 4 * m + 2 in
  match cmp_dec_bin c p below (e - 2), cmp_dec_bin c p above (e - 2) with
  | Gt, Lt => true
  | Eq, Lt | Gt, Eq => Z.even m
  | _, _ => false
  end.

(** The shortest digit string, as [(c, p)] for [c * 10^p], trying [d]
    digits, then [d+1], ...; of two candidates the nearer wins. *)
Fixpoint shortest (fuel : nat) (m e k d : Z) : Z * Z :=
  let p := k - d in
  let lo := (m * 2 ^ Z.max e 0 * 10 ^ Z.max (- p) 0)
            / (2 ^ Z.max (- e) 0 * 10 ^ Z.max p 0) in
  let hi := lo + 1 in
  match fuel with
  | O => (lo, p)
  | S fuel' =>
      match reads_back m e lo p, reads_back m e hi p with
      | true, false => (lo, p)
      | false, true => (hi, p)
      | true, true =>
          match cmp_dec_bin (2 * lo + 1) p (2 * m) e with
          | Gt => (lo, p)
          | Lt => (hi, p)
          | Eq => (if Z.even lo then lo else hi, p)
          end
      | false, false => shortest fuel' m e k (d + 1)
      end
  end.

Fixpoint strip_zeros (fuel : nat) (c p : Z) : Z * Z :=
  match fuel with
  | O => (c, p)
  | S fuel' => if (c mod 10 =? 0) && (0 <? c) then strip_zeros fuel' (c / 10) (p + 1) else (c, p)
  end.

Definition zeros (n : Z) : PyStr.str := repeat 48 (Z.to_nat n).

(** The digits with a point after the first, if there are several. *)
Definition point_after_first (digits : PyStr.str) : PyStr.str :=
  match digits with
  | d :: (_ :: _) as rest => d :: 46 :: rest
  | _ => digits
  end.

(** Layout of the digits: exponent form when the decimal point would sit
    more than 16 places right or more than 3 zeros left of them. *)
Definition layout (digits : PyStr.str) (decpt : Z) : PyStr.str :=
  let n := Z.of_nat (length digits) in
  if (decpt <=? -4) || (16 <? decpt) then
    let ex := decpt - 1 in
    let mant := point_after_first digits in
    let exdigits := PyStr.repr_int (Z.abs ex) in
    mant ++ [101; if ex <? 0 then 45 else 43]
         ++ (if Z.abs ex <? 10 then 48 :: exdigits else exdigits)
  else if decpt <=? 0 then
    [48; 46] ++ zeros (- decpt) ++ digits
  else if n <=? decpt then
    digits ++ zeros (decpt - n) ++ [46; 48]
  else
    firstn (Z.to_nat decpt) digits ++ [46] ++ skipn (Z.to_nat decpt) digits.

Definition repr (x : float) : PyStr.str :=
  match Prim2SF x with
  | S754_nan => PyStr.lit "nan"
  | S754_infinity s => if s then PyStr.lit "-inf" else PyStr.lit "inf"
  | S754_zero s => if s then PyStr.lit "-0.0" else PyStr.lit "0.0"
  | S754_finite s m e =>
      let m := Zpos m in
      let k := dec_exp 8 m e (((Z.log2 m + 1 + e) * 30103) / 100000) in
      let '(c, p) := shortest 17 m e k 1 in
      let '(c, p) := strip_zeros 20 c p in
      let digits := PyStr.repr_int c in
      (if s then [45] else []) ++ layout digits (Z.of_nat (length digits) + p)
  end.

End PyFloat.

(** ** [json.dumps] with its default settings *)

Module Json.

(** The values the program serialises.  A [dict] keeps insertion order. *)
#[local] Unset Elimination Schemes.
Inductive value :=
| JInt (n : Z)
| JFloat (x : float)
| JStr (s : PyStr.str)
| JObj (items : list (PyStr.str * value)).

Definition hex4 (c : Z) : PyStr.str :=
  [PyStr.hexchar ((c / 4096) mod 16); PyStr.hexchar ((c / 256) mod 16);
   PyStr.hexchar ((c / 16) mod 16); PyStr.hexchar (c mod 16)].

Definition uescape (c : Z) : PyStr.str := PyStr.backslash :: 117 :: hex4 c.

(** One character of a string, with [ensure_ascii=True]. *)
Definition escape_cp (c : Z) : PyStr.str :=
  if c =? PyStr.dquote then [PyStr.backslash; PyStr.dquote]
  else if c =? PyStr.backslash then [PyStr.backslash; PyStr.backslash]
  else if c =? 10 then [PyStr.backslash; 110]
  else if c =? 13 then [PyStr.backslash; 114]
  else if c =? 9 then [PyStr.backslash; 116]
  else if c =? 12 then [PyStr.backslash; 102]
  else if c =? 8 then [PyStr.backslash; 98]
  else if (32 <=? c) && (c <=? 126) then [c]
  else if c <? 0x10000 then uescape c
  else
    let v := c - 0x10000 in
    uescape (Z.lor 0xD800 (Z.land (Z.shiftr v 10) 0x3FF))
    ++ uescape (Z.lor 0xDC00 (Z.land v 0x3FF)).

Definition encode_str (s : PyStr.str) : PyStr.str :=
  [PyStr.dquote] ++ flat_map escape_cp s ++ [PyStr.dquote].

(** Floats: [float.__repr__], except for the three names JSON lacks
    ([allow_nan=True]). *)
Definition floatstr (x : float) : PyStr.str :=
  match Prim2SF x with
  | S754_nan => PyStr.lit "NaN"
  | S754_infinity s => if s then PyStr.lit "-Infinity" else PyStr.lit "Infinity"
  | _ => PyFloat.repr x
  end.

Definition item_sep : PyStr.str := PyStr.lit ", ".
Definition key_sep : PyStr.str := PyStr.lit ": ".

Fixpoint dumps (v : value) : PyStr.str :=
  match v with
  | JInt n => PyStr.repr_int n
  | JFloat x => floatstr x
  | JStr s => encode_str s
  | JObj items =>
      let fix members (l : list (PyStr.str * value)) : PyStr.str :=
        match l with
        | [] => []
        | [(k, w)] => encode_str k ++ key_sep ++ dumps w
        | (k, w) :: rest => encode_str k ++ key_sep ++ dumps w ++ item_sep ++ members rest
        end in
      [123] ++ members items ++ [125]
  end.

(** [d[k]] on a [dict]. *)
Fixpoint lookup (k : PyStr.str) (items : list (PyStr.str * value)) : option value :=
  match items with
  | [] => None
  | (k', w) :: rest => if PyStr.eqb k k' then Some w else lookup k rest
  end.

Definition get (k : PyStr.str) (v : value) : option value :=
  match v with
  | JObj items => lookup k items
  | _ => None
  end.

End Json.

(** ** The signer *)

(** [sign_payload(secret, payload)]: both arguments are encoded to UTF-8
    first, and either encoding may raise. *)
Definition sign_payload (secret payload : PyStr.str) : option PyStr.str :=
  match PyStr.encode secret, PyStr.encode payload with
  | Some k, Some m => Some (Hmac.hexdigest k m)
  | _, _ => None
  end.

(** ** The stream generator *)

(** What one iteration of [market_stream] reads from the outside world. *)
Record tick_input := TickInput {
  jitter : Z;              (** [random.randint(-20, 20)] *)
  rnd_high : float;        (** [random.random()] under [uniform], for [high] *)
  rnd_low : float;         (** the same, for [low] *)
  rnd_close : float;       (** the same, for [close] *)
  now_iso : PyStr.str;     (** [datetime.now(timezone.utc).isoformat()] *)
  unix_time : Z            (** [int(time.time())] *)
}.

(** The locals that survive from one iteration to the next. *)
Record sim_state := SimState {
  last_close : float;
  latency_ms : Z
}.

Definition base_price : float := 68000%float.

Definition init_state : sim_state :=
  {| last_close := base_price; latency_ms := 50 |}.

(** The locals of the iteration at its [yield]. *)
Record tick := Tick {
  open_price : float;
  high : float;
  low : float;
  close : float;
  data : Json.value;
  payload : PyStr.str;
  sig : PyStr.str;
  event : PyStr.str
}.

Definition clamp_latency (latency jit : Z) : Z :=
  Z.max 20 (Z.min 250 (latency + jit)).

Definition draw_high (open_price r : float) : float :=
  PrimFloat.mul open_price
    (PrimFloat.add 1%float (PyFloat.uniform 0.0001%float 0.0015%float r)).

Definition draw_low (open_price r : float) : float :=
  PrimFloat.mul open_price
    (PrimFloat.sub 1%float (PyFloat.uniform 0.0001%float 0.0015%float r)).

Definition make_bar (t : Z) (o h l c : float) : Json.value :=
  Json.JObj
    [ (PyStr.lit "t", Json.JInt t);
      (PyStr.lit "o", Json.JFloat (PyFloat.round2 o));
      (PyStr.lit "h", Json.JFloat (PyFloat.round2 h));
      (PyStr.lit "l", Json.JFloat (PyFloat.round2 l));
      (PyStr.lit "c", Json.JFloat (PyFloat.round2 c)) ].

Definition make_data (now symbol : PyStr.str) (latency : Z) (bar : Json.value)
  : Json.value :=
  Json.JObj
    [ (PyStr.lit "ts", Json.JStr now);
      (PyStr.lit "symbol", Json.JStr symbol);
      (PyStr.lit "latency_ms", Json.JInt latency);
      (PyStr.lit "venue_count", Json.JInt 18);
      (PyStr.lit "control_checks", Json.JInt 42);
      (PyStr.lit "bar", bar) ].

(** The f-string of the source: the outer object is dumped afresh, with
    the dictionary [data] inside it. *)
Definition make_event (data : Json.value) (sig : PyStr.str) : PyStr.str :=
  PyStr.lit "data: "
  ++ Json.dumps (Json.JObj [ (PyStr.lit "payload", data);
                             (PyStr.lit "sig", Json.JStr sig) ])
  ++ [10; 10].

(** The body of the [while True] loop, up to its [yield].  [None] is an
    exception raised inside [sign_payload]. *)
Definition market_step (secret symbol : PyStr.str) (st : sim_state) (i : tick_input)
  : option (tick * sim_state) :=
  let latency := clamp_latency (latency_ms st) (jitter i) in
  let open_price := last_close st in
  let high := draw_high open_price (rnd_high i) in
  let low := draw_low open_price (rnd_low i) in
  let close := PyFloat.uniform low high (rnd_close i) in
  let data :=
    make_data (now_iso i) symbol latency
      (make_bar (unix_time i) open_price high low close) in
  let payload := Json.dumps data in
  match sign_payload secret payload with
  | Some sig =>
      Some (Tick open_price high low close data payload sig (make_event data sig),
            {| last_close := close; latency_ms := latency |})
  | None => None
  end.

(** [os.getenv(name, default)], given the variable's value if it is set. *)
Definition getenv (value : option PyStr.str) (default : PyStr.str) : PyStr.str :=
  match value with
  | Some v => v
  | None => default
  end.

(** A generator object of [market_stream]: suspended with its locals, or
    closed (an exception went through it). *)
Inductive generator :=
| Suspended (secret symbol : PyStr.str) (st : sim_state)
| Closed.

(** [market_stream(symbol)], with the value of [SIGNING_SECRET] in the
    environment; the [symbol] argument is optional. *)
Definition market_stream (signing_secret : option PyStr.str) (symbol : option PyStr.str)
  : generator :=
  Suspended (getenv signing_secret (PyStr.lit "demo-secret"))
            (getenv symbol (PyStr.lit "BTC-USD"))
            init_state.

(** [next(g)]: run to the next [yield]. *)
Definition next (g : generator) (i : tick_input) : option tick * generator :=
  match g with
  | Closed => (None, Closed)
  | Suspended secret symbol st =>
      match market_step secret symbol st i with
      | Some (t, st') => (Some t, Suspended secret symbol st')
      | None => (None, Closed)
      end
  end.

(** ** The stream endpoint *)

(** The asynchronous generator [event_generator] inside [sse_market]:
    still iterating [market_stream], or finished. *)
Inductive session :=
| Streaming (g : generator)
| Finished.

(** [sse_market(request, symbol)]: the generator handed to
    [StreamingResponse].  The query parameter is optional. *)
Definition sse_market (signing_secret : option PyStr.str) (symbol : option PyStr.str)
  : session :=
  Streaming (market_stream signing_secret (Some (getenv symbol (PyStr.lit "BTC-USD")))).

(** One request of the transport for the next event: the [for] loop takes
    the next value of [market_stream], then asks the request whether the
    client is gone; [disconnected] is the answer.  The result is what is
    yielded to the transport, if anything. *)
Definition event_generator (s : session) (i : tick_input) (disconnected : bool)
  : option tick * session :=
  match s with
  | Finished => (None, Finished)
  | Streaming g =>
      match next g i with
      | (Some t, g') =>
          if disconnected then (None, Finished) else (Some t, Streaming g')
      | (None, _) => (None, Finished)
      end
  end.

(** A session driven through a sequence of requests: the ticks whose
    [event] reached the transport, in order, and the state it is left in. *)
Fixpoint run (s : session) (inputs : list (tick_input * bool)) : list tick * session :=
  match inputs with
  | [] => ([], s)
  | (i, disconnected) :: rest =>
      let (out, s') := event_generator s i disconnected in
      let (outs, s'') := run s' rest in
      (match out with Some t => t :: outs | None => outs end, s'')
  end.

(** A field of the envelope, and of the bar inside it. *)
Definition field (k : string) (t : tick) : option Json.value :=
  Json.get (PyStr.lit k) (data t).

Definition bar_field (k : string) (t : tick) : option Json.value :=
  match field "bar" t with
  | Some bar => Json.get (PyStr.lit k) bar
  | None => None
  end.

(** The ticks a generator with the given [secret] and [symbol] yields one
    after the other from the state [st], leaving it in the state [st']. *)
Inductive ticks_from (secret symbol : PyStr.str)
  : sim_state -> list tick -> sim_state -> Prop :=
| ticks_nil : forall st, ticks_from secret symbol st [] st
| ticks_cons : forall st i t st1 out st',
    market_step secret symbol st i = Some (t, st1) ->
    ticks_from secret symbol st1 out st' ->
    ticks_from secret symbol st (t :: out) st'.

(** The state a session carries, while it has one. *)
Definition session_state (s : session) : option sim_state :=
  match s with
  | Streaming (Suspended _ _ st) => Some st
  | _ => None
  end.

(** The text around the payload and the signature in an event: the
    [data: ] marker with the opening of the outer object up to the value of
    its [payload] member; the separator with the [sig] key and the opening
    quote of its value; the closing quote and brace with the blank line. *)
Definition event_prefix : PyStr.str :=
  PyStr.lit "data: {" ++ [PyStr.dquote] ++ PyStr.lit "payload" ++ [PyStr.dquote]
  ++ PyStr.lit ": ".

Definition event_infix : PyStr.str :=
  PyStr.lit ", " ++ [PyStr.dquote] ++ PyStr.lit "sig" ++ [PyStr.dquote]
  ++ PyStr.lit ": " ++ [PyStr.dquote].

Definition event_suffix : PyStr.str :=
  [PyStr.dquote] ++ PyStr.lit "}" ++ [10; 10].

(** A short session used to exercise the statements below: three requests,
    the client still connected at each. *)
Definition sample_input (k : Z) : tick_input :=
  {| jitter := 17 * k - 20;
     rnd_high := 0.25%float;
     rnd_low := 0.5%float;
     rnd_close := 0.75%float;
     now_iso := PyStr.lit "2024-01-01T00:00:00+00:00";
     unix_time := 1704067200 + k |}.

Definition sample_inputs : list (tick_input * bool) :=
  [ (sample_input 0, false); (sample_input 1, false); (sample_input 2, false) ].

(** ** Binary64 arithmetic, for the bounds on a bar

    Floats that are zero or positive and finite are read as real numbers;
    an operation on them returns the exact result or its rounding to
    nearest, ties to even, as [SpecFloat] computes it. *)

Definition shr_rec (n k : Z) : shr_record :=
  if k <=? 0 then Build_shr_record n false false
  else Build_shr_record (n / 2 ^ k) (Z.odd (n / 2 ^ (k - 1)))
                        (negb (n mod 2 ^ (k - 1) =? 0)).

Definition cexp (m e : Z) : Z := fexp prec emax (Zdigits2 m + e).

Definition rnd_int (m e : Z) : Z :=
  PyFloat.round_half_even_div m (2 ^ (cexp m e - e)).

Definition pow2 (e : Z) : R := powerRZ 2 e.
Definition F2R (m e : Z) : R := (IZR m * pow2 e)%R.
Arguments pow2 : simpl never.
Arguments F2R : simpl never.

(** What a representable number is: at most 53 bits above the least
    exponent. *)
Definition representable (x : R) : Prop :=
  exists M E, 0 <= M < 2 ^ 53 /\ -1074 <= E /\ x = F2R M E.

Definition SF2R (z : spec_float) : R :=
  match z with
  | S754_finite s m e => F2R (cond_Zopp s (Zpos m)) e
  | _ => 0%R
  end.

Definition nonneg_finite (z : spec_float) : Prop :=
  match z with
  | S754_zero _ => True
  | S754_finite false _ _ => True
  | _ => False
  end.

Definition rounds (x : R) (z : spec_float) : Prop :=
  exists m e,
    x = F2R (Zpos m) e
    /\ e <= cexp (Zpos m) e
    /\ z = binary_round_aux prec emax false (Zpos m) e loc_Exact.

(** The value of a float, and the floats that are zero or positive and
    finite. *)
Definition fval (x : float) : R := SF2R (Prim2SF x).
Definition nonneg (x : float) : Prop := nonneg_finite (Prim2SF x).

(** The result of an operation: the exact value, or a rounding of it. *)
Definition frounds (x : R) (z : spec_float) : Prop :=
  (nonneg_finite z /\ SF2R z = x) \/ rounds x z.

(** A value of [random.random()]: a float of the unit interval. *)
Definition unit_draw (r : float) : Prop :=
  PrimFloat.leb 0%float r = true /\ PrimFloat.ltb r 1%float = true.

(** A price within [1e-300, 1e300] is a normal float. *)
Definition price_in_range (p : float) : Prop :=
  PrimFloat.leb 1e-300%float p = true /\ PrimFloat.leb p 1e300%float = true.

(** The mantissa handed to the final rounding of [float_of_ratio _ n 100]. *)
Definition ratio_mantissa (n : Z) : Z :=
  2 * ((n * 2 ^ 70) / 100) + (if (n * 2 ^ 70) mod 100 =? 0 then 0 else 1).

(** The hundredths nearest to [m * 2^e]. *)
Definition cents (m : positive) (e : Z) : Z :=
  PyFloat.round_half_even_div (Zpos m * 100 * 2 ^ Z.max e 0) (2 ^ Z.max (- e) 0).

(** The draws of one iteration, when each is a float of the unit
    interval, as [random.random()] returns them. *)
Definition draws_in_unit (i : tick_input) : Prop :=
  unit_draw (rnd_high i) /\ unit_draw (rnd_low i) /\ unit_draw (rnd_close i).

(** The emitted bar is ordered: [l <= o <= h] and [l <= c <= h], with the
    comparisons of floats. *)
Definition bar_ordered (t : tick) : Prop :=
  exists o h l c,
    bar_field "o" t = Some (Json.JFloat o)
    /\ bar_field "h" t = Some (Json.JFloat h)
    /\ bar_field "l" t = Some (Json.JFloat l)
    /\ bar_field "c" t = Some (Json.JFloat c)
    /\ PrimFloat.leb l o = true /\ PrimFloat.leb o h = true
    /\ PrimFloat.leb l c = true /\ PrimFloat.leb c h = true.

(** The price carried out of an iteration, from the price carried in. *)
Definition next_price (i : tick_input) (p : float) : float :=
  PyFloat.uniform (draw_low p (rnd_low i)) (draw_high p (rnd_high i)) (rnd_close i).

(** After [j] ticks the price is within [68000 * (127/128)^j] and
    [68000 * (129/128)^j]. *)
Definition within (j : nat) (p : float) : Prop :=
  nonneg p
  /\ (68000 * (127 / 128) ^ j <= fval p <= 68000 * (129 / 128) ^ j)%R.

(** The number of ticks for which the range of prices is guaranteed. *)
Definition safe_ticks : nat := 128 * 681.

(** A run of the highest draws: the price rises as fast as it can. *)
Definition top_draw : float := 0.9999999999999999%float.

Definition rally_input : tick_input :=
  {| jitter := 0;
     rnd_high := top_draw;
     rnd_low := 0%float;
     rnd_close := top_draw;
     now_iso := PyStr.lit "2024-01-01T00:00:00+00:00";
     unix_time := 1704067200 |}.

Definition rally (n : nat) : list (tick_input * bool) := repeat (rally_input, false) n.

Definition overflow_tick : nat := Z.to_nat 466120.

(** A run of the draws that lower the price as fast as they can. *)
Definition slump_input : tick_input :=
  {| jitter := 0;
     rnd_high := 0%float;
     rnd_low := top_draw;
     rnd_close := 0%float;
     now_iso := PyStr.lit "2024-01-01T00:00:00+00:00";
     unix_time := 1704067200 |}.

Definition slump (n : nat) : list (tick_input * bool) := repeat (slump_input, false) n.

Definition underflow_tick : nat := Z.to_nat 499387.

(** ** The diagnostic endpoint [test_database] *)

(** The values that the response of [test_database] can hold. *)
#[local] Unset Elimination Schemes.
Inductive pyvalue :=
| VNone
| VInt (n : Z)
| VStr (s : PyStr.str)
| VList (l : list pyvalue).
#[local] Set Elimination Schemes.

(** An exception, by what [test_database] tells apart: an [ImportError]
    (or a subclass of it), an [AttributeError] (or a subclass of it), which
    [getattr] with a default swallows, another [Exception], or a
    [BaseException] outside of [Exception] such as [KeyboardInterrupt];
    [text] is what [str(e)] returns. *)
Inductive exc_kind := ImportError | AttributeError | Exception | BaseException.

Record exc := Exc { kind : exc_kind; text : PyStr.str }.

(** A call returns or raises. *)
Inductive result (A : Type) :=
| Returns (a : A)
| Raises (e : exc).
Arguments Returns {A} a.
Arguments Raises {A} e.

Definition bind {A B : Type} (r : result A) (f : A -> result B) : result B :=
  match r with
  | Returns a => f a
  | Raises e => Raises e
  end.

Notation "x <- r ;; k" := (bind r (fun x => k))
  (at level 61, r at next level, right associativity).

(** A [try] block with [except Exception as e]: a [BaseException] that is
    no [Exception] goes through. *)
Definition except_Exception {A : Type} (r : result A) (handler : exc -> result A)
  : result A :=
  match r with
  | Returns a => Returns a
  | Raises e =>
      match kind e with
      | BaseException => Raises e
      | _ => handler e
      end
  end.

(** The object [db] of the module [database], by the two uses made of it:
    the attribute [name] (absent, or present with the outcome of reading
    it, which may raise) and the call [db.list_collection_names()]. *)
Record db_object := DbObject {
  db_name : option (result pyvalue);
  db_list_collection_names : result pyvalue
}.

(** [getattr(db, 'name', default)]: the default stands in when the
    attribute is absent and when reading it raises an [AttributeError];
    any other exception goes through. *)
Definition getattr_name (db : db_object) (default : pyvalue) : result pyvalue :=
  match db_name db with
  | Some (Returns v) => Returns v
  | Some (Raises e) =>
      match kind e with
      | AttributeError => Returns default
      | _ => Raises e
      end
  | None => Returns default
  end.

(** [collections[:10]]. *)
Definition slice10 (collections : pyvalue) : result pyvalue :=
  match collections with
  | VList l => Returns (VList (firstn 10 l))
  | VStr s => Returns (VStr (firstn 10 s))
  | VNone =>
      Raises (Exc Exception (PyStr.lit "'NoneType' object is not subscriptable"))
  | VInt _ =>
      Raises (Exc Exception (PyStr.lit "'int' object is not subscriptable"))
  end.

(** A [dict] with string keys, in insertion order; [d[k] = v] keeps the
    place of a key that is there already. *)
Definition dict := list (PyStr.str * pyvalue).

Fixpoint setitem (k : PyStr.str) (v : pyvalue) (d : dict) : dict :=
  match d with
  | [] => [(k, v)]
  | (k', w) :: rest =>
      if PyStr.eqb k k' then (k', v) :: rest else (k', w) :: setitem k v rest
  end.

Fixpoint getitem (k : PyStr.str) (d : dict) : option pyvalue :=
  match d with
  | [] => None
  | (k', w) :: rest => if PyStr.eqb k k' then Some w else getitem k rest
  end.

(** The marks that open the status texts: U+2705, U+274C, and U+26A0 with
    its variation selector U+FE0F. *)
Definition check_mark (s : string) : PyStr.str := 0x2705 :: PyStr.lit s.
Definition cross_mark (s : string) : PyStr.str := 0x274C :: PyStr.lit s.
Definition warning_sign (s : string) : PyStr.str := 0x26A0 :: 0xFE0F :: PyStr.lit s.

(** The truth value of [os.getenv(name)]: set, and not empty. *)
Definition truthy (v : option PyStr.str) : bool :=
  match v with
  | Some (_ :: _) => true
  | _ => false
  end.

Definition set_or_not (v : option PyStr.str) : pyvalue :=
  if truthy v then VStr (check_mark " Set") else VStr (cross_mark " Not Set").

(** The inner [try] of [test_database], from the response as it stands. *)
Definition list_collections (db : db_object) (response : dict) : result dict :=
  except_Exception
    (collections <- db_list_collection_names db ;;
     sliced <- slice10 collections ;;
     let response := setitem (PyStr.lit "collections") sliced response in
     Returns (setitem (PyStr.lit "database") (VStr (check_mark " Connected & Working"))
                      response))
    (fun e =>
       Returns (setitem (PyStr.lit "database")
                  (VStr (warning_sign "  Connected but Error: " ++ firstn 50 (text e)))
                  response)).

(** The two handlers of the outer [try]: [except ImportError], then
    [except Exception as e]. *)
Definition import_handlers (response : dict) (e : exc) : result dict :=
  match kind e with
  | ImportError =>
      Returns
        (setitem (PyStr.lit "database")
           (VStr (cross_mark " Database module not found (run enable-database first)"))
           response)
  | AttributeError | Exception =>
      Returns (setitem (PyStr.lit "database")
                 (VStr (cross_mark " Error: " ++ firstn 50 (text e))) response)
  | BaseException => Raises e
  end.

(** [test_database()], given the outcome of [from database import db]
    ([Returns None] when [db] is [None]) and the values of [DATABASE_URL]
    and [DATABASE_NAME] in the environment. *)
Definition test_database (imported : result (option db_object))
    (database_url database_name : option PyStr.str) : result dict :=
  let response : dict :=
    [ (PyStr.lit "backend", VStr (check_mark " Running"));
      (PyStr.lit "database", VStr (cross_mark " Not Available"));
      (PyStr.lit "database_url", VNone);
      (PyStr.lit "database_name", VNone);
      (PyStr.lit "connection_status", VStr (PyStr.lit "Not Connected"));
      (PyStr.lit "collections", VList []) ] in
  response <-
    match imported with
    | Returns (Some db) =>
        let response :=
          setitem (PyStr.lit "database") (VStr (check_mark " Available")) response in
        let response :=
          setitem (PyStr.lit "database_url") (VStr (check_mark " Configured"))
                  response in
        match getattr_name db (VStr (check_mark " Connected")) with
        | Returns name =>
            let response := setitem (PyStr.lit "database_name") name response in
            let response :=
              setitem (PyStr.lit "connection_status") (VStr (PyStr.lit "Connected"))
                      response in
            match list_collections db response with
            | Returns response => Returns response
            | Raises e => import_handlers response e
            end
        | Raises e => import_handlers response e
        end
    | Returns None =>
        Returns (setitem (PyStr.lit "database")
                   (VStr (warning_sign "  Available but not initialized")) response)
    | Raises e => import_handlers response e
    end ;;
  let response :=
    setitem (PyStr.lit "database_url") (set_or_not database_url) response in
  let response :=
    setitem (PyStr.lit "database_name") (set_or_not database_name) response in
  Returns response.


(** The texts that the [database] entry of a response can end with. *)
Definition final_status (s : PyStr.str) : Prop :=
  s = check_mark " Connected & Working"
  \/ (exists msg, s = warning_sign "  Connected but Error: " ++ firstn 50 msg)
  \/ s = warning_sign "  Available but not initialized"
  \/ s = cross_mark " Database module not found (run enable-database first)"
  \/ (exists msg, s = cross_mark " Error: " ++ firstn 50 msg).

(** ** What the statements on the stream need *)

(** The prices up to which the emitted bar is shown to hold whole cents:
    [2^45], and the ticks for which the price stays below it. *)
Definition cents_limit : float := 35184372088832%float.
Definition cents_ticks : nat := 128 * 20.

(** A draw of [random.randint(-20, 20)]. *)
Definition jitter_in_range (i : tick_input) : Prop := -20 <= jitter i <= 20.

(** The characters that an event stream carries as they are: the printable
    ASCII ones, which leaves out the line feed and the carriage return. *)
Definition printable (c : Z) : bool := (32 <=? c) && (c <=? 126).

(** Code points, and among them the surrogates. *)
Definition is_code_point (c : Z) : bool := (0 <=? c) && (c <=? 0x10FFFF).
Definition is_surrogate (c : Z) : bool := (0xD800 <=? c) && (c <=? 0xDFFF).

(** The requests up to the first one that finds the client gone. *)
Fixpoint until_disconnect (inputs : list (tick_input * bool)) : list tick_input :=
  match inputs with
  | (i, false) :: rest => i :: until_disconnect rest
  | _ => []
  end.

(** * Properties *)

Example sha256_abc :
  Hmac.hex (Sha256.sha256 (PyStr.lit "abc"))
  = PyStr.lit "ba7816bf8f01cfea414140de5dae2223b00361a396177a9cb410ff61f20015ad".
Proof. vm_compute. reflexivity. Qed.

Example hmac_rfc4231_case2 :
  sign_payload (PyStr.lit "Jefe") (PyStr.lit "what do ya want for nothing?")
  = Some (PyStr.lit "5bdcc146bf60754e6a042426089575c75a003f089d2739839dec58b964ec3843").
Proof. vm_compute. reflexivity. Qed.

Example hmac_long_key :
  sign_payload (repeat 107 100) (repeat 120 200)
  = Some (PyStr.lit "e326f00ce14194bb85e2683fe9b1a78851753f77479303f94c2c3cd1998bdda3").
Proof. vm_compute. reflexivity. Qed.

Example hmac_empty_message :
  sign_payload (PyStr.lit "demo-secret") []
  = Some (PyStr.lit "7855538ae9504dbc35d30b8571580834b30f1ffbe3e74dc26ed432bde2dd813f").
Proof. vm_compute. reflexivity. Qed.

(** ** The shape of a session *)

Lemma run_Finished : forall inputs, run Finished inputs = ([], Finished).
Proof.
  induction inputs as [|[i d] rest IH]; simpl; [reflexivity|].
  rewrite IH. reflexivity.
Qed.

Lemma run_cons : forall s i d rest,
  run s ((i, d) :: rest)
  = (match fst (event_generator s i d) with
     | Some t => t :: fst (run (snd (event_generator s i d)) rest)
     | None => fst (run (snd (event_generator s i d)) rest)
     end,
     snd (run (snd (event_generator s i d)) rest)).
Proof.
  intros. simpl. destruct (event_generator s i d) as [o s1]. simpl.
  destruct (run s1 rest) as [outs s2]. reflexivity.
Qed.

(** Whatever the requests, the ticks that reach the transport are
    consecutive ticks of the generator from its first state. *)
Lemma run_ticks_from : forall secret symbol inputs st,
  exists st',
    ticks_from secret symbol st
      (fst (run (Streaming (Suspended secret symbol st)) inputs)) st'
    /\ (snd (run (Streaming (Suspended secret symbol st)) inputs)
          = Streaming (Suspended secret symbol st')
        \/ snd (run (Streaming (Suspended secret symbol st)) inputs) = Finished).
Proof.
  intros secret symbol inputs.
  induction inputs as [|[i d] rest IH]; intros st.
  - exists st. split; [constructor | left; reflexivity].
  - rewrite run_cons. unfold event_generator, next.
    destruct (market_step secret symbol st i) as [[t st1]|] eqn:Hstep.
    + destruct d; simpl.
      * rewrite run_Finished. exists st. split; [constructor | right; reflexivity].
      * destruct (IH st1) as [st' [Hc Hs]]. exists st'. split.
        -- econstructor; eassumption.
        -- exact Hs.
    + simpl. rewrite run_Finished. exists st. split; [constructor | right; reflexivity].
Qed.

Lemma ticks_from_Forall : forall secret symbol (P : tick -> Prop),
  (forall st i t st', market_step secret symbol st i = Some (t, st') -> P t) ->
  forall st out st', ticks_from secret symbol st out st' -> Forall P out.
Proof.
  intros secret symbol P HP st out st' H.
  induction H; constructor; eauto.
Qed.

Lemma ticks_from_invariant : forall secret symbol (I : sim_state -> Prop),
  (forall st i t st', I st -> market_step secret symbol st i = Some (t, st') -> I st') ->
  forall st out st', ticks_from secret symbol st out st' -> I st -> I st'.
Proof.
  intros secret symbol I HI st out st' H.
  induction H; eauto.
Qed.

(** What [market_step] leaves in the tick and in the state. *)
Lemma market_step_inv : forall secret symbol st i t st',
  market_step secret symbol st i = Some (t, st') ->
  open_price t = last_close st
  /\ high t = draw_high (last_close st) (rnd_high i)
  /\ low t = draw_low (last_close st) (rnd_low i)
  /\ close t = PyFloat.uniform (low t) (high t) (rnd_close i)
  /\ data t = make_data (now_iso i) symbol (clamp_latency (latency_ms st) (jitter i))
               (make_bar (unix_time i) (open_price t) (high t) (low t) (close t))
  /\ payload t = Json.dumps (data t)
  /\ sign_payload secret (payload t) = Some (sig t)
  /\ event t = make_event (data t) (sig t)
  /\ last_close st' = close t
  /\ latency_ms st' = clamp_latency (latency_ms st) (jitter i).
Proof.
  intros secret symbol st i t st' H. unfold market_step in H.
  destruct (sign_payload secret _) as [sg|] eqn:Hsig; [|discriminate].
  injection H as <- <-. simpl. repeat split; try reflexivity. exact Hsig.
Qed.

Lemma session_ticks : forall env symbol inputs,
  exists st',
    ticks_from (getenv env (PyStr.lit "demo-secret"))
               (getenv symbol (PyStr.lit "BTC-USD")) init_state
               (fst (run (sse_market env symbol) inputs)) st'
    /\ (session_state (snd (run (sse_market env symbol) inputs)) = Some st'
        \/ snd (run (sse_market env symbol) inputs) = Finished).
Proof.
  intros env symbol inputs. unfold sse_market, market_stream.
  change (getenv (Some (getenv symbol (PyStr.lit "BTC-USD"))) (PyStr.lit "BTC-USD"))
    with (getenv symbol (PyStr.lit "BTC-USD")).
  destruct (run_ticks_from (getenv env (PyStr.lit "demo-secret"))
              (getenv symbol (PyStr.lit "BTC-USD")) inputs init_state)
    as [st' [Hc [Hs|Hs]]];
    exists st'; (split; [exact Hc|]).
  - left. rewrite Hs. reflexivity.
  - right. exact Hs.
Qed.

Lemma ticks_from_first : forall secret symbol st out st' t,
  ticks_from secret symbol st out st' ->
  nth_error out 0 = Some t ->
  open_price t = last_close st.
Proof.
  intros secret symbol st out st' t H Hn. destruct H as [|st i t0 st1 out st' Hstep _].
  - discriminate.
  - simpl in Hn. injection Hn as ->.
    apply market_step_inv in Hstep. tauto.
Qed.

Lemma ticks_from_next : forall secret symbol st out st',
  ticks_from secret symbol st out st' ->
  forall n t t',
    nth_error out n = Some t ->
    nth_error out (S n) = Some t' ->
    open_price t' = close t.
Proof.
  intros secret symbol st out st' H.
  induction H as [|st i t0 st1 out st' Hstep Hrest IH]; intros n t t' Hn Hn'.
  - destruct n; discriminate.
  - destruct n as [|n].
    + simpl in Hn, Hn'. injection Hn as ->.
      rewrite (ticks_from_first _ _ _ _ _ _ Hrest Hn').
      apply market_step_inv in Hstep. tauto.
    + simpl in Hn, Hn'. eapply IH; eassumption.
Qed.

(** The envelope and the bar of a tick, field by field. *)
Lemma tick_fields : forall secret symbol st i t st',
  market_step secret symbol st i = Some (t, st') ->
  field "ts" t = Some (Json.JStr (now_iso i))
  /\ field "symbol" t = Some (Json.JStr symbol)
  /\ field "latency_ms" t = Some (Json.JInt (clamp_latency (latency_ms st) (jitter i)))
  /\ field "venue_count" t = Some (Json.JInt 18)
  /\ field "control_checks" t = Some (Json.JInt 42)
  /\ bar_field "t" t = Some (Json.JInt (unix_time i))
  /\ bar_field "o" t = Some (Json.JFloat (PyFloat.round2 (open_price t)))
  /\ bar_field "h" t = Some (Json.JFloat (PyFloat.round2 (high t)))
  /\ bar_field "l" t = Some (Json.JFloat (PyFloat.round2 (low t)))
  /\ bar_field "c" t = Some (Json.JFloat (PyFloat.round2 (close t))).
Proof.
  intros secret symbol st i t st' H.
  apply market_step_inv in H.
  destruct H as (_ & _ & _ & _ & Hd & _).
  unfold bar_field, field. rewrite Hd.
  repeat split; reflexivity.
Qed.

Lemma ticks_from_fields : forall secret symbol st out st',
  ticks_from secret symbol st out st' ->
  Forall (fun t =>
    field "symbol" t = Some (Json.JStr symbol)
    /\ (exists l, field "latency_ms" t = Some (Json.JInt l) /\ 20 <= l <= 250)
    /\ field "venue_count" t = Some (Json.JInt 18)
    /\ field "control_checks" t = Some (Json.JInt 42)
    /\ bar_field "o" t = Some (Json.JFloat (PyFloat.round2 (open_price t)))
    /\ bar_field "h" t = Some (Json.JFloat (PyFloat.round2 (high t)))
    /\ bar_field "l" t = Some (Json.JFloat (PyFloat.round2 (low t)))
    /\ bar_field "c" t = Some (Json.JFloat (PyFloat.round2 (close t)))) out.
Proof.
  intros secret symbol st out st' H.
  eapply ticks_from_Forall; [|exact H].
  intros st0 i t st1 Hstep. apply tick_fields in Hstep.
  destruct Hstep as (_ & Hsym & Hlat & Hv & Hc & _ & Ho & Hh & Hl & Hcl).
  repeat split; try assumption.
  eexists. split; [exact Hlat|]. unfold clamp_latency. lia.
Qed.


Lemma clamp_latency_range : forall latency jit,
  20 <= clamp_latency latency jit <= 250.
Proof. intros. unfold clamp_latency. lia. Qed.

Lemma run_app : forall s a b,
  run s (a ++ b)
  = (fst (run s a) ++ fst (run (snd (run s a)) b), snd (run (snd (run s a)) b)).
Proof.
  intros s a. revert s.
  induction a as [|[i d] a IH]; intros s b.
  - simpl. destruct (run s b). reflexivity.
  - rewrite <- app_comm_cons. rewrite !run_cons. rewrite IH.
    cbn [fst snd].
    destruct (fst (event_generator s i d)); reflexivity.
Qed.

Lemma event_generator_disconnected : forall s i,
  event_generator s i true = (None, Finished).
Proof.
  intros [g|] i; simpl; [|reflexivity].
  destruct (next g i) as [[t|] g']; reflexivity.
Qed.

Lemma ticks_from_last : forall secret symbol st out st',
  ticks_from secret symbol st out st' ->
  forall t, nth_error out (length out - 1) = Some t ->
  last_close st' = close t.
Proof.
  intros secret symbol st out st' H.
  induction H as [|st i t0 st1 out st' Hstep Hrest IH]; intros t Hn.
  - discriminate.
  - destruct out as [|t1 out].
    + simpl in Hn. injection Hn as ->.
      inversion Hrest; subst.
      apply market_step_inv in Hstep. tauto.
    + apply IH. simpl in Hn |- *.
      rewrite Nat.sub_0_r in *. exact Hn.
Qed.

(** ** The signer's output *)

Lemma hexchar_lower_hex : forall d, 0 <= d < 16 ->
  PyStr.is_lower_hex (PyStr.hexchar d) = true.
Proof.
  intros d Hd. unfold PyStr.is_lower_hex, PyStr.hexchar.
  destruct (d <? 10) eqn:E.
  - apply Z.ltb_lt in E. apply orb_true_iff. left.
    apply andb_true_iff. split; apply Z.leb_le; lia.
  - apply Z.ltb_ge in E. apply orb_true_iff. right.
    apply andb_true_iff. split; apply Z.leb_le; lia.
Qed.

Lemma hex_cons : forall b bs,
  Hmac.hex (b :: bs)
  = PyStr.hexchar (b mod 256 / 16) :: PyStr.hexchar (b mod 16) :: Hmac.hex bs.
Proof. reflexivity. Qed.

Lemma hex_length : forall bs, length (Hmac.hex bs) = (2 * length bs)%nat.
Proof.
  induction bs as [|b bs IH]; [reflexivity|].
  rewrite hex_cons. cbn [length]. rewrite IH. lia.
Qed.

Lemma hex_lower_hex : forall bs, forallb PyStr.is_lower_hex (Hmac.hex bs) = true.
Proof.
  induction bs as [|b bs IH]; [reflexivity|].
  rewrite hex_cons. cbn [forallb]. rewrite IH.
  rewrite !hexchar_lower_hex; [reflexivity| |].
  - apply Z.mod_pos_bound. lia.
  - pose proof (Z.mod_pos_bound b 256 ltac:(lia)) as Hb.
    split; [apply Z.div_pos; lia | apply Z.div_lt_upper_bound; lia].
Qed.

Lemma sha256_length : forall msg, length (Sha256.sha256 msg) = 32%nat.
Proof.
  intros msg. unfold Sha256.sha256.
  generalize (Sha256.blocks (length (Sha256.pad msg)) Sha256.H0 (Sha256.pad msg)).
  intros r. reflexivity.
Qed.

Lemma digest_length : forall key msg, length (Hmac.digest key msg) = 32%nat.
Proof. intros. unfold Hmac.digest. apply sha256_length. Qed.

Lemma digest_octets : forall key msg,
  Forall (fun b => 0 <= b < 256) (Hmac.digest key msg).
Proof.
  intros. unfold Hmac.digest, Sha256.sha256.
  generalize (Sha256.blocks
    (length (Sha256.pad (map (Z.lxor 92) (Hmac.key_block key) ++
       Sha256.bytes_of_regs
         (Sha256.blocks
            (length (Sha256.pad (map (Z.lxor 54) (Hmac.key_block key) ++ msg)))
            Sha256.H0 (Sha256.pad (map (Z.lxor 54) (Hmac.key_block key) ++ msg))))))
    Sha256.H0
    (Sha256.pad (map (Z.lxor 92) (Hmac.key_block key) ++
       Sha256.bytes_of_regs
         (Sha256.blocks
            (length (Sha256.pad (map (Z.lxor 54) (Hmac.key_block key) ++ msg)))
            Sha256.H0 (Sha256.pad (map (Z.lxor 54) (Hmac.key_block key) ++ msg)))))).
  intros r. unfold Sha256.bytes_of_regs, Sha256.bytes_of_word. simpl.
  repeat constructor; apply Z.mod_pos_bound; lia.
Qed.

Lemma hexdigest_format : forall key msg,
  length (Hmac.hexdigest key msg) = 64%nat
  /\ forallb PyStr.is_lower_hex (Hmac.hexdigest key msg) = true.
Proof.
  intros. unfold Hmac.hexdigest. split.
  - rewrite hex_length, digest_length. reflexivity.
  - apply hex_lower_hex.
Qed.

(** ** Serialised text is ASCII *)

Ltac ascii_pieces :=
  repeat (rewrite forallb_app; apply andb_true_iff; split); try reflexivity.

Lemma is_ascii_range : forall c, 0 <= c < 128 -> PyStr.is_ascii c = true.
Proof.
  intros c H. unfold PyStr.is_ascii.
  apply andb_true_iff. split; [apply Z.leb_le | apply Z.ltb_lt]; lia.
Qed.

Lemma lower_hex_ascii : forall c,
  PyStr.is_lower_hex c = true -> PyStr.is_ascii c = true.
Proof.
  intros c H. unfold PyStr.is_lower_hex in H.
  apply is_ascii_range.
  apply orb_true_iff in H. destruct H as [H|H];
    apply andb_true_iff in H; destruct H as [H1 H2];
    apply Z.leb_le in H1; apply Z.leb_le in H2; lia.
Qed.

Lemma forallb_impl : forall (f g : Z -> bool) l,
  (forall c, f c = true -> g c = true) ->
  forallb f l = true -> forallb g l = true.
Proof.
  intros f g l Hfg. induction l as [|c l IH]; simpl; [reflexivity|].
  intros H. apply andb_true_iff in H. destruct H as [Hc Hl].
  rewrite (Hfg _ Hc), (IH Hl). reflexivity.
Qed.

Lemma encode_ascii : forall s,
  forallb PyStr.is_ascii s = true -> PyStr.encode s = Some s.
Proof.
  induction s as [|c s IH]; simpl; [reflexivity|].
  intros H. apply andb_true_iff in H. destruct H as [Hc Hs].
  rewrite (IH Hs).
  unfold PyStr.is_ascii in Hc. apply andb_true_iff in Hc. destruct Hc as [H0 H1].
  unfold PyStr.encode_cp. rewrite H1.
  apply Z.leb_le in H0. destruct (c <? 0) eqn:E; [apply Z.ltb_lt in E; lia|].
  reflexivity.
Qed.

Lemma digits_pos_ascii : forall fuel n acc,
  forallb PyStr.is_ascii acc = true ->
  forallb PyStr.is_ascii (PyStr.digits_pos fuel n acc) = true.
Proof.
  induction fuel as [|fuel IH]; intros n acc Hacc; cbn [PyStr.digits_pos];
    [exact Hacc|].
  assert (Hd : forallb PyStr.is_ascii ((48 + n mod 10) :: acc) = true).
  { cbn [forallb]. rewrite Hacc, is_ascii_range; [reflexivity|].
    pose proof (Z.mod_pos_bound n 10 ltac:(lia)). lia. }
  destruct (n <? 10); [exact Hd | apply IH; exact Hd].
Qed.

Lemma repr_int_ascii : forall n, forallb PyStr.is_ascii (PyStr.repr_int n) = true.
Proof.
  intros n. unfold PyStr.repr_int. destruct (n <? 0).
  - cbn [forallb]. rewrite digits_pos_ascii; reflexivity.
  - apply digits_pos_ascii. reflexivity.
Qed.

Lemma hex4_ascii : forall c, forallb PyStr.is_ascii (Json.hex4 c) = true.
Proof.
  intros c. unfold Json.hex4. cbn [forallb].
  rewrite !lower_hex_ascii; [reflexivity|..];
    apply hexchar_lower_hex; apply Z.mod_pos_bound; lia.
Qed.

Lemma uescape_ascii : forall c, forallb PyStr.is_ascii (Json.uescape c) = true.
Proof.
  intros c. unfold Json.uescape. cbn [forallb]. rewrite hex4_ascii. reflexivity.
Qed.

Lemma escape_cp_ascii : forall c, forallb PyStr.is_ascii (Json.escape_cp c) = true.
Proof.
  intros c. unfold Json.escape_cp.
  repeat match goal with
         | |- context [if ?b then _ else _] => destruct b eqn:?
         end; try reflexivity.
  - cbn [forallb]. rewrite is_ascii_range; [reflexivity|].
    match goal with H : _ && _ = true |- _ => apply andb_true_iff in H; destruct H as [H1 H2] end.
    apply Z.leb_le in H1. apply Z.leb_le in H2. lia.
  - apply uescape_ascii.
  - rewrite forallb_app, !uescape_ascii. reflexivity.
Qed.

Lemma encode_str_ascii : forall s, forallb PyStr.is_ascii (Json.encode_str s) = true.
Proof.
  intros s. unfold Json.encode_str. ascii_pieces.
  induction s as [|c s IH]; [reflexivity|].
  cbn [flat_map]. rewrite forallb_app, escape_cp_ascii, IH. reflexivity.
Qed.

Lemma forallb_firstn : forall (f : Z -> bool) n l,
  forallb f l = true -> forallb f (firstn n l) = true.
Proof.
  intros f n. induction n as [|n IH]; intros [|c l] H; simpl; try reflexivity.
  simpl in H. apply andb_true_iff in H. destruct H as [Hc Hl].
  rewrite Hc, (IH _ Hl). reflexivity.
Qed.

Lemma forallb_skipn : forall (f : Z -> bool) n l,
  forallb f l = true -> forallb f (skipn n l) = true.
Proof.
  intros f n. induction n as [|n IH]; intros [|c l] H; simpl; try reflexivity.
  - exact H.
  - simpl in H. apply andb_true_iff in H. destruct H as [_ Hl]. exact (IH _ Hl).
Qed.

Lemma zeros_ascii : forall n, forallb PyStr.is_ascii (PyFloat.zeros n) = true.
Proof.
  intros n. unfold PyFloat.zeros.
  induction (Z.to_nat n) as [|k IH]; simpl; [reflexivity | exact IH].
Qed.

Lemma mantissa_ascii : forall digits,
  forallb PyStr.is_ascii digits = true ->
  forallb PyStr.is_ascii (PyFloat.point_after_first digits) = true.
Proof.
  intros [|d [|d' rest]] Hd; exact Hd.
Qed.

Lemma layout_ascii : forall digits decpt,
  forallb PyStr.is_ascii digits = true ->
  forallb PyStr.is_ascii (PyFloat.layout digits decpt) = true.
Proof.
  intros digits decpt Hd. unfold PyFloat.layout.
  destruct ((decpt <=? -4) || (16 <? decpt)).
  - rewrite !forallb_app, (mantissa_ascii _ Hd).
    destruct (decpt - 1 <? 0), (Z.abs (decpt - 1) <? 10);
      cbn [forallb]; rewrite repr_int_ascii; reflexivity.
  - destruct (decpt <=? 0); [|destruct (Z.of_nat (length digits) <=? decpt)].
    + rewrite !forallb_app, zeros_ascii, Hd. reflexivity.
    + rewrite !forallb_app, zeros_ascii, Hd. reflexivity.
    + rewrite !forallb_app, (forallb_firstn _ _ _ Hd), (forallb_skipn _ _ _ Hd).
      reflexivity.
Qed.

Lemma repr_ascii : forall x, forallb PyStr.is_ascii (PyFloat.repr x) = true.
Proof.
  intros x. unfold PyFloat.repr.
  destruct (Prim2SF x) as [s|s| |s m e]; try (destruct s; reflexivity); try reflexivity.
  destruct (PyFloat.shortest _ _ _ _ _) as [c p].
  destruct (PyFloat.strip_zeros _ _ _) as [c' p'].
  ascii_pieces.
  - destruct s; reflexivity.
  - apply layout_ascii, repr_int_ascii.
Qed.

Lemma floatstr_ascii : forall x, forallb PyStr.is_ascii (Json.floatstr x) = true.
Proof.
  intros x. unfold Json.floatstr.
  destruct (Prim2SF x) as [s|s| |s m e] eqn:E; try apply repr_ascii;
    try (destruct s; reflexivity); reflexivity.
Qed.

(** The payload of a tick, piece by piece. *)
Lemma dumps_make_data : forall now symbol latency t o h l c,
  Json.dumps (make_data now symbol latency (make_bar t o h l c))
  = [123] ++ (Json.encode_str (PyStr.lit "ts") ++ Json.key_sep ++ Json.encode_str now
      ++ Json.item_sep ++ Json.encode_str (PyStr.lit "symbol") ++ Json.key_sep
      ++ Json.encode_str symbol
      ++ Json.item_sep ++ Json.encode_str (PyStr.lit "latency_ms") ++ Json.key_sep
      ++ PyStr.repr_int latency
      ++ Json.item_sep ++ Json.encode_str (PyStr.lit "venue_count") ++ Json.key_sep
      ++ PyStr.repr_int 18
      ++ Json.item_sep ++ Json.encode_str (PyStr.lit "control_checks") ++ Json.key_sep
      ++ PyStr.repr_int 42
      ++ Json.item_sep ++ Json.encode_str (PyStr.lit "bar") ++ Json.key_sep
      ++ ([123] ++ (Json.encode_str (PyStr.lit "t") ++ Json.key_sep ++ PyStr.repr_int t
          ++ Json.item_sep ++ Json.encode_str (PyStr.lit "o") ++ Json.key_sep
          ++ Json.floatstr (PyFloat.round2 o)
          ++ Json.item_sep ++ Json.encode_str (PyStr.lit "h") ++ Json.key_sep
          ++ Json.floatstr (PyFloat.round2 h)
          ++ Json.item_sep ++ Json.encode_str (PyStr.lit "l") ++ Json.key_sep
          ++ Json.floatstr (PyFloat.round2 l)
          ++ Json.item_sep ++ Json.encode_str (PyStr.lit "c") ++ Json.key_sep
          ++ Json.floatstr (PyFloat.round2 c)) ++ [125])) ++ [125].
Proof. reflexivity. Qed.

Lemma dumps_make_data_ascii : forall now symbol latency t o h l c,
  forallb PyStr.is_ascii
    (Json.dumps (make_data now symbol latency (make_bar t o h l c))) = true.
Proof.
  intros. rewrite dumps_make_data.
  ascii_pieces;
    first [ apply encode_str_ascii | apply repr_int_ascii | apply floatstr_ascii ].
Qed.

(** With an encodable secret the loop body never raises. *)
Lemma market_step_total : forall secret key symbol st i,
  PyStr.encode secret = Some key ->
  exists t st', market_step secret symbol st i = Some (t, st').
Proof.
  intros secret key symbol st i Hk. unfold market_step.
  unfold sign_payload. rewrite Hk.
  rewrite (encode_ascii _ (dumps_make_data_ascii _ _ _ _ _ _ _ _)).
  eexists. eexists. reflexivity.
Qed.

(** A signature is not touched by the escaping of strings. *)
Lemma escape_lower_hex : forall s,
  forallb PyStr.is_lower_hex s = true -> flat_map Json.escape_cp s = s.
Proof.
  induction s as [|c s IH]; [reflexivity|].
  cbn [forallb flat_map]. intros H.
  apply andb_true_iff in H. destruct H as [Hc Hs]. rewrite (IH Hs).
  replace (Json.escape_cp c) with [c]; [reflexivity|].
  unfold PyStr.is_lower_hex in Hc. unfold Json.escape_cp, PyStr.dquote, PyStr.backslash.
  assert (Hr : 48 <= c <= 57 \/ 97 <= c <= 102).
  { apply orb_true_iff in Hc. destruct Hc as [H|H];
      apply andb_true_iff in H; destruct H as [H1 H2];
      apply Z.leb_le in H1; apply Z.leb_le in H2; lia. }
  repeat match goal with
         | |- context [?a =? ?b] =>
             destruct (Z.eqb_spec a b); [exfalso; lia|]
         end.
  replace ((32 <=? c) && (c <=? 126)) with true; [reflexivity|].
  symmetry. apply andb_true_iff. split; apply Z.leb_le; lia.
Qed.

Lemma make_event_text : forall d sg,
  forallb PyStr.is_lower_hex sg = true ->
  make_event d sg = event_prefix ++ Json.dumps d ++ event_infix ++ sg ++ event_suffix.
Proof.
  intros d sg H. unfold make_event, event_prefix, event_infix, event_suffix.
  cbn [Json.dumps]. unfold Json.encode_str at 3. rewrite (escape_lower_hex _ H).
  change (Json.encode_str (PyStr.lit "payload"))
    with ([PyStr.dquote] ++ PyStr.lit "payload" ++ [PyStr.dquote]).
  change (Json.encode_str (PyStr.lit "sig"))
    with ([PyStr.dquote] ++ PyStr.lit "sig" ++ [PyStr.dquote]).
  unfold Json.key_sep, Json.item_sep.
  change (PyStr.lit "data: {") with (PyStr.lit "data: " ++ [123]).
  change (PyStr.lit "}") with [125].
  repeat rewrite <- app_assoc. reflexivity.
Qed.

Lemma tick_payload_ascii : forall secret symbol st i t st',
  market_step secret symbol st i = Some (t, st') ->
  forallb PyStr.is_ascii (payload t) = true.
Proof.
  intros secret symbol st i t st' H. apply market_step_inv in H.
  destruct H as (_ & _ & _ & _ & Hd & Hp & _).
  rewrite Hp, Hd. apply dumps_make_data_ascii.
Qed.

Lemma sign_payload_lower_hex : forall secret payload sg,
  sign_payload secret payload = Some sg ->
  forallb PyStr.is_lower_hex sg = true.
Proof.
  intros secret payload sg H. unfold sign_payload in H.
  destruct (PyStr.encode secret) as [k|]; [|discriminate].
  destruct (PyStr.encode payload) as [m|]; [|discriminate].
  injection H as <-. apply hexdigest_format.
Qed.

(** While the client stays connected and the secret is encodable, every
    request is answered with an event and the session goes on. *)
Lemma run_connected : forall secret key symbol ticks st,
  PyStr.encode secret = Some key ->
  length (fst (run (Streaming (Suspended secret symbol st))
                   (map (fun i => (i, false)) ticks))) = length ticks
  /\ exists st',
       snd (run (Streaming (Suspended secret symbol st))
                (map (fun i => (i, false)) ticks))
       = Streaming (Suspended secret symbol st').
Proof.
  intros secret key symbol ticks st Hk. revert st.
  induction ticks as [|i ticks IH]; intros st.
  - split; [reflexivity | exists st; reflexivity].
  - cbn [map]. rewrite run_cons. unfold event_generator, next.
    destruct (market_step_total secret key symbol st i Hk) as (t & st1 & Hstep).
    rewrite Hstep. cbn [fst snd].
    destruct (IH st1) as [Hlen Hst].
    split; [cbn [length]; rewrite Hlen; reflexivity | exact Hst].
Qed.

(** ** Rounding to nearest on binary64

    The shifts of [SpecFloat] compute a round-half-even division; the
    rounding it defines is monotone and leaves representable numbers alone,
    which is all the bounds below need. *)

Lemma rhe_nearest : forall n d, 0 < d ->
  let M := PyFloat.round_half_even_div n d in
  2 * Z.abs (M * d - n) <= d
  /\ (2 * Z.abs (M * d - n) = d -> Z.even M = true)
  /\ (n / d <= M <= n / d + 1).
Proof.
  intros n d Hd M. unfold M, PyFloat.round_half_even_div.
  pose proof (Z.div_mod n d ltac:(lia)) as Hdm.
  pose proof (Z.mod_pos_bound n d Hd) as Hm.
  set (q := n / d) in *. set (r := n mod d) in *.
  destruct (Z.compare_spec (2 * r) d) as [E|E|E].
  - destruct (Z.even q) eqn:Hq.
    + split; [nia|]. split; [auto | lia].
    + split; [nia|]. split; [|lia]. intros _.
      rewrite Z.even_add, Hq. reflexivity.
  - split; [nia|]. split; [nia | lia].
  - split; [nia|]. split; [nia | lia].
Qed.

Lemma even_succ_false : forall a, Z.even a = true -> Z.even (a + 1) = true -> False.
Proof.
  intros a Ha Hb. rewrite Z.even_add in Hb. rewrite Ha in Hb. discriminate.
Qed.

Lemma rhe_mono : forall n1 d1 n2 d2,
  0 < d1 -> 0 < d2 -> n1 * d2 <= n2 * d1 ->
  PyFloat.round_half_even_div n1 d1 <= PyFloat.round_half_even_div n2 d2.
Proof.
  intros n1 d1 n2 d2 H1 H2 H.
  destruct (rhe_nearest n1 d1 H1) as (A1 & T1 & _).
  destruct (rhe_nearest n2 d2 H2) as (A2 & T2 & _).
  set (M1 := PyFloat.round_half_even_div n1 d1) in *.
  set (M2 := PyFloat.round_half_even_div n2 d2) in *.
  destruct (Z_le_gt_dec M1 M2) as [|Hgt]; [assumption|exfalso].
  assert (B1 : (2 * M1 - 1) * d1 <= 2 * n1) by lia.
  assert (B2 : 2 * n2 <= (2 * M2 + 1) * d2) by lia.
  assert (C : (2 * M1 - 1) * (d1 * d2) <= (2 * M2 + 1) * (d1 * d2)) by nia.
  assert (D : 2 * M1 - 1 <= 2 * M2 + 1) by nia.
  assert (E : M1 = M2 + 1) by lia.
  assert (E1 : (2 * M1 - 1) * d1 = 2 * n1) by nia.
  assert (E2 : 2 * n2 = (2 * M2 + 1) * d2) by nia.
  apply (even_succ_false M2).
  - apply T2. lia.
  - rewrite <- E. apply T1. lia.
Qed.

Lemma rhe_exact : forall k d, 0 < d -> PyFloat.round_half_even_div (k * d) d = k.
Proof.
  intros k d Hd. unfold PyFloat.round_half_even_div.
  rewrite Z.mod_mul, Z.div_mul by lia.
  destruct (Z.compare_spec (2 * 0) d); lia.
Qed.

Lemma shr_1_nonneg : forall m r s, 0 <= m ->
  shr_1 (Build_shr_record m r s) = Build_shr_record (m / 2) (Z.odd m) (r || s).
Proof.
  intros m r s Hm. rewrite <- Z.div2_div.
  destruct m as [|p|p]; [reflexivity| |lia].
  destruct p; reflexivity.
Qed.

Lemma mod_pow2_succ : forall n k, 0 <= k ->
  n mod 2 ^ (k + 1) = 2 ^ k * ((n / 2 ^ k) mod 2) + n mod 2 ^ k.
Proof.
  intros n k Hk. rewrite Z.pow_add_r by lia. change (2 ^ 1) with 2.
  rewrite Z.rem_mul_r by (try apply Z.pow_nonzero; lia). lia.
Qed.

Lemma odd_mod2 : forall a, Z.odd a = negb (a mod 2 =? 0).
Proof.
  intros a. rewrite Zmod_odd. destruct (Z.odd a); reflexivity.
Qed.

Lemma shr_1_rec : forall n k, 0 <= n -> 0 <= k ->
  shr_1 (shr_rec n k) = shr_rec n (k + 1).
Proof.
  intros n k Hn Hk. unfold shr_rec.
  destruct (Z.leb_spec (k + 1) 0); [lia|].
  replace (k + 1 - 1) with k by lia.
  destruct (Z.leb_spec k 0).
  - assert (k = 0) by lia. subst k. rewrite shr_1_nonneg by lia.
    change (2 ^ 0) with 1. change (2 ^ (0 + 1)) with 2.
    rewrite Z.div_1_r, Z.mod_1_r. reflexivity.
  - assert (Hp : 0 < 2 ^ k) by (apply Z.pow_pos_nonneg; lia).
    assert (Hp' : 0 < 2 ^ (k - 1)) by (apply Z.pow_pos_nonneg; lia).
    rewrite shr_1_nonneg by (apply Z.div_pos; lia).
    f_equal.
    + rewrite Z.pow_add_r by lia. change (2 ^ 1) with 2.
      rewrite Z.div_div by lia. reflexivity.
    + pose proof (mod_pow2_succ n (k - 1) ltac:(lia)) as E.
      replace (k - 1 + 1) with k in E by lia.
      rewrite E. rewrite odd_mod2.
      pose proof (Z.mod_pos_bound (n / 2 ^ (k - 1)) 2 ltac:(lia)).
      pose proof (Z.mod_pos_bound n (2 ^ (k - 1)) ltac:(lia)).
      destruct (Z.eqb_spec ((n / 2 ^ (k - 1)) mod 2) 0) as [E0|E0];
        destruct (Z.eqb_spec (n mod 2 ^ (k - 1)) 0) as [E1|E1]; simpl;
        symmetry.
      * rewrite E0, E1. apply negb_false_iff, Z.eqb_eq. lia.
      * apply negb_true_iff, Z.eqb_neq. nia.
      * apply negb_true_iff, Z.eqb_neq. nia.
      * apply negb_true_iff, Z.eqb_neq. nia.
Qed.

Lemma iter_shr_rec : forall p n k, 0 <= n -> 0 <= k ->
  SpecFloat.iter_pos shr_1 p (shr_rec n k) = shr_rec n (k + Zpos p).
Proof.
  induction p as [p IH|p IH|]; intros n k Hn Hk; cbn [SpecFloat.iter_pos].
  - rewrite shr_1_rec, IH, IH by lia. f_equal. lia.
  - rewrite IH, IH by lia. f_equal. lia.
  - apply shr_1_rec; assumption.
Qed.

Lemma shr_exact : forall n e s, 0 <= n ->
  shr (Build_shr_record n false false) e s = (shr_rec n s, e + Z.max s 0).
Proof.
  intros n e s Hn. unfold shr. destruct s as [|p|p].
  - unfold shr_rec. simpl. f_equal; try lia.
  - change (Build_shr_record n false false) with (shr_rec n 0).
    rewrite iter_shr_rec by lia. f_equal; try lia.
  - unfold shr_rec. simpl. f_equal; try lia.
Qed.

Lemma rne_shr_rec : forall n k, 0 <= n ->
  round_nearest_even (shr_m (shr_rec n k)) (loc_of_shr_record (shr_rec n k))
  = PyFloat.round_half_even_div n (2 ^ Z.max k 0).
Proof.
  intros n k Hn. unfold shr_rec.
  destruct (Z.leb_spec k 0).
  - rewrite Z.max_r by lia. simpl.
    unfold PyFloat.round_half_even_div. rewrite Z.mod_1_r, Z.div_1_r. reflexivity.
  - rewrite Z.max_l by lia.
    assert (Hp : 0 < 2 ^ k) by (apply Z.pow_pos_nonneg; lia).
    assert (Hp' : 0 < 2 ^ (k - 1)) by (apply Z.pow_pos_nonneg; lia).
    assert (Hk : 2 ^ k = 2 * 2 ^ (k - 1)).
    { rewrite <- Z.pow_succ_r by lia. f_equal. lia. }
    pose proof (mod_pow2_succ n (k - 1) ltac:(lia)) as E.
    replace (k - 1 + 1) with k in E by lia.
    pose proof (Z.mod_pos_bound (n / 2 ^ (k - 1)) 2 ltac:(lia)) as B1.
    pose proof (Z.mod_pos_bound n (2 ^ (k - 1)) ltac:(lia)) as B2.
    unfold PyFloat.round_half_even_div. rewrite E.
    rewrite odd_mod2. cbn [shr_m loc_of_shr_record].
    destruct (Z.eqb_spec ((n / 2 ^ (k - 1)) mod 2) 0) as [E0|E0];
      destruct (Z.eqb_spec (n mod 2 ^ (k - 1)) 0) as [E1|E1]; cbn [negb round_nearest_even].
    + destruct (Z.compare_spec (2 * (2 ^ (k - 1) * ((n / 2 ^ (k - 1)) mod 2) + n mod 2 ^ (k - 1))) (2 ^ k)); try nia; reflexivity.
    + destruct (Z.compare_spec (2 * (2 ^ (k - 1) * ((n / 2 ^ (k - 1)) mod 2) + n mod 2 ^ (k - 1))) (2 ^ k)); try nia; reflexivity.
    + destruct (Z.compare_spec (2 * (2 ^ (k - 1) * ((n / 2 ^ (k - 1)) mod 2) + n mod 2 ^ (k - 1))) (2 ^ k)); try nia; reflexivity.
    + destruct (Z.compare_spec (2 * (2 ^ (k - 1) * ((n / 2 ^ (k - 1)) mod 2) + n mod 2 ^ (k - 1))) (2 ^ k)); try nia; reflexivity.
Qed.

Lemma digits2_pos_size : forall p, digits2_pos p = Pos.size p.
Proof. induction p; simpl; congruence. Qed.

Lemma Zdigits2_log2 : forall n, 0 < n -> Zdigits2 n = Z.log2 n + 1.
Proof.
  intros [|p|p] Hn; try lia. unfold Zdigits2. rewrite digits2_pos_size.
  destruct p; simpl; lia.
Qed.

Lemma Zdigits2_bounds : forall n, 0 < n ->
  2 ^ (Zdigits2 n - 1) <= n < 2 ^ Zdigits2 n.
Proof.
  intros n Hn. rewrite Zdigits2_log2 by assumption.
  replace (Z.log2 n + 1 - 1) with (Z.log2 n) by lia.
  replace (Z.log2 n + 1) with (Z.succ (Z.log2 n)) by lia.
  apply Z.log2_spec. assumption.
Qed.

Lemma Zdigits2_pos : forall n, 0 < n -> 0 < Zdigits2 n.
Proof.
  intros n Hn. rewrite Zdigits2_log2 by assumption.
  pose proof (Z.log2_nonneg n). lia.
Qed.

Lemma Zdigits2_le : forall n k, 0 < n -> 0 <= k -> n < 2 ^ k -> Zdigits2 n <= k.
Proof.
  intros n k Hn Hk H. pose proof (Zdigits2_bounds n Hn) as [B _].
  pose proof (Zdigits2_pos n Hn).
  destruct (Z_le_gt_dec (Zdigits2 n) k); [assumption|exfalso].
  assert (2 ^ k <= 2 ^ (Zdigits2 n - 1)) by (apply Z.pow_le_mono_r; lia).
  lia.
Qed.

Lemma Zdigits2_ge : forall n k, 0 < n -> 2 ^ (k - 1) <= n -> k <= Zdigits2 n.
Proof.
  intros n k Hn H. pose proof (Zdigits2_bounds n Hn) as [_ B].
  pose proof (Zdigits2_pos n Hn).
  destruct (Z_le_gt_dec k (Zdigits2 n)); [assumption|exfalso].
  assert (2 ^ Zdigits2 n <= 2 ^ (k - 1)) by (apply Z.pow_le_mono_r; lia).
  lia.
Qed.

Lemma shr_m_rec : forall n k, shr_m (shr_rec n k) = n / 2 ^ Z.max k 0.
Proof.
  intros n k. unfold shr_rec. destruct (Z.leb_spec k 0).
  - rewrite Z.max_r by lia. simpl. rewrite Z.div_1_r. reflexivity.
  - rewrite Z.max_l by lia. reflexivity.
Qed.

Lemma rhe_nonneg : forall n d, 0 <= n -> 0 < d -> 0 <= PyFloat.round_half_even_div n d.
Proof.
  intros n d Hn Hd. destruct (rhe_nearest n d Hd) as (_ & _ & B).
  pose proof (Z.div_pos n d Hn Hd). lia.
Qed.

(** Closed form of [binary_round_aux] on an exact positive input. *)
Lemma binary_round_aux_closed : forall m e,
  binary_round_aux prec emax false (Zpos m) e loc_Exact
  = let s := Z.max (cexp (Zpos m) e - e) 0 in
    let M := PyFloat.round_half_even_div (Zpos m) (2 ^ s) in
    let s2 := Z.max (cexp M (e + s) - (e + s)) 0 in
    match M / 2 ^ s2 with
    | Z0 => S754_zero false
    | Zpos p =>
        if e + s + s2 <=? emax - prec then S754_finite false p (e + s + s2)
        else S754_infinity false
    | Zneg _ => S754_nan
    end.
Proof.
  intros m e. unfold binary_round_aux, shr_fexp. cbn [shr_record_of_loc].
  rewrite shr_exact by lia. rewrite rne_shr_rec by lia.
  fold (cexp (Zpos m) e).
  set (s := Z.max (cexp (Zpos m) e - e) 0).
  set (M := PyFloat.round_half_even_div (Zpos m) (2 ^ s)).
  assert (HM : 0 <= M).
  { apply rhe_nonneg; [lia|]. apply Z.pow_pos_nonneg; lia. }
  rewrite shr_exact by assumption. rewrite shr_m_rec.
  fold (cexp M (e + s)). cbv zeta. reflexivity.
Qed.

Lemma cexp_unfold : forall m e, cexp m e = Z.max (Zdigits2 m + e - 53) (-1074).
Proof. reflexivity. Qed.

Lemma pow2_split : forall a b, 0 <= a -> 0 <= b -> 2 ^ (a + b) = 2 ^ a * 2 ^ b.
Proof. intros. apply Z.pow_add_r; assumption. Qed.

(** The rounded mantissa: zero, below [2^53] and canonical at [cexp], or
    exactly [2^53] in the normal range. *)
Lemma rnd_int_cases : forall m e, 0 < m -> e <= cexp m e ->
  let M := rnd_int m e in
  let c := cexp m e in
  M = 0
  \/ (0 < M < 2 ^ 53 /\ cexp M c = c /\ (-1074 < c -> 2 ^ 52 <= M))
  \/ (M = 2 ^ 53 /\ -1074 <= c /\ cexp M c = c + 1).
Proof.
  intros m e Hm He M c.
  pose proof (Zdigits2_bounds m Hm) as [Hlo Hhi].
  pose proof (Zdigits2_pos m Hm) as Hd.
  assert (Hc : c = Z.max (Zdigits2 m + e - 53) (-1074)) by reflexivity.
  set (d := Zdigits2 m) in *.
  set (s := c - e).
  assert (Hs : 0 <= s) by (unfold s, c; lia).
  assert (Hp : 0 < 2 ^ s) by (apply Z.pow_pos_nonneg; lia).
  destruct (rhe_nearest m (2 ^ s) Hp) as (_ & _ & Hq).
  fold s in M. change (PyFloat.round_half_even_div m (2 ^ s)) with M in Hq.
  assert (Hq0 : 0 <= m / 2 ^ s) by (apply Z.div_pos; lia).
  destruct (Z_le_gt_dec (-1074) (d + e - 53)) as [Hn|Hn].
  - (* normal range *)
    assert (Ec : c = d + e - 53) by lia.
    assert (Es : s = d - 53) by (unfold s; lia).
    assert (Hq1 : 2 ^ 52 <= m / 2 ^ s).
    { apply Z.div_le_lower_bound; [lia|].
      rewrite <- pow2_split by lia. replace (s + 52) with (d - 1) by lia. exact Hlo. }
    assert (Hq2 : m / 2 ^ s < 2 ^ 53).
    { apply Z.div_lt_upper_bound; [lia|].
      rewrite <- pow2_split by lia. replace (s + 53) with d by lia. exact Hhi. }
    destruct (Z_lt_le_dec M (2 ^ 53)) as [Hlt|Hge].
    + right. left. split; [lia|]. split; [|lia].
      rewrite cexp_unfold.
      assert (Zdigits2 M = 53).
      { apply Z.le_antisymm; [apply Zdigits2_le | apply Zdigits2_ge]; lia. }
      lia.
    + right. right. assert (EM : M = 2 ^ 53) by lia.
      split; [exact EM|]. split; [lia|].
      rewrite cexp_unfold, EM. change (Zdigits2 (2 ^ 53)) with 54. lia.
  - (* subnormal range *)
    assert (Ec : c = -1074) by lia.
    assert (Hq2 : m / 2 ^ s < 2 ^ 52).
    { apply Z.div_lt_upper_bound; [lia|].
      rewrite <- pow2_split by lia.
      apply Z.lt_le_trans with (1 := Hhi).
      apply Z.pow_le_mono_r; unfold s; lia. }
    destruct (Z.eq_dec M 0) as [E0|N0]; [left; exact E0|].
    right. left. split; [lia|]. split; [|lia].
    rewrite cexp_unfold.
    assert (Zdigits2 M <= 53).
    { apply Zdigits2_le; lia. }
    lia.
Qed.

Lemma valid_finite : forall p c,
  cexp (Zpos p) c = c -> c <= 971 ->
  SpecFloat.valid_binary prec emax (S754_finite false p c) = true.
Proof.
  intros p c Hc Hle. unfold SpecFloat.valid_binary, SpecFloat.bounded, SpecFloat.canonical_mantissa.
  change (fexp prec emax (Zpos (digits2_pos p) + c)) with (cexp (Zpos p) c).
  rewrite Hc, Z.eqb_refl. simpl. apply Z.leb_le. exact Hle.
Qed.

Lemma binary_round_aux_cases : forall m e, e <= cexp (Zpos m) e ->
  let z := binary_round_aux prec emax false (Zpos m) e loc_Exact in
  let M := rnd_int (Zpos m) e in
  let c := cexp (Zpos m) e in
  (M = 0 /\ z = S754_zero false)
  \/ (exists p, z = S754_finite false p c /\ Zpos p = M
                /\ SpecFloat.valid_binary prec emax z = true)
  \/ (exists p, z = S754_finite false p (c + 1) /\ 2 * Zpos p = M
                /\ SpecFloat.valid_binary prec emax z = true)
  \/ (z = S754_infinity false /\ 2 ^ 52 <= M /\ 971 <= c /\ (c = 971 -> M = 2 ^ 53)).
Proof.
  intros m e He z M c.
  unfold z. rewrite binary_round_aux_closed. cbv zeta.
  assert (Hs : Z.max (cexp (Z.pos m) e - e) 0 = c - e) by (unfold c; lia).
  rewrite Hs. replace (e + (c - e)) with c by lia.
  change (PyFloat.round_half_even_div (Z.pos m) (2 ^ (c - e))) with M.
  destruct (rnd_int_cases (Zpos m) e ltac:(lia) He) as [E0|[(HM & Hc & Hn)|(EM & Hn & Hc)]];
    fold M in E0 || fold M c in HM, Hc, Hn || fold M c in EM, Hn, Hc.
  - left. split; [exact E0|]. rewrite E0. rewrite Z.div_0_l; [reflexivity|].
    apply Z.pow_nonzero; lia.
  - rewrite Hc. replace (Z.max (c - c) 0) with 0 by lia.
    change (2 ^ 0) with 1. rewrite Z.div_1_r, Z.add_0_r.
    destruct M as [|p|p] eqn:EM; try lia.
    change (emax - prec) with 971.
    destruct (Z.leb_spec c 971) as [Hle|Hgt].
    + right. left. exists p. split; [reflexivity|]. split; [reflexivity|].
      apply valid_finite; assumption.
    + right. right. right. split; [reflexivity|]. lia.
  - rewrite Hc. replace (Z.max (c + 1 - c) 0) with 1 by lia.
    rewrite EM. change (2 ^ 53 / 2 ^ 1) with (Zpos (2 ^ 52)).
    change (emax - prec) with 971.
    destruct (Z.leb_spec (c + 1) 971) as [Hle|Hgt].
    + right. right. left. exists (2 ^ 52)%positive.
      split; [reflexivity|]. split; [reflexivity|].
      apply valid_finite; [|lia].
      rewrite cexp_unfold. change (Zdigits2 (Zpos (2 ^ 52))) with 53. lia.
    + right. right. right. split; [reflexivity|]. lia.
Qed.

Lemma pow2_pos : forall e, (0 < pow2 e)%R.
Proof. intros e. apply powerRZ_lt. lra. Qed.

Lemma pow2_add : forall a b, pow2 (a + b) = (pow2 a * pow2 b)%R.
Proof. intros a b. apply powerRZ_add. lra. Qed.

Lemma pow2_IZR : forall k, 0 <= k -> pow2 k = IZR (2 ^ k).
Proof.
  intros k Hk. unfold pow2.
  rewrite <- (Z2Nat.id k Hk) at 1. rewrite <- pow_powerRZ.
  rewrite pow_IZR. rewrite Z2Nat.id by assumption. reflexivity.
Qed.

Lemma pow2_le : forall a b, a <= b -> (pow2 a <= pow2 b)%R.
Proof.
  intros a b H. replace b with (a + (b - a)) by lia.
  rewrite pow2_add. rewrite (pow2_IZR (b - a)) by lia.
  assert (1 <= 2 ^ (b - a)) by (pose proof (Z.pow_pos_nonneg 2 (b - a)); lia).
  apply IZR_le in H0. pose proof (pow2_pos a). nra.
Qed.

Lemma pow2_lt : forall a b, a < b -> (pow2 a < pow2 b)%R.
Proof.
  intros a b H. replace b with (a + (b - a)) by lia.
  rewrite pow2_add. rewrite (pow2_IZR (b - a)) by lia.
  assert (2 <= 2 ^ (b - a)).
  { change 2 with (2 ^ 1) at 1. apply Z.pow_le_mono_r; lia. }
  apply IZR_le in H0. pose proof (pow2_pos a). nra.
Qed.

Lemma F2R_shift : forall m e k, 0 <= k -> F2R (m * 2 ^ k) e = F2R m (e + k).
Proof.
  intros m e k Hk. unfold F2R. rewrite mult_IZR, pow2_add, (pow2_IZR k Hk). ring.
Qed.

Lemma F2R_le : forall m1 m2 e, m1 <= m2 -> (F2R m1 e <= F2R m2 e)%R.
Proof.
  intros m1 m2 e H. unfold F2R. apply IZR_le in H. pose proof (pow2_pos e). nra.
Qed.

Lemma F2R_lt : forall m1 m2 e, m1 < m2 -> (F2R m1 e < F2R m2 e)%R.
Proof.
  intros m1 m2 e H. unfold F2R. apply IZR_lt in H. pose proof (pow2_pos e). nra.
Qed.

Lemma F2R_le_inv : forall m1 m2 e, (F2R m1 e <= F2R m2 e)%R -> m1 <= m2.
Proof.
  intros m1 m2 e H. destruct (Z_le_gt_dec m1 m2); [assumption|exfalso].
  assert (m2 < m1) by lia. apply (F2R_lt _ _ e) in H0. lra.
Qed.

Lemma F2R_lt_inv : forall m1 m2 e, (F2R m1 e < F2R m2 e)%R -> m1 < m2.
Proof.
  intros m1 m2 e H. destruct (Z_lt_le_dec m1 m2); [assumption|exfalso].
  apply (F2R_le _ _ e) in l. lra.
Qed.

Lemma F2R_eq_inv : forall m1 m2 e, F2R m1 e = F2R m2 e -> m1 = m2.
Proof.
  intros m1 m2 e H. apply Z.le_antisymm; apply (F2R_le_inv _ _ e); lra.
Qed.

Lemma F2R_0 : forall e, F2R 0 e = 0%R.
Proof. intros. unfold F2R. ring. Qed.

Lemma F2R_pos : forall m e, 0 < m -> (0 < F2R m e)%R.
Proof.
  intros m e H. rewrite <- (F2R_0 e). apply F2R_lt. assumption.
Qed.

Lemma F2R_pow2 : forall k e, 0 <= k -> F2R (2 ^ k) e = pow2 (k + e).
Proof.
  intros k e Hk. unfold F2R. rewrite pow2_add, (pow2_IZR k Hk). reflexivity.
Qed.

(** A positive dyadic lies in the binade its digits and exponent name. *)
Lemma F2R_binade : forall m e, 0 < m ->
  (pow2 (Zdigits2 m + e - 1) <= F2R m e < pow2 (Zdigits2 m + e))%R.
Proof.
  intros m e Hm. pose proof (Zdigits2_bounds m Hm) as [Hlo Hhi].
  pose proof (Zdigits2_pos m Hm).
  split.
  - replace (Zdigits2 m + e - 1) with ((Zdigits2 m - 1) + e) by lia.
    rewrite <- F2R_pow2 by lia. apply F2R_le. assumption.
  - rewrite <- F2R_pow2 by lia. apply F2R_lt. assumption.
Qed.

Lemma cexp_mono : forall m1 e1 m2 e2, 0 < m1 -> 0 < m2 ->
  (F2R m1 e1 <= F2R m2 e2)%R -> cexp m1 e1 <= cexp m2 e2.
Proof.
  intros m1 e1 m2 e2 H1 H2 H.
  pose proof (F2R_binade m1 e1 H1) as [L1 _].
  pose proof (F2R_binade m2 e2 H2) as [_ U2].
  assert (Zdigits2 m1 + e1 - 1 < Zdigits2 m2 + e2).
  { destruct (Z_lt_le_dec (Zdigits2 m1 + e1 - 1) (Zdigits2 m2 + e2)); [assumption|exfalso].
    apply pow2_le in l. lra. }
  rewrite !cexp_unfold. lia.
Qed.

Lemma rnd_int_bounds : forall m e, 0 < m -> e <= cexp m e ->
  0 <= rnd_int m e <= 2 ^ 53
  /\ (-1074 < cexp m e -> 2 ^ 52 <= rnd_int m e).
Proof.
  intros m e Hm He.
  destruct (rnd_int_cases m e Hm He) as [E0|[(HM & Hc & Hn)|(EM & Hn & Hc)]].
  - rewrite E0. split; [lia|]. intros Hc.
    (* in the normal range the mantissa is not zero *)
    exfalso.
    pose proof (Zdigits2_bounds m Hm) as [Hlo Hhi].
    pose proof (Zdigits2_pos m Hm) as Hd.
    assert (Ec : cexp m e = Zdigits2 m + e - 53) by (rewrite cexp_unfold in *; lia).
    unfold rnd_int in E0.
    assert (Hp : 0 < 2 ^ (cexp m e - e)) by (apply Z.pow_pos_nonneg; lia).
    destruct (rhe_nearest m (2 ^ (cexp m e - e)) Hp) as (_ & _ & Hq).
    rewrite E0 in Hq.
    assert (2 ^ 52 <= m / 2 ^ (cexp m e - e)).
    { apply Z.div_le_lower_bound; [lia|].
      rewrite <- pow2_split by lia.
      replace (cexp m e - e + 52) with (Zdigits2 m - 1) by lia. exact Hlo. }
    lia.
  - split; [lia | exact Hn].
  - rewrite EM. split; lia.
Qed.

(** Rounding is monotone. *)
Lemma rnd_mono : forall m1 e1 m2 e2,
  0 < m1 -> 0 < m2 -> e1 <= cexp m1 e1 -> e2 <= cexp m2 e2 ->
  (F2R m1 e1 <= F2R m2 e2)%R ->
  (F2R (rnd_int m1 e1) (cexp m1 e1) <= F2R (rnd_int m2 e2) (cexp m2 e2))%R.
Proof.
  intros m1 e1 m2 e2 H1 H2 A1 A2 H.
  pose proof (cexp_mono _ _ _ _ H1 H2 H) as Hc.
  destruct (Z.eq_dec (cexp m1 e1) (cexp m2 e2)) as [E|N].
  - rewrite <- E. apply F2R_le. unfold rnd_int. rewrite <- E.
    set (c := cexp m1 e1) in *.
    apply rhe_mono; try (apply Z.pow_pos_nonneg; lia).
    apply (F2R_le_inv _ _ (e1 + e2 - c)).
    rewrite !F2R_shift by lia.
    replace (e1 + e2 - c + (c - e2)) with e1 by lia.
    replace (e1 + e2 - c + (c - e1)) with e2 by lia.
    exact H.
  - destruct (rnd_int_bounds m1 e1 H1 A1) as [[_ U1] _].
    destruct (rnd_int_bounds m2 e2 H2 A2) as [_ L2].
    assert (Hn : -1074 < cexp m2 e2) by (rewrite !cexp_unfold in *; lia).
    specialize (L2 Hn).
    apply Rle_trans with (F2R (2 ^ 53) (cexp m1 e1)); [apply F2R_le; assumption|].
    apply Rle_trans with (F2R (2 ^ 52) (cexp m2 e2)); [|apply F2R_le; assumption].
    rewrite !F2R_pow2 by lia. apply pow2_le. lia.
Qed.

(** Rounding leaves a representable number alone. *)
Lemma rnd_id : forall m e, 0 < m -> e <= cexp m e ->
  representable (F2R m e) ->
  F2R (rnd_int m e) (cexp m e) = F2R m e.
Proof.
  intros m e Hm He (M & E & HM & HE & Hx).
  set (c := cexp m e) in *.
  assert (Hdiv : exists k, m = k * 2 ^ (c - e)).
  { destruct (Z_le_gt_dec c E) as [HcE|HcE].
    - exists (M * 2 ^ (E - c)).
      rewrite <- Z.mul_assoc, <- pow2_split by lia.
      replace (E - c + (c - e)) with (E - e) by lia.
      apply (F2R_eq_inv _ _ e). rewrite F2R_shift by lia.
      replace (e + (E - e)) with E by lia. exact Hx.
    - exfalso.
      pose proof (F2R_binade m e Hm) as [L _].
      assert (Ec : c = Zdigits2 m + e - 53) by (unfold c in *; rewrite cexp_unfold in *; lia).
      assert (U : (F2R M E < pow2 (53 + E))%R).
      { rewrite <- F2R_pow2 by lia. apply F2R_lt. lia. }
      rewrite <- Hx in U.
      assert (Zdigits2 m + e - 1 < 53 + E).
      { destruct (Z_lt_le_dec (Zdigits2 m + e - 1) (53 + E)); [assumption|exfalso].
        apply pow2_le in l. lra. }
      lia. }
  destruct Hdiv as [k Hk].
  unfold rnd_int. fold c. clearbody c. clear Hx. subst m.
  rewrite rhe_exact by (apply Z.pow_pos_nonneg; lia).
  rewrite F2R_shift by lia.
  f_equal. lia.
Qed.

Lemma Zdigits2_shift : forall n k, 0 < n -> 0 <= k ->
  Zdigits2 (n * 2 ^ k) = Zdigits2 n + k.
Proof.
  intros n k Hn Hk.
  assert (0 < n * 2 ^ k) by (pose proof (Z.pow_pos_nonneg 2 k); nia).
  rewrite !Zdigits2_log2 by assumption.
  rewrite Z.log2_mul_pow2 by assumption. lia.
Qed.

Lemma cexp_shift : forall n e k, 0 < n -> 0 <= k ->
  cexp (n * 2 ^ k) (e - k) = cexp n e.
Proof.
  intros n e k Hn Hk. rewrite !cexp_unfold, Zdigits2_shift by assumption. lia.
Qed.

(** Every positive dyadic has a form whose exponent is at most [cexp]. *)
Lemma aligned_form : forall G E, 0 < G ->
  exists m e, 0 < m /\ e <= cexp m e /\ F2R m e = F2R G E.
Proof.
  intros G E HG. destruct (Z_le_gt_dec E (cexp G E)) as [H|H].
  - exists G, E. auto.
  - exists (G * 2 ^ (E - cexp G E)), (cexp G E).
    assert (0 < 2 ^ (E - cexp G E)) by (apply Z.pow_pos_nonneg; lia).
    split; [nia|]. split.
    + rewrite cexp_unfold in H |- *.
      rewrite (cexp_unfold (G * _)), Zdigits2_shift by lia. lia.
    + rewrite F2R_shift by lia. f_equal. lia.
Qed.

Lemma valid_canonical : forall s m e,
  SpecFloat.valid_binary prec emax (S754_finite s m e) = true ->
  cexp (Zpos m) e = e /\ e <= 971.
Proof.
  intros s m e H. unfold SpecFloat.valid_binary, SpecFloat.bounded, SpecFloat.canonical_mantissa in H.
  apply andb_true_iff in H. destruct H as [H1 H2].
  apply Z.eqb_eq in H1. apply Z.leb_le in H2.
  split; [exact H1 | exact H2].
Qed.

Lemma canonical_digits : forall m e, cexp (Zpos m) e = e ->
  Zdigits2 (Zpos m) <= 53 /\ -1074 <= e
  /\ (-1074 < e -> Zdigits2 (Zpos m) = 53).
Proof.
  intros m e H. rewrite cexp_unfold in H. lia.
Qed.

Lemma valid_representable : forall m e,
  SpecFloat.valid_binary prec emax (S754_finite false m e) = true ->
  representable (F2R (Zpos m) e) /\ (F2R (Zpos m) e < pow2 1024)%R.
Proof.
  intros m e H. apply valid_canonical in H. destruct H as [Hc He].
  destruct (canonical_digits m e Hc) as (Hd & Hm & _).
  pose proof (Zdigits2_bounds (Zpos m) ltac:(lia)) as [_ Hu].
  assert (Zpos m < 2 ^ 53).
  { apply Z.lt_le_trans with (1 := Hu). apply Z.pow_le_mono_r; lia. }
  split.
  - exists (Zpos m), e. split; [lia|]. split; [lia | reflexivity].
  - apply Rlt_le_trans with (F2R (2 ^ 53) e); [apply F2R_lt; assumption|].
    rewrite F2R_pow2 by lia. apply pow2_le. lia.
Qed.

(** The value of a rounding: the rounded mantissa at [cexp], unless it
    overflows. *)
Lemma rounds_value : forall m e, e <= cexp (Zpos m) e ->
  let z := binary_round_aux prec emax false (Zpos m) e loc_Exact in
  let rv := F2R (rnd_int (Zpos m) e) (cexp (Zpos m) e) in
  (nonneg_finite z /\ SpecFloat.valid_binary prec emax z = true /\ SF2R z = rv)
  \/ (z = S754_infinity false /\ (pow2 1024 <= rv)%R).
Proof.
  intros m e He z rv.
  destruct (binary_round_aux_cases m e He)
    as [(E0 & Hz)|[(p & Hz & Hp & Hv)|[(p & Hz & Hp & Hv)|(Hz & HM & Hc & Hc')]]];
    fold z in Hz, Hv || fold z in Hz.
  - left. rewrite Hz. split; [exact I|]. split; [reflexivity|].
    unfold rv. rewrite E0, F2R_0. reflexivity.
  - left. rewrite Hz in *. split; [exact I|]. split; [exact Hv|].
    unfold rv. rewrite <- Hp. reflexivity.
  - left. rewrite Hz in *. split; [exact I|]. split; [exact Hv|].
    unfold rv. rewrite <- Hp. cbn [SF2R cond_Zopp].
    replace (2 * Zpos p) with (Zpos p * 2 ^ 1) by lia.
    rewrite F2R_shift by lia. reflexivity.
  - right. split; [exact Hz|]. unfold rv.
    destruct (Z.eq_dec (cexp (Zpos m) e) 971) as [E|N].
    + rewrite (Hc' E), E, F2R_pow2 by lia. apply pow2_le. lia.
    + apply Rle_trans with (F2R (2 ^ 52) (cexp (Zpos m) e));
        [|apply F2R_le; assumption].
      rewrite F2R_pow2 by lia. apply pow2_le. lia.
Qed.

Lemma rnd_nonneg : forall m e, 0 < m -> e <= cexp m e ->
  (0 <= F2R (rnd_int m e) (cexp m e))%R.
Proof.
  intros m e Hm He. destruct (rnd_int_bounds m e Hm He) as [[L _] _].
  rewrite <- (F2R_0 (cexp m e)). apply F2R_le. assumption.
Qed.

(** Rounding a number that a representable one bounds from above. *)
Lemma rounds_upper : forall x z g,
  rounds x z -> (x <= g)%R -> representable g -> (g < pow2 1024)%R ->
  nonneg_finite z /\ SpecFloat.valid_binary prec emax z = true /\ (SF2R z <= g)%R.
Proof.
  intros x z g (m & e & Hx & He & Hz) Hxg (G & E & HG & HE & Hg) Hlt.
  assert (Hxpos : (0 < x)%R) by (rewrite Hx; apply F2R_pos; lia).
  assert (HG0 : 0 < G).
  { destruct (Z.eq_dec G 0) as [E0|N]; [|lia].
    rewrite Hg, E0, F2R_0 in Hxg. lra. }
  destruct (aligned_form G E HG0) as (mg & eg & Hmg & Heg & Hval).
  assert (Hrv : (F2R (rnd_int (Zpos m) e) (cexp (Zpos m) e) <= g)%R).
  { rewrite Hg. rewrite <- Hval.
    rewrite <- (rnd_id mg eg Hmg Heg).
    - apply rnd_mono; try assumption; try lia. rewrite Hval, <- Hg, <- Hx. exact Hxg.
    - rewrite Hval. exists G, E. auto. }
  destruct (rounds_value m e He) as [(Hn & Hv & Hs)|(Hi & Hbig)].
  - rewrite <- Hz in Hn, Hv, Hs. split; [exact Hn|]. split; [exact Hv|].
    rewrite Hs. exact Hrv.
  - exfalso. lra.
Qed.

(** Rounding a number that a representable one bounds from below. *)
Lemma rounds_lower : forall x z g,
  rounds x z -> (g <= x)%R -> representable g -> nonneg_finite z ->
  (g <= SF2R z)%R.
Proof.
  intros x z g (m & e & Hx & He & Hz) Hgx (G & E & HG & HE & Hg) Hn.
  destruct (rounds_value m e He) as [(_ & _ & Hs)|(Hi & _)].
  - rewrite <- Hz in Hs. rewrite Hs.
    destruct (Z.eq_dec G 0) as [E0|N].
    + rewrite Hg, E0, F2R_0. apply rnd_nonneg; [lia | assumption].
    + destruct (aligned_form G E ltac:(lia)) as (mg & eg & Hmg & Heg & Hval).
      rewrite Hg, <- Hval. rewrite <- (rnd_id mg eg Hmg Heg).
      * apply rnd_mono; try assumption; try lia.
        rewrite Hval, <- Hg, <- Hx. exact Hgx.
      * rewrite Hval. exists G, E. auto.
  - rewrite <- Hz in Hi. rewrite Hi in Hn. destruct Hn.
Qed.

(** Rounding a representable number is exact. *)
Lemma rounds_exact : forall x z,
  rounds x z -> representable x -> (x < pow2 1024)%R ->
  nonneg_finite z /\ SpecFloat.valid_binary prec emax z = true /\ SF2R z = x.
Proof.
  intros x z Hr Hx Hlt.
  destruct (rounds_upper x z x Hr (Rle_refl x) Hx Hlt) as (Hn & Hv & Hu).
  split; [exact Hn|]. split; [exact Hv|].
  apply Rle_antisym; [exact Hu|].
  exact (rounds_lower x z x Hr (Rle_refl x) Hx Hn).
Qed.

(** Two roundings compare as the numbers rounded. *)
Lemma rounds_mono : forall x zx y zy,
  rounds x zx -> rounds y zy -> (x <= y)%R -> nonneg_finite zy ->
  nonneg_finite zx /\ (SF2R zx <= SF2R zy)%R.
Proof.
  intros x zx y zy (m1 & e1 & Hx & He1 & Hz1) (m2 & e2 & Hy & He2 & Hz2) Hxy Hn.
  assert (Hrv := rnd_mono (Zpos m1) e1 (Zpos m2) e2 ltac:(lia) ltac:(lia) He1 He2).
  rewrite <- Hx, <- Hy in Hrv. specialize (Hrv Hxy).
  destruct (rounds_value m2 e2 He2) as [(_ & Hv2 & Hs2)|(Hi & _)].
  - rewrite <- Hz2 in Hs2, Hv2.
    assert (Hlt : (SF2R zy < pow2 1024)%R).
    { destruct zy as [s|s| |[|] mm ee]; cbn [nonneg_finite] in Hn; try contradiction.
      - cbn [SF2R]. apply pow2_pos.
      - cbn [SF2R cond_Zopp]. apply valid_representable. exact Hv2. }
    destruct (rounds_value m1 e1 He1) as [(Hn1 & _ & Hs1)|(Hi & Hbig)].
    + rewrite <- Hz1 in Hn1, Hs1. split; [exact Hn1|]. rewrite Hs1, Hs2. exact Hrv.
    + exfalso. lra.
  - rewrite <- Hz2 in Hi. rewrite Hi in Hn. destruct Hn.
Qed.

Lemma iter_xO : forall d m, Zpos (Pos.iter xO m d) = Zpos m * 2 ^ Zpos d.
Proof.
  intros d m. induction d as [|d IH] using Pos.peano_ind.
  - simpl. lia.
  - rewrite Pos.iter_succ. rewrite Pos2Z.inj_succ, Z.pow_succ_r by lia.
    rewrite Pos2Z.inj_xO, IH. lia.
Qed.

Lemma shl_align_spec : forall mx ex ex',
  Zpos (fst (shl_align mx ex ex')) = Zpos mx * 2 ^ (ex - Z.min ex ex')
  /\ snd (shl_align mx ex ex') = Z.min ex ex'.
Proof.
  intros mx ex ex'. unfold shl_align.
  destruct (ex' - ex) as [|d|d] eqn:E; cbn [fst snd].
  - replace (Z.min ex ex') with ex by lia. rewrite Z.sub_diag. simpl. lia.
  - replace (Z.min ex ex') with ex by lia. rewrite Z.sub_diag. simpl. lia.
  - replace (Z.min ex ex') with ex' by lia.
    rewrite iter_xO. replace (ex - ex') with (Zpos d) by lia. auto.
Qed.

Lemma binary_round_rounds : forall mx ex,
  rounds (F2R (Zpos mx) ex) (binary_round prec emax false mx ex).
Proof.
  intros mx ex. unfold binary_round.
  change (fexp prec emax (Zpos (digits2_pos mx) + ex)) with (cexp (Zpos mx) ex).
  destruct (shl_align_spec mx ex (cexp (Zpos mx) ex)) as [Hm He].
  destruct (shl_align mx ex (cexp (Zpos mx) ex)) as [mz ez].
  cbn [fst snd] in Hm, He.
  exists mz, ez.
  assert (Hk : 0 <= ex - ez) by lia.
  assert (Hz : ez = ex - (ex - ez)) by lia.
  rewrite <- He in Hm.
  split; [|split; [|reflexivity]].
  - rewrite Hm, F2R_shift by lia. f_equal. lia.
  - pose proof (cexp_shift (Zpos mx) ex (ex - ez) ltac:(lia) Hk) as Hc.
    rewrite <- Hz, <- Hm in Hc. rewrite Hc. lia.
Qed.

Lemma F2R_plus : forall m1 m2 e, F2R (m1 + m2) e = (F2R m1 e + F2R m2 e)%R.
Proof. intros. unfold F2R. rewrite plus_IZR. ring. Qed.

Lemma F2R_minus : forall m1 m2 e, F2R (m1 - m2) e = (F2R m1 e - F2R m2 e)%R.
Proof. intros. unfold F2R. rewrite minus_IZR. ring. Qed.

Lemma F2R_mult : forall m1 e1 m2 e2,
  F2R (m1 * m2) (e1 + e2) = (F2R m1 e1 * F2R m2 e2)%R.
Proof. intros. unfold F2R. rewrite mult_IZR, pow2_add. ring. Qed.

Lemma shl_align_value : forall mx ex ex',
  F2R (Zpos (fst (shl_align mx ex ex'))) (Z.min ex ex') = F2R (Zpos mx) ex.
Proof.
  intros. destruct (shl_align_spec mx ex ex') as [Hm _]. rewrite Hm.
  rewrite F2R_shift by lia. f_equal. lia.
Qed.

Lemma SFadd_rounds : forall mx ex my ey,
  rounds (F2R (Zpos mx) ex + F2R (Zpos my) ey)
         (SFadd prec emax (S754_finite false mx ex) (S754_finite false my ey)).
Proof.
  intros. cbn [SFadd cond_Zopp]. cbv zeta.
  pose proof (shl_align_value mx ex (Z.min ex ey)) as Hx.
  pose proof (shl_align_value my ey (Z.min ex ey)) as Hy.
  replace (Z.min ex (Z.min ex ey)) with (Z.min ex ey) in Hx by lia.
  replace (Z.min ey (Z.min ex ey)) with (Z.min ex ey) in Hy by lia.
  rewrite <- Hx, <- Hy, <- F2R_plus.
  rewrite <- Pos2Z.inj_add. cbn [binary_normalize].
  apply binary_round_rounds.
Qed.

Lemma SFsub_rounds : forall mx ex my ey,
  (F2R (Zpos my) ey < F2R (Zpos mx) ex)%R ->
  rounds (F2R (Zpos mx) ex - F2R (Zpos my) ey)
         (SFsub prec emax (S754_finite false mx ex) (S754_finite false my ey)).
Proof.
  intros mx ex my ey H. cbn [SFsub cond_Zopp]. cbv zeta.
  pose proof (shl_align_value mx ex (Z.min ex ey)) as Hx.
  pose proof (shl_align_value my ey (Z.min ex ey)) as Hy.
  replace (Z.min ex (Z.min ex ey)) with (Z.min ex ey) in Hx by lia.
  replace (Z.min ey (Z.min ex ey)) with (Z.min ex ey) in Hy by lia.
  rewrite <- Hx, <- Hy in H |- *. rewrite <- F2R_minus.
  apply F2R_lt_inv in H.
  destruct (Zpos (fst (shl_align mx ex (Z.min ex ey)))
            - Zpos (fst (shl_align my ey (Z.min ex ey)))) as [|p|p] eqn:E; try lia.
  cbn [binary_normalize]. apply binary_round_rounds.
Qed.

Lemma SFmul_rounds : forall mx ex my ey,
  SpecFloat.valid_binary prec emax (S754_finite false mx ex) = true ->
  SpecFloat.valid_binary prec emax (S754_finite false my ey) = true ->
  rounds (F2R (Zpos mx) ex * F2R (Zpos my) ey)
         (SFmul prec emax (S754_finite false mx ex) (S754_finite false my ey)).
Proof.
  intros mx ex my ey Vx Vy. cbn [SFmul xorb].
  exists (mx * my)%positive, (ex + ey).
  split; [rewrite Pos2Z.inj_mul; symmetry; apply F2R_mult|].
  split; [|reflexivity].
  apply valid_canonical in Vx, Vy. destruct Vx as [Cx _], Vy as [Cy _].
  destruct (canonical_digits mx ex Cx) as (Dx & Ex & Nx).
  destruct (canonical_digits my ey Cy) as (Dy & Ey & Ny).
  pose proof (Zdigits2_bounds (Zpos mx) ltac:(lia)) as [Lx _].
  pose proof (Zdigits2_bounds (Zpos my) ltac:(lia)) as [Ly _].
  pose proof (Zdigits2_pos (Zpos mx) ltac:(lia)) as Px.
  pose proof (Zdigits2_pos (Zpos my) ltac:(lia)) as Py.
  assert (Hd : Zdigits2 (Zpos mx) + Zdigits2 (Zpos my) - 1
               <= Zdigits2 (Zpos (mx * my))).
  { apply Zdigits2_ge; [lia|].
    replace (Zdigits2 (Zpos mx) + Zdigits2 (Zpos my) - 1 - 1)
      with ((Zdigits2 (Zpos mx) - 1) + (Zdigits2 (Zpos my) - 1)) by lia.
    rewrite pow2_split by lia. rewrite Pos2Z.inj_mul.
    apply Z.mul_le_mono_nonneg; try assumption;
      apply Z.lt_le_incl, Z.pow_pos_nonneg; lia. }
  rewrite cexp_unfold.
  destruct (Z_le_gt_dec ex (-1074)), (Z_le_gt_dec ey (-1074)); lia.
Qed.

(** Order on valid non-negative floats is the order of their values. *)
Lemma canonical_lt : forall m1 e1 m2 e2,
  cexp (Zpos m1) e1 = e1 -> cexp (Zpos m2) e2 = e2 -> e1 < e2 ->
  (F2R (Zpos m1) e1 < F2R (Zpos m2) e2)%R.
Proof.
  intros m1 e1 m2 e2 C1 C2 H.
  destruct (canonical_digits m1 e1 C1) as (D1 & E1 & _).
  destruct (canonical_digits m2 e2 C2) as (_ & _ & N2).
  pose proof (F2R_binade (Zpos m1) e1 ltac:(lia)) as [_ U1].
  pose proof (F2R_binade (Zpos m2) e2 ltac:(lia)) as [L2 _].
  rewrite (N2 ltac:(lia)) in L2.
  apply Rlt_le_trans with (1 := U1).
  apply Rle_trans with (2 := L2). apply pow2_le. lia.
Qed.

Lemma SFcompare_nonneg : forall z1 z2,
  nonneg_finite z1 -> SpecFloat.valid_binary prec emax z1 = true ->
  nonneg_finite z2 -> SpecFloat.valid_binary prec emax z2 = true ->
  match SFcompare z1 z2 with
  | Some Lt => (SF2R z1 < SF2R z2)%R
  | Some Eq => SF2R z1 = SF2R z2
  | Some Gt => (SF2R z2 < SF2R z1)%R
  | None => False
  end.
Proof.
  intros [s1|s1| |[|] m1 e1] [s2|s2| |[|] m2 e2] N1 V1 N2 V2;
    cbn [nonneg_finite] in N1, N2; try contradiction;
    cbn [SFcompare SF2R cond_Zopp].
  - reflexivity.
  - apply F2R_pos. lia.
  - apply F2R_pos. lia.
  - apply valid_canonical in V1, V2. destruct V1 as [C1 _], V2 as [C2 _].
    destruct (Z.compare_spec e1 e2) as [E|E|E].
    + subst e2. rewrite Pos.compare_cont_spec. cbn [Pos.switch_Eq].
      change (Pos.compare m1 m2) with (Z.compare (Zpos m1) (Zpos m2)).
      destruct (Z.compare_spec (Zpos m1) (Zpos m2)) as [H|H|H].
      * rewrite H. reflexivity.
      * apply F2R_lt. assumption.
      * apply F2R_lt. assumption.
    + apply canonical_lt; assumption.
    + apply canonical_lt; assumption.
Qed.

Lemma SFltb_nonneg : forall z1 z2,
  nonneg_finite z1 -> SpecFloat.valid_binary prec emax z1 = true ->
  nonneg_finite z2 -> SpecFloat.valid_binary prec emax z2 = true ->
  (SFltb z1 z2 = true <-> (SF2R z1 < SF2R z2)%R).
Proof.
  intros z1 z2 N1 V1 N2 V2. pose proof (SFcompare_nonneg z1 z2 N1 V1 N2 V2) as H.
  unfold SFltb. destruct (SFcompare z1 z2) as [[| |]|]; try contradiction;
    split; intros H'; try discriminate; try reflexivity; try assumption; lra.
Qed.

Lemma SFleb_nonneg : forall z1 z2,
  nonneg_finite z1 -> SpecFloat.valid_binary prec emax z1 = true ->
  nonneg_finite z2 -> SpecFloat.valid_binary prec emax z2 = true ->
  (SFleb z1 z2 = true <-> (SF2R z1 <= SF2R z2)%R).
Proof.
  intros z1 z2 N1 V1 N2 V2. pose proof (SFcompare_nonneg z1 z2 N1 V1 N2 V2) as H.
  unfold SFleb. destruct (SFcompare z1 z2) as [[| |]|]; try contradiction;
    split; intros H'; try discriminate; try reflexivity; lra.
Qed.

Lemma representable_0 : representable 0%R.
Proof. exists 0, 0. split; [lia|]. split; [lia|]. rewrite F2R_0. reflexivity. Qed.

Lemma frounds_upper : forall x z g,
  frounds x z -> (x <= g)%R -> representable g -> (g < pow2 1024)%R ->
  nonneg_finite z /\ (SF2R z <= g)%R.
Proof.
  intros x z g [(Hn & Hz)|Hr] Hxg Hg Hlt.
  - split; [exact Hn | lra].
  - destruct (rounds_upper x z g Hr Hxg Hg Hlt) as (Hn & _ & Hu). auto.
Qed.

Lemma frounds_lower : forall x z g,
  frounds x z -> (g <= x)%R -> representable g -> nonneg_finite z ->
  (g <= SF2R z)%R.
Proof.
  intros x z g [(Hn & Hz)|Hr] Hgx Hg Hnz.
  - lra.
  - exact (rounds_lower x z g Hr Hgx Hg Hnz).
Qed.

Lemma frounds_exact : forall x z,
  frounds x z -> representable x -> (x < pow2 1024)%R ->
  nonneg_finite z /\ SF2R z = x.
Proof.
  intros x z [(Hn & Hz)|Hr] Hrep Hlt.
  - split; [exact Hn | lra].
  - destruct (rounds_exact x z Hr Hrep Hlt) as (Hn & _ & He). auto.
Qed.

Lemma nonneg_cases : forall x, nonneg x ->
  (exists s, Prim2SF x = S754_zero s /\ fval x = 0%R)
  \/ (exists m e, Prim2SF x = S754_finite false m e
                  /\ fval x = F2R (Zpos m) e
                  /\ SpecFloat.valid_binary prec emax (S754_finite false m e) = true).
Proof.
  intros x H. unfold nonneg, fval in *. pose proof (Prim2SF_valid x) as V.
  destruct (Prim2SF x) as [s|s| |[|] m e]; cbn [nonneg_finite] in H; try contradiction.
  - left. exists s. auto.
  - right. exists m, e. auto.
Qed.

Lemma fval_nonneg : forall x, nonneg x -> (0 <= fval x)%R.
Proof.
  intros x H. destruct (nonneg_cases x H) as [(s & _ & E)|(m & e & _ & E & _)];
    rewrite E; [lra|]. apply Rlt_le, F2R_pos. lia.
Qed.

Lemma fval_representable : forall x, nonneg x ->
  representable (fval x) /\ (fval x < pow2 1024)%R.
Proof.
  intros x H. destruct (nonneg_cases x H) as [(s & _ & E)|(m & e & _ & E & V)];
    rewrite E.
  - split; [apply representable_0 | apply pow2_pos].
  - apply valid_representable. exact V.
Qed.

Lemma mul_frounds : forall a b, nonneg a -> nonneg b ->
  frounds (fval a * fval b) (Prim2SF (a * b)).
Proof.
  intros a b Ha Hb. rewrite mul_spec. unfold SF64mul.
  destruct (nonneg_cases a Ha) as [(sa & Pa & Ea)|(ma & ea & Pa & Ea & Va)];
    destruct (nonneg_cases b Hb) as [(sb & Pb & Eb)|(mb & eb & Pb & Eb & Vb)];
    rewrite Pa, Pb, Ea, Eb.
  - left. cbn [SFmul nonneg_finite SF2R]. split; [exact I | ring].
  - left. cbn [SFmul nonneg_finite SF2R]. split; [exact I | ring].
  - left. cbn [SFmul nonneg_finite SF2R]. split; [exact I | ring].
  - right. apply SFmul_rounds; assumption.
Qed.

Lemma add_frounds : forall a b, nonneg a -> nonneg b ->
  frounds (fval a + fval b) (Prim2SF (a + b)).
Proof.
  intros a b Ha Hb. rewrite add_spec. unfold SF64add.
  destruct (nonneg_cases a Ha) as [(sa & Pa & Ea)|(ma & ea & Pa & Ea & Va)];
    destruct (nonneg_cases b Hb) as [(sb & Pb & Eb)|(mb & eb & Pb & Eb & Vb)];
    rewrite Pa, Pb, Ea, Eb.
  - left. destruct sa, sb; cbn [SFadd nonneg_finite SF2R]; split; auto; ring.
  - left. cbn [SFadd nonneg_finite SF2R cond_Zopp]. split; [exact I | ring].
  - left. cbn [SFadd nonneg_finite SF2R cond_Zopp]. split; [exact I | ring].
  - right. apply SFadd_rounds.
Qed.

Lemma sub_frounds : forall a b, nonneg a -> nonneg b ->
  (fval b <= fval a)%R ->
  frounds (fval a - fval b) (Prim2SF (a - b)).
Proof.
  intros a b Ha Hb Hle. rewrite sub_spec. unfold SF64sub.
  destruct (nonneg_cases a Ha) as [(sa & Pa & Ea)|(ma & ea & Pa & Ea & Va)];
    destruct (nonneg_cases b Hb) as [(sb & Pb & Eb)|(mb & eb & Pb & Eb & Vb)];
    rewrite Pa, Pb, Ea, Eb; rewrite Ea, Eb in Hle.
  - left. destruct sa, sb; cbn [SFsub nonneg_finite SF2R]; split; auto; ring.
  - exfalso. pose proof (F2R_pos (Zpos mb) eb ltac:(lia)). lra.
  - left. cbn [SFsub nonneg_finite SF2R cond_Zopp]. split; [exact I | ring].
  - destruct Hle as [Hlt|Heq].
    + right. apply SFsub_rounds. exact Hlt.
    + left. cbn [SFsub cond_Zopp]. cbv zeta.
      pose proof (shl_align_value ma ea (Z.min ea eb)) as Hx.
      pose proof (shl_align_value mb eb (Z.min ea eb)) as Hy.
      replace (Z.min ea (Z.min ea eb)) with (Z.min ea eb) in Hx by lia.
      replace (Z.min eb (Z.min ea eb)) with (Z.min ea eb) in Hy by lia.
      rewrite <- Hx, <- Hy in Heq. apply F2R_eq_inv in Heq.
      rewrite Heq, Z.sub_diag. cbn [binary_normalize nonneg_finite SF2R].
      split; [exact I|]. rewrite <- Hx, <- Hy. rewrite Heq. ring.
Qed.

(** Comparisons of such floats are comparisons of their values. *)
Lemma leb_nonneg : forall a b, nonneg a -> nonneg b ->
  (PrimFloat.leb a b = true <-> (fval a <= fval b)%R).
Proof.
  intros a b Ha Hb. rewrite leb_spec.
  apply SFleb_nonneg; try assumption; apply Prim2SF_valid.
Qed.

Lemma ltb_nonneg : forall a b, nonneg a -> nonneg b ->
  (PrimFloat.ltb a b = true <-> (fval a < fval b)%R).
Proof.
  intros a b Ha Hb. rewrite ltb_spec.
  apply SFltb_nonneg; try assumption; apply Prim2SF_valid.
Qed.

(** A float between two such floats is one of them too. *)
Lemma between_nonneg : forall lo x hi, nonneg lo -> nonneg hi ->
  PrimFloat.leb lo x = true -> PrimFloat.leb x hi = true -> nonneg x.
Proof.
  intros lo x hi Hlo Hhi H1 H2. rewrite leb_spec in H1, H2.
  unfold nonneg in *. unfold SFleb in H1, H2.
  destruct (Prim2SF x) as [s|[|]| |[|] m e]; cbn [nonneg_finite]; try exact I.
  - destruct (Prim2SF lo) as [s1|[|]| |[|] m1 e1]; cbn in Hlo, H1;
      try contradiction; discriminate.
  - destruct (Prim2SF hi) as [s1|[|]| |[|] m1 e1]; cbn in Hhi, H2;
      try contradiction; discriminate.
  - destruct (Prim2SF lo) as [s1|[|]| |[|] m1 e1]; cbn in Hlo, H1;
      try contradiction; discriminate.
  - destruct (Prim2SF lo) as [s1|[|]| |[|] m1 e1]; cbn in Hlo, H1;
      try contradiction; discriminate.
Qed.

Lemma below_nonneg : forall lo x hi, nonneg lo -> nonneg hi ->
  PrimFloat.leb lo x = true -> PrimFloat.ltb x hi = true -> nonneg x.
Proof.
  intros lo x hi Hlo Hhi H1 H2. rewrite leb_spec in H1. rewrite ltb_spec in H2.
  unfold nonneg in *. unfold SFleb in H1. unfold SFltb in H2.
  destruct (Prim2SF x) as [s|[|]| |[|] m e]; cbn [nonneg_finite]; try exact I.
  - destruct (Prim2SF lo) as [s1|[|]| |[|] m1 e1]; cbn in Hlo, H1;
      try contradiction; discriminate.
  - destruct (Prim2SF hi) as [s1|[|]| |[|] m1 e1]; cbn in Hhi, H2;
      try contradiction; discriminate.
  - destruct (Prim2SF lo) as [s1|[|]| |[|] m1 e1]; cbn in Hlo, H1;
      try contradiction; discriminate.
  - destruct (Prim2SF lo) as [s1|[|]| |[|] m1 e1]; cbn in Hlo, H1;
      try contradiction; discriminate.
Qed.

Lemma pow2_0 : pow2 0 = 1%R.
Proof. reflexivity. Qed.

Lemma pow2_1 : pow2 1 = 2%R.
Proof. unfold pow2. simpl. lra. Qed.

Lemma pow2_succ : forall e, pow2 (e + 1) = (2 * pow2 e)%R.
Proof. intros e. rewrite pow2_add, pow2_1. ring. Qed.

Lemma pow2_neg : forall k, 0 <= k -> (pow2 (- k) * IZR (2 ^ k) = 1)%R.
Proof.
  intros k Hk. rewrite <- pow2_IZR by assumption. rewrite <- pow2_add.
  replace (- k + k) with 0 by lia. apply pow2_0.
Qed.

Lemma representable_F2R : forall M E, 0 <= M < 2 ^ 53 -> -1074 <= E ->
  representable (F2R M E).
Proof. intros M E HM HE. exists M, E. auto. Qed.

Lemma representable_pow2 : forall k, -1074 <= k -> representable (pow2 k).
Proof.
  intros k Hk. exists 1, k. split; [lia|]. split; [lia|].
  unfold F2R. rewrite Rmult_1_l. reflexivity.
Qed.

(** A constant of the program, from its binary expansion. *)
Lemma const_value : forall c m e,
  Prim2SF c = S754_finite false m e -> nonneg c /\ fval c = F2R (Zpos m) e.
Proof.
  intros c m e H. unfold nonneg, fval. rewrite H. split; [exact I | reflexivity].
Qed.

Lemma F2R_ge_pow2 : forall M E k, E <= k -> 2 ^ (k - E) <= M ->
  (pow2 k <= F2R M E)%R.
Proof.
  intros M E k HE H. replace k with ((k - E) + E) at 1 by lia.
  rewrite <- F2R_pow2 by lia. apply F2R_le. assumption.
Qed.

Lemma F2R_le_pow2 : forall M E k, E <= k -> M <= 2 ^ (k - E) ->
  (F2R M E <= pow2 k)%R.
Proof.
  intros M E k HE H. replace k with ((k - E) + E) at 1 by lia.
  rewrite <- F2R_pow2 by lia. apply F2R_le. assumption.
Qed.

Lemma one_value : nonneg 1%float /\ fval 1%float = 1%R.
Proof.
  destruct (const_value 1%float (2 ^ 52)%positive (-52) eq_refl) as [H1 H2].
  split; [exact H1|]. rewrite H2.
  change (Zpos (2 ^ 52)) with (2 ^ 52). rewrite F2R_pow2 by lia. apply pow2_0.
Qed.

Lemma zero_value : nonneg 0%float /\ fval 0%float = 0%R.
Proof. split; [exact I | reflexivity]. Qed.

Lemma unit_draw_value : forall r, unit_draw r ->
  nonneg r /\ (0 <= fval r < 1)%R.
Proof.
  intros r [H0 H1]. destruct one_value as [N1 V1]. destruct zero_value as [N0 V0].
  assert (Nr : nonneg r) by exact (below_nonneg _ _ _ N0 N1 H0 H1).
  split; [exact Nr|]. split.
  - apply fval_nonneg. exact Nr.
  - rewrite <- V1. apply (ltb_nonneg _ _ Nr N1). exact H1.
Qed.

Lemma pow2_m9 : pow2 (-9) = (/ 512)%R.
Proof. unfold pow2. simpl. lra. Qed.

Lemma pow2_m14 : pow2 (-14) = (/ 16384)%R.
Proof. unfold pow2. simpl. lra. Qed.

Lemma pow2_m13 : pow2 (-13) = (/ 8192)%R.
Proof. unfold pow2. simpl. lra. Qed.

Lemma pow2_m11 : pow2 (-11) = (/ 2048)%R.
Proof. unfold pow2. simpl. lra. Qed.

(** The relative move of a bar: [uniform(0.0001, 0.0015)] stays within
    [2^-14, 2^-9]. *)
Lemma uniform_move : forall r, unit_draw r ->
  nonneg (PyFloat.uniform 0.0001%float 0.0015%float r)
  /\ (/ 16384 <= fval (PyFloat.uniform 0.0001%float 0.0015%float r) <= / 512)%R.
Proof.
  intros r Hr. destruct (unit_draw_value r Hr) as [Nr [R0 R1]].
  unfold PyFloat.uniform.
  set (d := PrimFloat.sub 0.0015%float 0.0001%float).
  destruct (const_value d 6456360425798343%positive (-62) eq_refl) as [Nd Vd].
  destruct (const_value 0.0001%float 7378697629483821%positive (-66) eq_refl) as [Nc Vc].
  assert (Bd : (fval d <= 3 * / 2048)%R).
  { rewrite Vd. rewrite <- pow2_m11.
    change 3%R with (IZR 3). fold (F2R 3 (-11)).
    replace (F2R 3 (-11)) with (F2R (3 * 2 ^ 51) (-62))
      by (rewrite F2R_shift by lia; reflexivity).
    apply F2R_le. vm_compute. discriminate. }
  assert (Bc : (/ 16384 <= fval 0.0001%float <= / 8192)%R).
  { rewrite Vc, <- pow2_m14, <- pow2_m13. split.
    - apply F2R_ge_pow2; [lia | vm_compute; discriminate].
    - apply F2R_le_pow2; [lia | vm_compute; discriminate]. }
  pose proof (fval_nonneg d Nd) as Pd.
  (* a1 = d * r *)
  pose proof (mul_frounds d r Nd Nr) as F1.
  destruct (fval_representable d Nd) as [Rd Ld].
  destruct (frounds_upper _ _ (fval d) F1 ltac:(nra) Rd Ld) as [N1 U1].
  change (nonneg_finite (Prim2SF (d * r))) with (nonneg (d * r)) in N1.
  change (SF2R (Prim2SF (d * r))) with (fval (d * r)) in U1.
  pose proof (fval_nonneg _ N1) as P1.
  (* u = 0.0001 + a1 *)
  pose proof (add_frounds 0.0001%float (d * r) Nc N1) as F2.
  destruct (frounds_upper _ _ (pow2 (-9)) F2) as [N2 U2].
  { rewrite pow2_m9. lra. }
  { apply representable_pow2. lia. }
  { apply pow2_lt. lia. }
  split; [exact N2|]. split.
  - rewrite <- pow2_m14. apply (frounds_lower _ _ _ F2).
    + rewrite pow2_m14. lra.
    + apply representable_pow2. lia.
    + exact N2.
  - rewrite <- pow2_m9. exact U2.
Qed.

Lemma price_normal : forall p, price_in_range p ->
  exists m e,
    Prim2SF p = S754_finite false m e
    /\ fval p = F2R (Zpos m) e
    /\ 2 ^ 52 <= Zpos m < 2 ^ 53
    /\ -1074 < e
    /\ (fval p <= pow2 997)%R.
Proof.
  intros p [Hlo Hhi].
  destruct (const_value 1e-300%float 6032057205060441%positive (-1049) eq_refl)
    as [Nl Vl].
  destruct (const_value 1e300%float 6724873095247260%positive 944 eq_refl)
    as [Nh Vh].
  assert (Np : nonneg p) by exact (between_nonneg _ _ _ Nl Nh Hlo Hhi).
  apply (leb_nonneg _ _ Nl Np) in Hlo. apply (leb_nonneg _ _ Np Nh) in Hhi.
  assert (Bl : (pow2 (-997) <= fval 1e-300%float)%R).
  { rewrite Vl. apply F2R_ge_pow2; [lia | vm_compute; discriminate]. }
  assert (Bh : (fval 1e300%float <= pow2 997)%R).
  { rewrite Vh. apply F2R_le_pow2; [lia | vm_compute; discriminate]. }
  destruct (nonneg_cases p Np) as [(s & P & E)|(m & e & P & E & V)].
  - exfalso. pose proof (pow2_pos (-997)). lra.
  - exists m, e. split; [exact P|]. split; [exact E|].
    apply valid_canonical in V. destruct V as [C _].
    destruct (canonical_digits m e C) as (D & He & Nn).
    pose proof (Zdigits2_bounds (Zpos m) ltac:(lia)) as [L U].
    assert (He' : -1074 < e).
    { destruct (Z_lt_le_dec (-1074) e); [assumption|exfalso].
      assert (e = -1074) by lia. subst e.
      assert (Zpos m < 2 ^ 53)
        by (apply Z.lt_le_trans with (1 := U); apply Z.pow_le_mono_r; lia).
      assert ((F2R (Zpos m) (-1074) < pow2 (-1021))%R).
      { replace (-1021) with (53 + -1074) by lia. rewrite <- F2R_pow2 by lia.
        apply F2R_lt. assumption. }
      assert ((pow2 (-1021) <= pow2 (-997))%R) by (apply pow2_le; lia).
      lra. }
    rewrite (Nn He') in L, U. change (53 - 1) with 52 in L.
    split; [lia|]. split; [exact He'|]. lra.
Qed.

Lemma IZR_bounds : forall m, 2 ^ 52 <= m < 2 ^ 53 ->
  (4503599627370496 <= IZR m < 9007199254740992)%R.
Proof.
  intros m [L U]. split; [apply IZR_le in L | apply IZR_lt in U]; assumption.
Qed.

(** Multiplying a normal price by a factor slightly above one. *)
Lemma scale_up : forall p f, price_in_range p -> nonneg f ->
  (1 + / 16384 <= fval f <= 1 + / 512)%R ->
  nonneg (p * f)
  /\ (fval p < fval (p * f) <= fval p * (1 + / 128))%R.
Proof.
  intros p f Hp Nf [Fl Fu].
  destruct (price_normal p Hp) as (m & e & P & E & Hm & He & Hb).
  assert (Np : nonneg p) by (unfold nonneg; rewrite P; exact I).
  pose proof (mul_frounds p f Np Nf) as Fr.
  pose proof (IZR_bounds _ Hm) as [Ml Mu].
  pose proof (pow2_pos e) as Pe.
  assert (Vp : fval p = (IZR (Zpos m) * pow2 e)%R) by (rewrite E; reflexivity).
  set (Mb := (Zpos m + 2 ^ 44) / 2 + 1).
  set (Ml' := Zpos m / 2 + 1).
  assert (HMb : Zpos m + 2 ^ 44 + 1 <= 2 * Mb <= Zpos m + 2 ^ 44 + 2 /\ 0 <= Mb < 2 ^ 53).
  { unfold Mb. change (2 ^ 44) with 17592186044416.
    change (2 ^ 53) with 9007199254740992.
    change (2 ^ 52) with 4503599627370496 in Hm.
    change (2 ^ 53) with 9007199254740992 in Hm.
    pose proof (Z.div_mod (Zpos m + 17592186044416) 2 ltac:(lia)).
    pose proof (Z.mod_pos_bound (Zpos m + 17592186044416) 2 ltac:(lia)). lia. }
  assert (HMl : Zpos m + 1 <= 2 * Ml' <= Zpos m + 2 /\ 0 <= Ml' < 2 ^ 53).
  { unfold Ml'. change (2 ^ 53) with 9007199254740992.
    change (2 ^ 52) with 4503599627370496 in Hm.
    change (2 ^ 53) with 9007199254740992 in Hm.
    pose proof (Z.div_mod (Zpos m) 2 ltac:(lia)).
    pose proof (Z.mod_pos_bound (Zpos m) 2 ltac:(lia)). lia. }
  destruct HMb as [[Bb1 Bb2] Bb3]. destruct HMl as [[Bl1 Bl2] Bl3].
  apply IZR_le in Bb1, Bb2, Bl1, Bl2.
  repeat rewrite plus_IZR in Bb1. repeat rewrite plus_IZR in Bb2.
  repeat rewrite plus_IZR in Bl1. repeat rewrite plus_IZR in Bl2.
  rewrite mult_IZR in Bb1, Bb2, Bl1, Bl2.
  change (IZR (2 ^ 44)) with 17592186044416%R in Bb1, Bb2.
  set (v := (IZR (Zpos m) * pow2 e)%R) in *.
  assert (Pv : (0 < v)%R) by (unfold v; nra).
  assert (VB : F2R Mb (e + 1) = (IZR Mb * 2 * pow2 e)%R).
  { unfold F2R. rewrite pow2_succ. ring. }
  assert (VL : F2R Ml' (e + 1) = (IZR Ml' * 2 * pow2 e)%R).
  { unfold F2R. rewrite pow2_succ. ring. }
  assert (Hx1 : (fval p * fval f <= F2R Mb (e + 1))%R).
  { rewrite VB, Vp.
    apply Rle_trans with (v * (1 + / 512))%R; [nra|].
    assert (IZR (Zpos m) * (1 + / 512) <= 2 * IZR Mb)%R by lra.
    unfold v. nra. }
  assert (Hx2 : (F2R Ml' (e + 1) <= fval p * fval f)%R).
  { rewrite VL, Vp.
    apply Rle_trans with (v * (1 + / 16384))%R; [|nra].
    assert (2 * IZR Ml' <= IZR (Zpos m) * (1 + / 16384))%R by lra.
    unfold v. nra. }
  assert (Hlt : (F2R Mb (e + 1) < pow2 1024)%R).
  { apply Rle_lt_trans with (pow2 998); [|apply pow2_lt; lia].
    rewrite VB. rewrite Vp in Hb.
    replace 998 with (997 + 1) by lia. rewrite pow2_succ.
    assert (2 * IZR Mb <= IZR (Zpos m) * 2)%R by lra.
    unfold v in Hb. pose proof (pow2_pos 997). nra. }
  destruct (frounds_upper _ _ _ Fr Hx1 (representable_F2R Mb (e + 1) Bb3 ltac:(lia)) Hlt)
    as [Nh Uh].
  pose proof (frounds_lower _ _ _ Fr Hx2 (representable_F2R Ml' (e + 1) Bl3 ltac:(lia)) Nh)
    as Lh.
  change (SF2R (Prim2SF (p * f))) with (fval (p * f)) in Uh, Lh.
  split; [exact Nh|]. rewrite VB in Uh. rewrite VL in Lh. rewrite Vp.
  assert (IZR (Zpos m) < 2 * IZR Ml')%R by lra.
  assert (2 * IZR Mb <= IZR (Zpos m) * (1 + / 128))%R by lra.
  unfold v in *. split; nra.
Qed.

(** Multiplying a normal price by a factor slightly below one. *)
Lemma scale_down : forall p g, price_in_range p -> nonneg g ->
  (1 - / 512 <= fval g <= 1 - / 16384)%R ->
  nonneg (p * g)
  /\ (fval p * (1 - / 128) <= fval (p * g) < fval p)%R.
Proof.
  intros p g Hp Ng [Gl Gu].
  destruct (price_normal p Hp) as (m & e & P & E & Hm & He & Hb).
  assert (Np : nonneg p) by (unfold nonneg; rewrite P; exact I).
  pose proof (mul_frounds p g Np Ng) as Fr.
  pose proof (IZR_bounds _ Hm) as [Ml Mu].
  pose proof (pow2_pos e) as Pe.
  assert (Vp : fval p = (IZR (Zpos m) * pow2 e)%R) by (rewrite E; reflexivity).
  assert (HA : 0 <= Zpos m - 2 ^ 44 < 2 ^ 53).
  { change (2 ^ 44) with 17592186044416. change (2 ^ 53) with 9007199254740992.
    change (2 ^ 52) with 4503599627370496 in Hm.
    change (2 ^ 53) with 9007199254740992 in Hm. lia. }
  assert (HU : 0 <= Zpos m - 1 < 2 ^ 53) by lia.
  assert (VA : F2R (Zpos m - 2 ^ 44) e = ((IZR (Zpos m) - 17592186044416) * pow2 e)%R).
  { unfold F2R. rewrite minus_IZR. reflexivity. }
  assert (VU : F2R (Zpos m - 1) e = ((IZR (Zpos m) - 1) * pow2 e)%R).
  { unfold F2R. rewrite minus_IZR. reflexivity. }
  set (v := (IZR (Zpos m) * pow2 e)%R) in *.
  assert (Pv : (0 < v)%R) by (unfold v; nra).
  assert (Hx1 : (fval p * fval g <= F2R (Zpos m - 1) e)%R).
  { rewrite VU, Vp.
    apply Rle_trans with (v * (1 - / 16384))%R; [nra|].
    assert (IZR (Zpos m) * (1 - / 16384) <= IZR (Zpos m) - 1)%R by lra.
    unfold v. nra. }
  assert (Hx2 : (F2R (Zpos m - 2 ^ 44) e <= fval p * fval g)%R).
  { rewrite VA, Vp.
    apply Rle_trans with (v * (1 - / 512))%R; [|nra].
    assert (IZR (Zpos m) - 17592186044416 <= IZR (Zpos m) * (1 - / 512))%R by lra.
    unfold v. nra. }
  assert (Hlt : (F2R (Zpos m - 1) e < pow2 1024)%R).
  { apply Rle_lt_trans with (pow2 997); [|apply pow2_lt; lia].
    rewrite VU. rewrite Vp in Hb. unfold v in Hb. nra. }
  destruct (frounds_upper _ _ _ Fr Hx1 (representable_F2R (Zpos m - 1) e HU ltac:(lia)) Hlt)
    as [Nl Ul].
  pose proof (frounds_lower _ _ _ Fr Hx2 (representable_F2R (Zpos m - 2 ^ 44) e HA ltac:(lia)) Nl)
    as Ll.
  change (SF2R (Prim2SF (p * g))) with (fval (p * g)) in Ul, Ll.
  split; [exact Nl|]. rewrite VU in Ul. rewrite VA in Ll. rewrite Vp.
  assert (IZR (Zpos m) * (1 - / 128) <= IZR (Zpos m) - 17592186044416)%R by lra.
  unfold v in *. split; nra.
Qed.

Lemma factor_up : forall r, unit_draw r ->
  nonneg (1 + PyFloat.uniform 0.0001%float 0.0015%float r)
  /\ (1 + / 16384 <= fval (1 + PyFloat.uniform 0.0001%float 0.0015%float r)
      <= 1 + / 512)%R.
Proof.
  intros r Hr. destruct (uniform_move r Hr) as [Nu [Ul Uu]].
  destruct one_value as [N1 V1].
  set (u := PyFloat.uniform 0.0001%float 0.0015%float r) in *.
  pose proof (add_frounds 1%float u N1 Nu) as Fr. rewrite V1 in Fr.
  assert (VU : F2R 513 (-9) = (1 + / 512)%R).
  { unfold F2R. rewrite pow2_m9. lra. }
  assert (VL : F2R 16385 (-14) = (1 + / 16384)%R).
  { unfold F2R. rewrite pow2_m14. lra. }
  destruct (frounds_upper _ _ (F2R 513 (-9)) Fr) as [N U].
  { rewrite VU. lra. }
  { apply representable_F2R; lia. }
  { rewrite VU. pose proof (pow2_le 1 1024 ltac:(lia)) as H. rewrite pow2_1 in H. lra. }
  split; [exact N|]. split.
  - rewrite <- VL. apply (frounds_lower _ _ _ Fr).
    + rewrite VL. lra.
    + apply representable_F2R; lia.
    + exact N.
  - rewrite <- VU. exact U.
Qed.

Lemma factor_down : forall r, unit_draw r ->
  nonneg (1 - PyFloat.uniform 0.0001%float 0.0015%float r)
  /\ (1 - / 512 <= fval (1 - PyFloat.uniform 0.0001%float 0.0015%float r)
      <= 1 - / 16384)%R.
Proof.
  intros r Hr. destruct (uniform_move r Hr) as [Nu [Ul Uu]].
  destruct one_value as [N1 V1].
  set (u := PyFloat.uniform 0.0001%float 0.0015%float r) in *.
  assert (Hle : (fval u <= fval 1%float)%R) by (rewrite V1; lra).
  pose proof (sub_frounds 1%float u N1 Nu Hle) as Fr. rewrite V1 in Fr.
  assert (VL : F2R 511 (-9) = (1 - / 512)%R).
  { unfold F2R. rewrite pow2_m9. lra. }
  assert (VU : F2R 16383 (-14) = (1 - / 16384)%R).
  { unfold F2R. rewrite pow2_m14. lra. }
  destruct (frounds_upper _ _ (F2R 16383 (-14)) Fr) as [N U].
  { rewrite VU. lra. }
  { apply representable_F2R; lia. }
  { rewrite VU. pose proof (pow2_le 1 1024 ltac:(lia)) as H. rewrite pow2_1 in H. lra. }
  split; [exact N|]. split.
  - rewrite <- VL. apply (frounds_lower _ _ _ Fr).
    + rewrite VL. lra.
    + apply representable_F2R; lia.
    + exact N.
  - rewrite <- VU. exact U.
Qed.

(** The difference of two floats within a factor two of each other is a
    float (Sterbenz). *)
Lemma sterbenz : forall a b, nonneg a -> nonneg b ->
  (0 < fval b)%R -> (fval b <= fval a <= 2 * fval b)%R ->
  representable (fval a - fval b).
Proof.
  intros a b Na Nb Pb [Hl Hu].
  destruct (nonneg_cases a Na) as [(sa & _ & Ea)|(ma & ea & _ & Ea & Va)];
    [exfalso; lra|].
  destruct (nonneg_cases b Nb) as [(sb & _ & Eb)|(mb & eb & _ & Eb & Vb)];
    [exfalso; lra|].
  rewrite Ea, Eb in *.
  apply valid_canonical in Va, Vb. destruct Va as [Ca _], Vb as [Cb _].
  assert (Hee : eb <= ea).
  { destruct (Z_le_gt_dec eb ea); [assumption|exfalso].
    pose proof (canonical_lt ma ea mb eb Ca Cb ltac:(lia)). lra. }
  destruct (canonical_digits mb eb Cb) as (Db & Hb & _).
  pose proof (Zdigits2_bounds (Zpos mb) ltac:(lia)) as [_ Ub].
  assert (Hmb : Zpos mb < 2 ^ 53)
    by (apply Z.lt_le_trans with (1 := Ub); apply Z.pow_le_mono_r; lia).
  assert (Eq : F2R (Zpos ma) ea = F2R (Zpos ma * 2 ^ (ea - eb)) eb).
  { rewrite F2R_shift by lia. f_equal. lia. }
  rewrite Eq in *. rewrite <- F2R_minus.
  apply representable_F2R; [|lia].
  apply F2R_le_inv in Hl.
  assert (H2 : (F2R (Zpos ma * 2 ^ (ea - eb)) eb <= F2R (2 * Zpos mb) eb)%R).
  { replace (F2R (2 * Zpos mb) eb) with (2 * F2R (Zpos mb) eb)%R; [exact Hu|].
    unfold F2R. rewrite mult_IZR. ring. }
  apply F2R_le_inv in H2. lia.
Qed.

(** One bar, from a price in range and three draws of the unit interval. *)
Lemma bar_values : forall p r1 r2 r3,
  price_in_range p -> unit_draw r1 -> unit_draw r2 -> unit_draw r3 ->
  let h := draw_high p r1 in
  let l := draw_low p r2 in
  let c := PyFloat.uniform l h r3 in
  nonneg p /\ nonneg h /\ nonneg l /\ nonneg c
  /\ (fval l < fval p < fval h)%R
  /\ (fval l <= fval c <= fval h)%R
  /\ (fval p * (1 - / 128) <= fval l)%R
  /\ (fval h <= fval p * (1 + / 128))%R
  /\ (fval p <= pow2 997)%R.
Proof.
  intros p r1 r2 r3 Hp H1 H2 H3 h l c.
  destruct (factor_up r1 H1) as [Nf Bf].
  destruct (factor_down r2 H2) as [Ng Bg].
  destruct (scale_up p _ Hp Nf Bf) as [Nh [Hh1 Hh2]].
  destruct (scale_down p _ Hp Ng Bg) as [Nl [Hl1 Hl2]].
  fold (draw_high p r1) in Nh, Hh1, Hh2. fold h in Nh, Hh1, Hh2.
  fold (draw_low p r2) in Nl, Hl1, Hl2. fold l in Nl, Hl1, Hl2.
  destruct (price_normal p Hp) as (m & e & P & E & Hm & He & Hb).
  assert (Np : nonneg p) by (unfold nonneg; rewrite P; exact I).
  assert (Pp : (0 < fval p)%R) by (rewrite E; apply F2R_pos; lia).
  destruct (unit_draw_value r3 H3) as [Nr [R0 R1]].
  (* the width of the bar is exact *)
  assert (Pl : (0 < fval l)%R) by nra.
  assert (Hw : representable (fval h - fval l)).
  { apply sterbenz; try assumption. split; nra. }
  pose proof (sub_frounds h l Nh Nl ltac:(lra)) as Fw.
  destruct (fval_representable h Nh) as [Rh Lh].
  destruct (fval_representable l Nl) as [Rl Ll].
  destruct (frounds_exact _ _ Fw Hw ltac:(lra)) as [Nw Vw].
  change (nonneg_finite (Prim2SF (h - l))) with (nonneg (h - l)) in Nw.
  change (SF2R (Prim2SF (h - l))) with (fval (h - l)) in Vw.
  (* the offset stays within the width *)
  pose proof (mul_frounds (h - l) r3 Nw Nr) as Fo.
  destruct (fval_representable (h - l) Nw) as [Rw Lw].
  destruct (frounds_upper _ _ (fval (h - l)) Fo ltac:(nra) Rw Lw) as [No Uo].
  change (nonneg_finite (Prim2SF ((h - l) * r3))) with (nonneg ((h - l) * r3)) in No.
  change (SF2R (Prim2SF ((h - l) * r3))) with (fval ((h - l) * r3)) in Uo.
  pose proof (fval_nonneg _ No) as Po.
  (* the close *)
  pose proof (add_frounds l ((h - l) * r3) Nl No) as Fc.
  destruct (frounds_upper _ _ (fval h) Fc ltac:(lra) Rh Lh) as [Nc Uc].
  pose proof (frounds_lower _ _ (fval l) Fc ltac:(lra) Rl Nc) as Lc.
  split; [exact Np|]. split; [exact Nh|]. split; [exact Nl|].
  split; [exact Nc|]. split; [lra|]. split; [exact (conj Lc Uc)|].
  split; [lra|]. split; [lra | exact Hb].
Qed.

Lemma ratio_mantissa_mono : forall n1 n2, n1 <= n2 ->
  ratio_mantissa n1 <= ratio_mantissa n2.
Proof.
  intros n1 n2 H. unfold ratio_mantissa.
  destruct (Z.eq_dec n1 n2) as [->|N]; [lia|].
  assert (H70 : 2 ^ 70 = 1180591620717411303424) by reflexivity.
  assert ((n1 * 2 ^ 70) / 100 < (n2 * 2 ^ 70) / 100).
  { rewrite H70. 
    pose proof (Z.div_mod (n1 * 1180591620717411303424) 100 ltac:(lia)).
    pose proof (Z.mod_pos_bound (n1 * 1180591620717411303424) 100 ltac:(lia)).
    pose proof (Z.div_mod (n2 * 1180591620717411303424) 100 ltac:(lia)).
    pose proof (Z.mod_pos_bound (n2 * 1180591620717411303424) 100 ltac:(lia)).
    lia. }
  destruct ((n1 * 2 ^ 70) mod 100 =? 0), ((n2 * 2 ^ 70) mod 100 =? 0); lia.
Qed.

Lemma ratio_mantissa_pos : forall n, 0 < n -> 0 < ratio_mantissa n.
Proof.
  intros n H. unfold ratio_mantissa.
  assert (H70 : 2 ^ 70 = 1180591620717411303424) by reflexivity.
  rewrite H70.
  pose proof (Z.div_mod (n * 1180591620717411303424) 100 ltac:(lia)).
  pose proof (Z.mod_pos_bound (n * 1180591620717411303424) 100 ltac:(lia)).
  destruct ((n * 1180591620717411303424) mod 100 =? 0); lia.
Qed.

Lemma ratio_mantissa_bound : forall n, 0 <= n -> n <= 100 * 2 ^ 1000 + 1 ->
  ratio_mantissa n <= 2 ^ 1072.
Proof.
  intros n H0 H. unfold ratio_mantissa.
  assert ((n * 2 ^ 70) / 100 <= ((100 * 2 ^ 1000 + 1) * 2 ^ 70) / 100).
  { apply Z.div_le_mono; [lia|]. apply Z.mul_le_mono_nonneg_r; [|assumption].
    apply Z.lt_le_incl, Z.pow_pos_nonneg; lia. }
  assert (2 * (((100 * 2 ^ 1000 + 1) * 2 ^ 70) / 100) + 1 <= 2 ^ 1072)
    by (vm_compute; discriminate).
  destruct ((n * 2 ^ 70) mod 100 =? 0); lia.
Qed.

Lemma round2_zero : forall x s, Prim2SF x = S754_zero s -> PyFloat.round2 x = x.
Proof. intros x s H. unfold PyFloat.round2. rewrite H. reflexivity. Qed.

Lemma round2_finite : forall x m e, Prim2SF x = S754_finite false m e ->
  PyFloat.round2 x
  = if cents m e =? 0 then PrimFloat.zero
    else SF2Prim (binary_normalize prec emax (ratio_mantissa (cents m e)) (-71) false).
Proof.
  intros x m e H. unfold PyFloat.round2. rewrite H.
  fold (cents m e). unfold PyFloat.float_of_ratio.
  destruct (cents m e =? 0); reflexivity.
Qed.

Lemma F2R_split : forall m e,
  F2R m e = F2R (m * 2 ^ Z.max e 0) (- Z.max (- e) 0).
Proof.
  intros m e. rewrite F2R_shift by lia. f_equal. lia.
Qed.

Lemma cents_nonneg : forall m e, 0 <= cents m e.
Proof.
  intros. unfold cents. apply rhe_nonneg.
  - pose proof (Z.pow_pos_nonneg 2 (Z.max e 0)). nia.
  - apply Z.pow_pos_nonneg; lia.
Qed.

Lemma cents_mono : forall m1 e1 m2 e2,
  (F2R (Zpos m1) e1 <= F2R (Zpos m2) e2)%R -> cents m1 e1 <= cents m2 e2.
Proof.
  intros m1 e1 m2 e2 H. unfold cents.
  rewrite (F2R_split (Zpos m1)), (F2R_split (Zpos m2)) in H.
  set (a1 := Z.max e1 0) in *. set (b1 := Z.max (- e1) 0) in *.
  set (a2 := Z.max e2 0) in *. set (b2 := Z.max (- e2) 0) in *.
  assert (Hb1 : 0 <= b1) by (unfold b1; lia).
  assert (Hb2 : 0 <= b2) by (unfold b2; lia).
  apply rhe_mono; try (apply Z.pow_pos_nonneg; lia).
  assert (Zpos m1 * 2 ^ a1 * 2 ^ b2 <= Zpos m2 * 2 ^ a2 * 2 ^ b1).
  { apply (F2R_le_inv _ _ (- b1 - b2)).
    rewrite (F2R_shift (Zpos m1 * 2 ^ a1) _ b2), (F2R_shift (Zpos m2 * 2 ^ a2) _ b1)
      by lia.
    replace (- b1 - b2 + b2) with (- b1) by lia.
    replace (- b1 - b2 + b1) with (- b2) by lia.
    exact H. }
  lia.
Qed.

Lemma cents_bound : forall m e,
  (F2R (Zpos m) e <= pow2 1000)%R -> cents m e <= 100 * 2 ^ 1000 + 1.
Proof.
  intros m e H. unfold cents.
  rewrite (F2R_split (Zpos m)) in H.
  set (a := Z.max e 0) in *. set (b := Z.max (- e) 0) in *.
  assert (Hb : 0 <= b) by (unfold b; lia).
  assert (Hp : 0 < 2 ^ b) by (apply Z.pow_pos_nonneg; lia).
  destruct (rhe_nearest (Zpos m * 100 * 2 ^ a) (2 ^ b) Hp) as (_ & _ & _ & U).
  assert (Zpos m * 2 ^ a <= 2 ^ 1000 * 2 ^ b).
  { apply (F2R_le_inv _ _ (- b)).
    rewrite (F2R_shift (2 ^ 1000)) by lia.
    replace (- b + b) with 0 by lia.
    rewrite F2R_pow2 by lia. exact H. }
  assert ((Zpos m * 100 * 2 ^ a) / 2 ^ b <= 100 * 2 ^ 1000).
  { apply Z.div_le_upper_bound; [assumption|]. lia. }
  lia.
Qed.

(** Rounding a price to cents gives a float again, and keeps the order. *)
Lemma round2_nonneg : forall x, nonneg x -> (fval x <= pow2 1000)%R ->
  nonneg (PyFloat.round2 x).
Proof.
  intros x Hx Hb.
  destruct (nonneg_cases x Hx) as [(s & P & E)|(m & e & P & E & V)].
  - rewrite (round2_zero x s P). exact Hx.
  - rewrite (round2_finite x m e P).
    destruct (Z.eqb_spec (cents m e) 0) as [E0|N0]; [exact I|].
    pose proof (cents_nonneg m e) as Hc.
    rewrite E in Hb. pose proof (cents_bound m e Hb) as Hu.
    pose proof (ratio_mantissa_pos (cents m e) ltac:(lia)) as Hp.
    pose proof (ratio_mantissa_bound (cents m e) Hc Hu) as Hbd.
    destruct (ratio_mantissa (cents m e)) as [|p|p] eqn:Er; try lia.
    cbn [binary_normalize].
    pose proof (binary_round_rounds p (-71)) as Hr.
    destruct (rounds_upper _ _ (pow2 1001) Hr) as (Hn & Hv & _).
    + replace 1001 with (1072 + -71) by lia. rewrite <- F2R_pow2 by lia.
      apply F2R_le. exact Hbd.
    + exists 1, 1001. split; [lia|]. split; [lia|].
      unfold F2R. rewrite Rmult_1_l. reflexivity.
    + apply pow2_lt. lia.
    + unfold nonneg. rewrite Prim2SF_SF2Prim by exact Hv. exact Hn.
Qed.

Lemma round2_mono : forall x y, nonneg x -> nonneg y ->
  (fval x <= fval y)%R -> (fval y <= pow2 1000)%R ->
  PrimFloat.leb (PyFloat.round2 x) (PyFloat.round2 y) = true.
Proof.
  intros x y Hx Hy Hxy Hb.
  assert (Nx : nonneg (PyFloat.round2 x)) by (apply round2_nonneg; [assumption|lra]).
  assert (Ny : nonneg (PyFloat.round2 y)) by (apply round2_nonneg; assumption).
  apply (leb_nonneg _ _ Nx Ny).
  destruct (nonneg_cases x Hx) as [(sx & Px & Ex)|(mx & ex & Px & Ex & Vx)].
  - rewrite (round2_zero x sx Px), Ex. apply fval_nonneg. exact Ny.
  - destruct (nonneg_cases y Hy) as [(sy & Py & Ey)|(my & ey & Py & Ey & Vy)].
    + exfalso. rewrite Ex, Ey in Hxy.
      pose proof (F2R_pos (Zpos mx) ex ltac:(lia)). lra.
    + rewrite Ex, Ey in Hxy. rewrite Ey in Hb.
      pose proof (cents_mono _ _ _ _ Hxy) as Hc.
      pose proof (cents_nonneg mx ex) as Hcx.
      pose proof (cents_bound my ey Hb) as Hu.
      revert Nx Ny. rewrite (round2_finite x mx ex Px), (round2_finite y my ey Py).
      destruct (Z.eqb_spec (cents mx ex) 0) as [E0|N0].
      * intros _ Ny. change (fval PrimFloat.zero) with 0%R.
        apply fval_nonneg. exact Ny.
      * destruct (Z.eqb_spec (cents my ey) 0) as [E1|N1]; [lia|].
        intros _ _.
        pose proof (ratio_mantissa_mono _ _ Hc) as Hm.
        pose proof (ratio_mantissa_pos (cents mx ex) ltac:(lia)) as Hpx.
        pose proof (ratio_mantissa_pos (cents my ey) ltac:(lia)) as Hpy.
        pose proof (ratio_mantissa_bound (cents my ey) ltac:(lia) Hu) as Hbd.
        destruct (ratio_mantissa (cents mx ex)) as [|px|px] eqn:Erx; try lia.
        destruct (ratio_mantissa (cents my ey)) as [|py|py] eqn:Ery; try lia.
        cbn [binary_normalize].
        pose proof (binary_round_rounds px (-71)) as Hrx.
        pose proof (binary_round_rounds py (-71)) as Hry.
        assert (Hle : (F2R (Zpos px) (-71) <= F2R (Zpos py) (-71))%R)
          by (apply F2R_le; exact Hm).
        assert (Hg : (F2R (Zpos py) (-71) <= pow2 1001)%R).
        { replace 1001 with (1072 + -71) by lia. rewrite <- F2R_pow2 by lia.
          apply F2R_le. exact Hbd. }
        assert (Hrep : representable (pow2 1001)).
        { exists 1, 1001. split; [lia|]. split; [lia|].
          unfold F2R. rewrite Rmult_1_l. reflexivity. }
        assert (Hlt : (pow2 1001 < pow2 1024)%R) by (apply pow2_lt; lia).
        destruct (rounds_upper _ _ _ Hry Hg Hrep Hlt) as (Hny & Hvy & _).
        destruct (rounds_upper _ _ _ Hrx (Rle_trans _ _ _ Hle Hg) Hrep Hlt)
          as (Hnx & Hvx & _).
        unfold fval. rewrite !Prim2SF_SF2Prim by assumption.
        apply (rounds_mono _ _ _ _ Hrx Hry Hle Hny).
Qed.

Lemma run_Forall_steps : forall secret symbol (P : tick_input -> Prop) (Q : tick -> Prop),
  (forall st i t st',
      P i -> market_step secret symbol st i = Some (t, st') -> Q t) ->
  forall inputs st,
    Forall (fun x => P (fst x)) inputs ->
    Forall Q (fst (run (Streaming (Suspended secret symbol st)) inputs)).
Proof.
  intros secret symbol P Q HQ inputs.
  induction inputs as [|[i d] rest IH]; intros st HP.
  - constructor.
  - inversion HP as [|x l Hi Hrest]; subst. cbn [fst] in Hi.
    rewrite run_cons. unfold event_generator, next.
    destruct (market_step secret symbol st i) as [[t st1]|] eqn:Hstep.
    + destruct d; cbn [fst snd].
      * rewrite run_Finished. constructor.
      * constructor; [exact (HQ _ _ _ _ Hi Hstep) | apply IH; exact Hrest].
    + cbn [fst snd]. rewrite run_Finished. constructor.
Qed.

Lemma tick_bar_ordered : forall secret symbol st i t st',
  draws_in_unit i ->
  market_step secret symbol st i = Some (t, st') ->
  price_in_range (open_price t) ->
  PrimFloat.ltb (low t) (open_price t) = true
  /\ PrimFloat.ltb (open_price t) (high t) = true
  /\ PrimFloat.ltb (low t) (high t) = true
  /\ PrimFloat.leb (low t) (close t) = true
  /\ PrimFloat.leb (close t) (high t) = true
  /\ bar_ordered t.
Proof.
  intros secret symbol st i t st' (H1 & H2 & H3) Hstep Hp.
  pose proof (tick_fields _ _ _ _ _ _ Hstep)
    as (_ & _ & _ & _ & _ & _ & Fo & Fh & Fl & Fc).
  apply market_step_inv in Hstep.
  destruct Hstep as (Eo & Eh & El & Ec & _).
  rewrite <- Eo in Eh, El.
  pose proof (bar_values (open_price t) _ _ _ Hp H1 H2 H3) as Hb.
  cbv zeta in Hb. rewrite <- Eh, <- El, <- Ec in Hb.
  destruct Hb as (Np & Nh & Nl & Nc & [Hlp Hph] & [Hlc Hch] & _ & Hu & Hr).
  assert (B : (fval (high t) <= pow2 1000)%R).
  { pose proof (pow2_pos 997) as P997.
    assert (pow2 1000 = 8 * pow2 997)%R.
    { replace 1000 with (997 + 3) by lia. rewrite pow2_add.
      unfold pow2 at 2. simpl. ring. }
    pose proof (fval_nonneg _ Np). nra. }
  split; [apply (ltb_nonneg _ _ Nl Np); exact Hlp|].
  split; [apply (ltb_nonneg _ _ Np Nh); exact Hph|].
  split; [apply (ltb_nonneg _ _ Nl Nh); lra|].
  split; [apply (leb_nonneg _ _ Nl Nc); exact Hlc|].
  split; [apply (leb_nonneg _ _ Nc Nh); exact Hch|].
  exists (PyFloat.round2 (open_price t)), (PyFloat.round2 (high t)),
         (PyFloat.round2 (low t)), (PyFloat.round2 (close t)).
  repeat split; try assumption; apply round2_mono; try assumption; lra.
Qed.

Lemma pow_le_one : forall (x : R) n, (0 <= x <= 1)%R -> (0 <= x ^ n <= 1)%R.
Proof.
  intros x n Hx. induction n as [|n IH]; simpl; [lra | nra].
Qed.

Lemma pow_antitone : forall (x : R) j n, (0 <= x <= 1)%R -> (j <= n)%nat ->
  (x ^ n <= x ^ j)%R.
Proof.
  intros x j n Hx Hjn. replace n with (j + (n - j))%nat by lia.
  rewrite pow_add. pose proof (pow_le_one x j Hx). pose proof (pow_le_one x (n - j) Hx).
  nra.
Qed.

Lemma within_range : forall j p, (j <= safe_ticks)%nat -> within j p ->
  price_in_range p.
Proof.
  intros j p Hj [Np [Hl Hu]].
  destruct (const_value 1e-300%float 6032057205060441%positive (-1049) eq_refl)
    as [Nl Vl].
  destruct (const_value 1e300%float 6724873095247260%positive 944 eq_refl)
    as [Nh Vh].
  split.
  - apply (leb_nonneg _ _ Nl Np). rewrite Vl.
    apply Rle_trans with (2 := Hl).
    apply Rle_trans with (68000 * (127 / 128) ^ safe_ticks)%R.
    + unfold safe_ticks. rewrite pow_mult.
      apply Rle_trans with (68000 * (36 / 100) ^ 681)%R.
      * unfold F2R.
        assert (H : (IZR 6032057205060441 <= 68000 * (36 / 100) ^ 681 * IZR (2 ^ 1049))%R).
        { let v := eval vm_compute in (2 ^ 1049) in change (2 ^ 1049) with v. lra. }
        pose proof (pow2_neg 1049 ltac:(lia)) as Hn. cbn [Z.opp] in Hn.
        pose proof (pow2_pos (-1049)) as Hp.
        change (Zpos 6032057205060441) with 6032057205060441.
        set (a := IZR 6032057205060441) in *. set (b := IZR (2 ^ 1049)) in *.
        set (c := (68000 * (36 / 100) ^ 681)%R) in *.
        assert (a * pow2 (-1049) <= c * b * pow2 (-1049))%R by nra.
        replace (c * b * pow2 (-1049))%R with (c * (pow2 (-1049) * b))%R in H0 by ring.
        rewrite Hn in H0. lra.
      * apply Rmult_le_compat_l; [lra|]. apply pow_incr. lra.
    + apply Rmult_le_compat_l; [lra|]. apply pow_antitone; [lra | exact Hj].
  - apply (leb_nonneg _ _ Np Nh). rewrite Vh.
    apply Rle_trans with (1 := Hu).
    apply Rle_trans with (68000 * (129 / 128) ^ safe_ticks)%R.
    + apply Rmult_le_compat_l; [lra|]. apply Rle_pow; [lra | exact Hj].
    + unfold safe_ticks. rewrite pow_mult.
      apply Rle_trans with (68000 * (271 / 100) ^ 681)%R.
      * apply Rmult_le_compat_l; [lra|]. apply pow_incr. lra.
      * unfold F2R. rewrite pow2_IZR by lia.
        change (Zpos 6724873095247260) with 6724873095247260.
        let v := eval vm_compute in (2 ^ 944) in change (2 ^ 944) with v. lra.
Qed.

Lemma base_price_within : within 0 base_price.
Proof.
  destruct (const_value base_price 4672924418048000%positive (-36) eq_refl)
    as [N V].
  split; [exact N|]. rewrite V. unfold F2R.
  pose proof (pow2_neg 36 ltac:(lia)) as Hn. cbn [Z.opp] in Hn.
  change (Zpos 4672924418048000) with 4672924418048000.
  change (2 ^ 36) with 68719476736 in Hn. simpl pow. lra.
Qed.

Lemma step_within : forall secret symbol st i t st' j,
  draws_in_unit i ->
  market_step secret symbol st i = Some (t, st') ->
  (j <= safe_ticks)%nat ->
  within j (last_close st) ->
  within (S j) (last_close st').
Proof.
  intros secret symbol st i t st' j (H1 & H2 & H3) Hstep Hj Hw.
  pose proof (within_range _ _ Hj Hw) as Hp.
  apply market_step_inv in Hstep.
  destruct Hstep as (Eo & Eh & El & Ec & _ & _ & _ & _ & Es & _).
  pose proof (bar_values (last_close st) _ _ _ Hp H1 H2 H3) as Hb.
  cbv zeta in Hb. rewrite <- Eh, <- El, <- Ec, <- Es in Hb.
  destruct Hb as (Np & _ & _ & Nc & _ & [Hlc Hch] & Hl & Hu & _).
  destruct Hw as [_ [Wl Wu]].
  split; [exact Nc|]. cbn [pow].
  pose proof (pow_lt (127 / 128) j ltac:(lra)).
  pose proof (pow_lt (129 / 128) j ltac:(lra)).
  split; nra.
Qed.

Lemma run_within : forall secret symbol inputs st k,
  Forall (fun x => draws_in_unit (fst x)) inputs ->
  within k (last_close st) ->
  forall n t,
    nth_error (fst (run (Streaming (Suspended secret symbol st)) inputs)) n = Some t ->
    (k + n <= safe_ticks)%nat ->
    within (k + n) (open_price t).
Proof.
  intros secret symbol inputs.
  induction inputs as [|[i d] rest IH]; intros st k HP Hw n t Hn Hk.
  - destruct n; discriminate.
  - inversion HP as [|x l Hi Hrest]; subst. cbn [fst] in Hi.
    rewrite run_cons in Hn. unfold event_generator, next in Hn.
    destruct (market_step secret symbol st i) as [[t0 st1]|] eqn:Hstep.
    + destruct d; cbn [fst snd] in Hn.
      * rewrite run_Finished in Hn. destruct n; discriminate.
      * destruct n as [|n].
        -- cbn in Hn. injection Hn as <-.
           apply market_step_inv in Hstep. destruct Hstep as (Eo & _).
           rewrite Eo, Nat.add_0_r. exact Hw.
        -- cbn [nth_error] in Hn.
           replace (k + S n)%nat with (S k + n)%nat by lia.
           apply (IH st1 (S k) Hrest); [|exact Hn|lia].
           apply (step_within _ _ _ _ _ _ _ Hi Hstep); [lia | exact Hw].
    + cbn [fst snd] in Hn. rewrite run_Finished in Hn. destruct n; discriminate.
Qed.

Lemma steady_tick : forall secret key symbol i n st,
  PyStr.encode secret = Some key ->
  exists t,
    nth_error (fst (run (Streaming (Suspended secret symbol st))
                        (repeat (i, false) (S n)))) n
    = Some t
    /\ open_price t = Nat.iter n (next_price i) (last_close st)
    /\ low t = draw_low (open_price t) (rnd_low i)
    /\ high t = draw_high (open_price t) (rnd_high i).
Proof.
  intros secret key symbol i n. induction n as [|n IH]; intros st Hk.
  - destruct (market_step_total secret key symbol st i Hk) as (t & st1 & Hstep).
    exists t. cbn [repeat]. rewrite run_cons.
    unfold event_generator, next. rewrite Hstep. cbn [fst snd nth_error].
    apply market_step_inv in Hstep.
    destruct Hstep as (Eo & Eh & El & _). rewrite Eo.
    split; [reflexivity|]. split; [reflexivity|]. split; assumption.
  - destruct (market_step_total secret key symbol st i Hk) as (t0 & st1 & Hstep).
    destruct (IH st1 Hk) as (t & Hn & Ho & Hl & Hh).
    exists t. cbn [repeat] in *. rewrite run_cons.
    unfold event_generator, next. rewrite Hstep. cbn [fst snd nth_error].
    split; [exact Hn|]. split; [|split; assumption].
    rewrite Ho, Nat.iter_succ_r. f_equal.
    apply market_step_inv in Hstep.
    destruct Hstep as (Eo & Eh & El & Ec & _ & _ & _ & _ & Es & _).
    rewrite Es, Ec, El, Eh. reflexivity.
Qed.

Lemma rally_draws : forall n, Forall (fun x => draws_in_unit (fst x)) (rally n).
Proof.
  intros n. apply Forall_forall. intros x Hx. apply repeat_spec in Hx. subst x.
  cbn [fst]. repeat split; vm_compute; reflexivity.
Qed.

Lemma slump_draws : forall n, Forall (fun x => draws_in_unit (fst x)) (slump n).
Proof.
  intros n. apply Forall_forall. intros x Hx. apply repeat_spec in Hx. subst x.
  cbn [fst]. repeat split; vm_compute; reflexivity.
Qed.

(** Binary64 prices also run out of precision at the bottom: after 499387
    ticks of the lowest draws the price is a positive subnormal float, and
    both multiplications round back to it. *)
Example slump_underflow :
  exists t,
    Forall (fun x => draws_in_unit (fst x)) (slump (S underflow_tick))
    /\ nth_error (fst (run (sse_market None None) (slump (S underflow_tick))))
                 underflow_tick = Some t
    /\ PrimFloat.ltb 0 (open_price t) = true
    /\ PrimFloat.eqb (low t) (high t) = true.
Proof.
  destruct (steady_tick (PyStr.lit "demo-secret") (PyStr.lit "demo-secret")
              (PyStr.lit "BTC-USD") slump_input underflow_tick init_state eq_refl)
    as (t & Hn & Ho & Hl & Hh).
  exists t. split; [apply slump_draws|]. split; [exact Hn|].
  rewrite Hl, Hh, Ho. split; vm_compute; reflexivity.
Qed.

(** ** What the claims share *)

(** The sample session, and its draws. *)
Lemma sample_session_length :
  length (fst (run (sse_market None None) sample_inputs)) = 3%nat.
Proof. vm_compute. reflexivity. Qed.

Lemma sample_inputs_jitter : Forall (fun x => jitter_in_range (fst x)) sample_inputs.
Proof. repeat constructor; vm_compute; discriminate. Qed.

Lemma sample_inputs_draws : Forall (fun x => draws_in_unit (fst x)) sample_inputs.
Proof. repeat constructor; vm_compute; reflexivity. Qed.

(** The tick that reaches the transport in place [n] was made from the
    request in place [n], which found the client connected. *)
Lemma run_nth_step : forall secret symbol inputs st n t,
  nth_error (fst (run (Streaming (Suspended secret symbol st)) inputs)) n = Some t ->
  exists i st0 st1,
    nth_error inputs n = Some (i, false)
    /\ market_step secret symbol st0 i = Some (t, st1).
Proof.
  intros secret symbol inputs.
  induction inputs as [|[i d] rest IH]; intros st n t Hn.
  - destruct n; discriminate.
  - rewrite run_cons in Hn. unfold event_generator, next in Hn.
    destruct (market_step secret symbol st i) as [[t0 st1]|] eqn:Hstep.
    + destruct d; cbn [fst snd] in Hn.
      * rewrite run_Finished in Hn. destruct n; discriminate.
      * destruct n as [|n].
        -- cbn [nth_error] in Hn. injection Hn as <-.
           exists i, st, st1. split; [reflexivity | exact Hstep].
        -- cbn [nth_error] in Hn |- *. exact (IH st1 n t Hn).
    + cbn [fst snd] in Hn. rewrite run_Finished in Hn. destruct n; discriminate.
Qed.


Lemma tick_bar_finite : forall secret symbol st i t st',
  draws_in_unit i ->
  market_step secret symbol st i = Some (t, st') ->
  price_in_range (open_price t) ->
  nonneg (PyFloat.round2 (open_price t)) /\ nonneg (PyFloat.round2 (high t))
  /\ nonneg (PyFloat.round2 (low t)) /\ nonneg (PyFloat.round2 (close t)).
Proof.
  intros secret symbol st i t st' (H1 & H2 & H3) Hstep Hp.
  apply market_step_inv in Hstep.
  destruct Hstep as (Eo & Eh & El & Ec & _).
  rewrite <- Eo in Eh, El.
  pose proof (bar_values (open_price t) _ _ _ Hp H1 H2 H3) as Hb.
  cbv zeta in Hb. rewrite <- Eh, <- El, <- Ec in Hb.
  destruct Hb as (Np & Nh & Nl & Nc & [Hlp Hph] & [Hlc Hch] & _ & Hu & Hr).
  assert (B : (fval (high t) <= pow2 1000)%R).
  { pose proof (pow2_pos 997) as P997.
    assert (pow2 1000 = 8 * pow2 997)%R.
    { replace 1000 with (997 + 3) by lia. rewrite pow2_add.
      unfold pow2 at 2. simpl. ring. }
    pose proof (fval_nonneg _ Np). nra. }
  repeat split; apply round2_nonneg; try assumption; lra.
Qed.

Lemma eqb_nonneg_refl : forall x, nonneg x -> PrimFloat.eqb x x = true.
Proof.
  intros x H. rewrite eqb_spec. unfold nonneg in H.
  destruct (Prim2SF x) as [s|s| |[|] m e]; try contradiction.
  - reflexivity.
  - unfold SFeqb, SFcompare. rewrite Z.compare_refl, Pos.compare_cont_refl.
    reflexivity.
Qed.


(** ** The claims *)




(** C3 (latency bound).  The [latency_ms] of every emitted envelope and the
    one the session carries lie in [20, 250], for every sequence of jitter
    values whatsoever (those in [-20, 20] in particular) and however many
    ticks have elapsed. *)
Theorem latency_bound : forall env symbol inputs,
  Forall (fun t => exists l,
            field "latency_ms" t = Some (Json.JInt l) /\ 20 <= l <= 250)
         (fst (run (sse_market env symbol) inputs))
  /\ match session_state (snd (run (sse_market env symbol) inputs)) with
     | Some st => 20 <= latency_ms st <= 250
     | None => True
     end.
Proof.
  intros env symbol inputs.
  destruct (session_ticks env symbol inputs) as [st' [Hc Hs]].
  split.
  - eapply Forall_impl; [|exact (ticks_from_fields _ _ _ _ _ Hc)].
    intros t (_ & H & _). exact H.
  - destruct Hs as [Hs|Hs]; rewrite Hs; [|exact I].
    refine (ticks_from_invariant _ _ (fun st => 20 <= latency_ms st <= 250)
              _ _ _ _ Hc _).
    + intros st i t st1 _ Hstep. apply market_step_inv in Hstep.
      destruct Hstep as (_ & _ & _ & _ & _ & _ & _ & _ & _ & Hl).
      rewrite Hl. apply clamp_latency_range.
    + simpl. lia.
Qed.

(** C6 (session termination).  Once a request has seen the client
    disconnected, nothing more reaches the transport: what was emitted is
    what was emitted before that request, and the session is finished for
    good, whatever is requested of it afterwards. *)
Theorem session_termination : forall env symbol before i after,
  run (sse_market env symbol) (before ++ (i, true) :: after)
  = (fst (run (sse_market env symbol) before), Finished).
Proof.
  intros env symbol before i after.
  rewrite run_app, run_cons, event_generator_disconnected.
  cbn [fst snd]. rewrite run_Finished. cbn [fst snd].
  rewrite app_nil_r. reflexivity.
Qed.

(** C8 (symbol propagation).  Every emitted envelope carries the symbol the
    stream was requested with, and ["BTC-USD"] when none was given. *)
Theorem symbol_propagation : forall env inputs,
  (forall symbol,
      Forall (fun t => field "symbol" t = Some (Json.JStr symbol))
             (fst (run (sse_market env (Some symbol)) inputs)))
  /\ Forall (fun t => field "symbol" t = Some (Json.JStr (PyStr.lit "BTC-USD")))
            (fst (run (sse_market env None) inputs)).
Proof.
  intros env inputs. split; [intros symbol|].
  - destruct (session_ticks env (Some symbol) inputs) as [st' [Hc _]].
    eapply Forall_impl; [|exact (ticks_from_fields _ _ _ _ _ Hc)].
    intros t H. apply H.
  - destruct (session_ticks env None inputs) as [st' [Hc _]].
    eapply Forall_impl; [|exact (ticks_from_fields _ _ _ _ _ Hc)].
    intros t H. apply H.
Qed.

(** C9 (envelope constants).  Every emitted envelope has
    [venue_count = 18] and [control_checks = 42]. *)
Theorem envelope_constants : forall env symbol inputs,
  Forall (fun t => field "venue_count" t = Some (Json.JInt 18)
                   /\ field "control_checks" t = Some (Json.JInt 42))
         (fst (run (sse_market env symbol) inputs)).
Proof.
  intros env symbol inputs.
  destruct (session_ticks env symbol inputs) as [st' [Hc _]].
  eapply Forall_impl; [|exact (ticks_from_fields _ _ _ _ _ Hc)].
  intros t (_ & _ & Hv & Hk & _). split; assumption.
Qed.

(** C10 (full-precision carry).  The close of a tick is the raw sample
    [uniform(low, high)], taken from the draws of its request, and that
    very float, not the [round(close, 2)] shown as [c] in the bar, is the
    price carried on: it is the [open_price] of the next tick and the
    [last_close] left in the state. *)
Theorem full_precision_carry : forall env symbol inputs,
  (forall n t,
      nth_error (fst (run (sse_market env symbol) inputs)) n = Some t ->
      exists i,
        nth_error inputs n = Some (i, false)
        /\ close t
           = PyFloat.uniform (draw_low (open_price t) (rnd_low i))
                             (draw_high (open_price t) (rnd_high i)) (rnd_close i)
        /\ bar_field "c" t = Some (Json.JFloat (PyFloat.round2 (close t)))
        /\ (forall t',
              nth_error (fst (run (sse_market env symbol) inputs)) (S n) = Some t' ->
              open_price t'
              = PyFloat.uniform (draw_low (open_price t) (rnd_low i))
                                (draw_high (open_price t) (rnd_high i)) (rnd_close i))
        /\ (forall st,
              session_state (snd (run (sse_market env symbol) inputs)) = Some st ->
              S n = length (fst (run (sse_market env symbol) inputs)) ->
              last_close st
              = PyFloat.uniform (draw_low (open_price t) (rnd_low i))
                                (draw_high (open_price t) (rnd_high i)) (rnd_close i)))
  /\ (forall t,
        nth_error (fst (run (sse_market env symbol) inputs)) 0 = Some t ->
        open_price t = base_price).
Proof.
  intros env symbol inputs.
  destruct (session_ticks env symbol inputs) as [st' [Hc Hs]].
  split.
  - intros n t Hn.
    pose proof Hn as Hn0. unfold sse_market, market_stream in Hn0.
    destruct (run_nth_step _ _ _ _ _ _ Hn0) as (i & st0 & st1 & Hi & Hstep).
    pose proof (tick_fields _ _ _ _ _ _ Hstep)
      as (_ & _ & _ & _ & _ & _ & _ & _ & _ & Fc).
    apply market_step_inv in Hstep.
    destruct Hstep as (Eo & Eh & El & Ec & _).
    assert (E : close t
                = PyFloat.uniform (draw_low (open_price t) (rnd_low i))
                    (draw_high (open_price t) (rnd_high i)) (rnd_close i)).
    { rewrite Ec, El, Eh, Eo. reflexivity. }
    exists i. split; [exact Hi|]. split; [exact E|]. split; [exact Fc|]. split.
    + intros t' Hn'. rewrite <- E.
      exact (ticks_from_next _ _ _ _ _ Hc _ _ _ Hn Hn').
    + intros st Hst Hlen. rewrite <- E.
      destruct Hs as [Hs|Hs]; rewrite Hs in Hst; [|discriminate].
      injection Hst as <-.
      apply (ticks_from_last _ _ _ _ _ Hc).
      rewrite <- Hlen. cbn [Nat.sub]. rewrite Nat.sub_0_r. exact Hn.
  - intros t Hn. exact (ticks_from_first _ _ _ _ _ _ Hc Hn).
Qed.

Lemma full_precision_carry_witness :
  exists t t',
    nth_error (fst (run (sse_market None None) sample_inputs)) 1 = Some t
    /\ nth_error (fst (run (sse_market None None) sample_inputs)) 2 = Some t'
    /\ close t
       = PyFloat.uniform (draw_low (open_price t) 0.5%float)
                         (draw_high (open_price t) 0.25%float) 0.75%float
    /\ open_price t' = close t
    /\ bar_field "c" t = Some (Json.JFloat (PyFloat.round2 (close t))).
Proof.
  pose proof (full_precision_carry None None sample_inputs) as [H _].
  pose proof sample_session_length as L.
  destruct (fst (run (sse_market None None) sample_inputs)) as [|t0 [|t [|t' rest]]];
    [discriminate L | discriminate L | discriminate L |]. clear L.
  destruct (H 1%nat t eq_refl) as (i & Hi & Ec & Fc & Hnext & _).
  cbn in Hi. injection Hi as <-.
  exists t, t'. split; [reflexivity|]. split; [reflexivity|].
  split; [exact Ec|]. split; [|exact Fc].
  rewrite Ec. exact (Hnext t' eq_refl).
Defined.

(** In the sample session the carried close is not the emitted one: from the
    second tick on, [close] has more than two decimals. *)
Example carry_is_unrounded :
  map (fun t => PrimFloat.eqb (PyFloat.round2 (close t)) (close t))
      (fst (run (sse_market None None) sample_inputs))
  = [true; false; false].
Proof. vm_compute. reflexivity. Qed.

(** C5 (signer contract), as amended.  [sign_payload] is a function of its
    two arguments; whenever both are encodable as UTF-8 it returns the
    HMAC-SHA256 of the encoded payload under the encoded secret, as 64
    lowercase hexadecimal digits (of a 32-octet digest). *)
Theorem sign_payload_contract : forall secret payload key msg,
  PyStr.encode secret = Some key ->
  PyStr.encode payload = Some msg ->
  sign_payload secret payload = Some (Hmac.hex (Hmac.digest key msg))
  /\ length (Hmac.digest key msg) = 32%nat
  /\ Forall (fun b => 0 <= b < 256) (Hmac.digest key msg)
  /\ length (Hmac.hex (Hmac.digest key msg)) = 64%nat
  /\ forallb PyStr.is_lower_hex (Hmac.hex (Hmac.digest key msg)) = true
  /\ (forall secret' payload',
        secret' = secret -> payload' = payload ->
        sign_payload secret' payload' = sign_payload secret payload).
Proof.
  intros secret payload key msg Hk Hm.
  split; [unfold sign_payload; rewrite Hk, Hm; reflexivity|].
  split; [apply digest_length|].
  split; [apply digest_octets|].
  split; [apply (hexdigest_format key msg)|].
  split; [apply (hexdigest_format key msg)|].
  intros secret' payload' -> ->. reflexivity.
Qed.

Lemma sign_payload_contract_witness :
  PyStr.encode (PyStr.lit "Jefe") = Some (PyStr.lit "Jefe")
  /\ PyStr.encode (PyStr.lit "what do ya want for nothing?")
     = Some (PyStr.lit "what do ya want for nothing?")
  /\ sign_payload (PyStr.lit "Jefe") (PyStr.lit "what do ya want for nothing?")
     = Some (Hmac.hex (Hmac.digest (PyStr.lit "Jefe")
                                   (PyStr.lit "what do ya want for nothing?")))
  /\ length (Hmac.hex (Hmac.digest (PyStr.lit "Jefe")
                                   (PyStr.lit "what do ya want for nothing?"))) = 64%nat.
Proof.
  split; [reflexivity|]. split; [reflexivity|].
  pose proof (sign_payload_contract
                (PyStr.lit "Jefe") (PyStr.lit "what do ya want for nothing?")
                (PyStr.lit "Jefe") (PyStr.lit "what do ya want for nothing?")
                eq_refl eq_refl) as (H & _ & _ & L & _).
  split; [exact H | exact L].
Defined.

(** A secret holding a lone surrogate, as [os.getenv] returns for an
    undecodable byte of the environment, cannot be encoded: the call raises
    and there is no signature. *)
Lemma sign_payload_surrogate_secret :
  sign_payload [0xDC80] (PyStr.lit "{}") = None.
Proof. reflexivity. Qed.

(** C4 (sign what you transmit).  In every emitted event the value of the
    [payload] member of the outer object is, character for character, the
    string that was signed (the serialisation of the envelope), and the
    value of the [sig] member is the signature of that string under the
    secret of the session. *)
Theorem sign_what_you_transmit : forall env symbol inputs,
  Forall (fun t =>
            payload t = Json.dumps (data t)
            /\ sign_payload (getenv env (PyStr.lit "demo-secret")) (payload t)
               = Some (sig t)
            /\ event t
               = event_prefix ++ payload t ++ event_infix ++ sig t ++ event_suffix)
         (fst (run (sse_market env symbol) inputs)).
Proof.
  intros env symbol inputs.
  destruct (session_ticks env symbol inputs) as [st' [Hc _]].
  eapply ticks_from_Forall; [|exact Hc].
  intros st i t st1 Hstep. apply market_step_inv in Hstep.
  destruct Hstep as (_ & _ & _ & _ & _ & Hp & Hs & He & _).
  split; [exact Hp|]. split; [exact Hs|].
  rewrite He, Hp. apply make_event_text.
  exact (sign_payload_lower_hex _ _ _ Hs).
Qed.

(** C7 (missing-secret fallback).  With [SIGNING_SECRET] unset, a session
    whose client stays connected answers every request with an event and is
    still streaming afterwards, and every event is signed under the
    default secret [demo-secret]. *)
Theorem missing_secret_fallback : forall symbol ticks,
  length (fst (run (sse_market None symbol) (map (fun i => (i, false)) ticks)))
  = length ticks
  /\ (exists st,
        session_state (snd (run (sse_market None symbol)
                                (map (fun i => (i, false)) ticks))) = Some st)
  /\ Forall (fun t =>
               sign_payload (PyStr.lit "demo-secret") (payload t) = Some (sig t)
               /\ sig t = Hmac.hexdigest (PyStr.lit "demo-secret") (payload t))
            (fst (run (sse_market None symbol) (map (fun i => (i, false)) ticks))).
Proof.
  intros symbol ticks.
  assert (Hk : PyStr.encode (PyStr.lit "demo-secret") = Some (PyStr.lit "demo-secret"))
    by reflexivity.
  split; [|split].
  - apply (run_connected _ _ _ ticks init_state Hk).
  - destruct (proj2 (run_connected _ _ (getenv symbol (PyStr.lit "BTC-USD"))
                       ticks init_state Hk)) as [st' Hst].
    exists st'. unfold sse_market, market_stream.
    cbn [getenv]. cbn [getenv] in Hst. rewrite Hst. reflexivity.
  - destruct (session_ticks None symbol (map (fun i => (i, false)) ticks))
      as [st' [Hc _]].
    eapply ticks_from_Forall; [|exact Hc].
    intros st i t st1 Hstep.
    pose proof (tick_payload_ascii _ _ _ _ _ _ Hstep) as Ha.
    apply market_step_inv in Hstep.
    destruct Hstep as (_ & _ & _ & _ & _ & _ & Hs & _).
    cbn [getenv] in Hs. split; [exact Hs|].
    unfold sign_payload in Hs. rewrite Hk, (encode_ascii _ Ha) in Hs.
    injection Hs as <-. reflexivity.
Qed.

(** C2 (bar invariant), as amended.  With draws that are floats of the unit
    interval, every tick among the first [safe_ticks + 1] of a session, and
    every later tick whose open price still lies within [1e-300, 1e300],
    has its unrounded [low] strictly below its unrounded [high], and emits
    a bar with [l <= o <= h] and [l <= c <= h]. *)
Theorem bar_invariant : forall env symbol inputs,
  Forall (fun x => draws_in_unit (fst x)) inputs ->
  forall n t,
    nth_error (fst (run (sse_market env symbol) inputs)) n = Some t ->
    (n <= safe_ticks)%nat \/ price_in_range (open_price t) ->
    PrimFloat.ltb (low t) (high t) = true /\ bar_ordered t.
Proof.
  intros env symbol inputs HP n t Hn Hr.
  assert (Hp : price_in_range (open_price t)).
  { destruct Hr as [Hle|Hp]; [|exact Hp].
    apply (within_range (0 + n)); [exact Hle|].
    apply (run_within (getenv env (PyStr.lit "demo-secret"))
             (getenv symbol (PyStr.lit "BTC-USD")) inputs init_state 0%nat HP
             base_price_within n t); [exact Hn | exact Hle]. }
  pose proof (run_Forall_steps (getenv env (PyStr.lit "demo-secret"))
                (getenv symbol (PyStr.lit "BTC-USD")) draws_in_unit
                (fun t => price_in_range (open_price t) ->
                          PrimFloat.ltb (low t) (high t) = true /\ bar_ordered t))
    as HF.
  assert (HQ : Forall (fun t => price_in_range (open_price t) ->
                               PrimFloat.ltb (low t) (high t) = true /\ bar_ordered t)
                      (fst (run (sse_market env symbol) inputs))).
  { apply HF; [|exact HP].
    intros st i t0 st' Hi Hstep Hp0.
    destruct (tick_bar_ordered _ _ _ _ _ _ Hi Hstep Hp0) as (_ & _ & H & _ & _ & Hb).
    split; assumption. }
  rewrite Forall_forall in HQ.
  exact (HQ t (nth_error_In _ _ Hn) Hp).
Qed.

Lemma bar_invariant_witness :
  exists t,
    Forall (fun x => draws_in_unit (fst x)) sample_inputs
    /\ nth_error (fst (run (sse_market None None) sample_inputs)) 1 = Some t
    /\ (1 <= safe_ticks)%nat
    /\ PrimFloat.ltb (low t) (high t) = true
    /\ bar_ordered t.
Proof.
  assert (HP : Forall (fun x => draws_in_unit (fst x)) sample_inputs).
  { repeat constructor; vm_compute; reflexivity. }
  assert (Hs : (1 <= safe_ticks)%nat) by (unfold safe_ticks; lia).
  pose proof (bar_invariant None None sample_inputs HP 1%nat) as H.
  assert (L : (2 <=? length (fst (run (sse_market None None) sample_inputs)))%nat = true)
    by (vm_compute; reflexivity).
  destruct (fst (run (sse_market None None) sample_inputs)) as [|t0 [|t rest]];
    [discriminate L | discriminate L |].
  exists t. split; [exact HP|]. split; [reflexivity|]. split; [exact Hs|].
  apply H; [reflexivity | left; exact Hs].
Defined.

(** Binary64 prices overflow: after 466120 ticks of the highest draws the
    price carried into the next tick is infinite, and so are both its
    [low] and its [high]. *)
Lemma bar_invariant_overflow :
  exists t,
    Forall (fun x => draws_in_unit (fst x)) (rally (S overflow_tick))
    /\ nth_error (fst (run (sse_market None None) (rally (S overflow_tick))))
                 overflow_tick = Some t
    /\ PrimFloat.ltb (low t) (high t) = false.
Proof.
  destruct (steady_tick (PyStr.lit "demo-secret") (PyStr.lit "demo-secret")
              (PyStr.lit "BTC-USD") rally_input overflow_tick init_state eq_refl)
    as (t & Hn & Ho & Hl & Hh).
  exists t. split; [apply rally_draws|]. split; [exact Hn|].
  rewrite Hl, Hh, Ho. vm_compute. reflexivity.
Qed.

(** * Further properties *)

(** ** The diagnostic endpoint *)

Ltac test_database_cases imported :=
  unfold test_database, list_collections, import_handlers, except_Exception,
         getattr_name;
  destruct imported
    as [[[[[dbn|[[| | |] msgn]]|] [cs|[[| | |] msgl]]]|]|[[| | |] msgi]];
  cbn [bind kind text];
  try (destruct cs as [|n|s|l]; cbn [slice10 bind kind text]).

Lemma eqb_eq : forall a b, PyStr.eqb a b = true <-> a = b.
Proof.
  induction a as [|x a IH]; intros [|y b]; cbn [PyStr.eqb];
    try (split; [discriminate | discriminate]); [split; reflexivity|].
  rewrite andb_true_iff, Z.eqb_eq, IH.
  split; [intros [-> ->]; reflexivity|].
  intros E; injection E as -> ->; split; reflexivity.
Qed.

(** Reading a [dict] after an assignment. *)
Lemma getitem_setitem : forall k v d, getitem k (setitem k v d) = Some v.
Proof.
  intros k v d. induction d as [|[k' w] d IH]; cbn [setitem getitem].
  - rewrite (proj2 (eqb_eq k k) eq_refl). reflexivity.
  - destruct (PyStr.eqb k k') eqn:E; cbn [getitem]; rewrite E; [reflexivity | exact IH].
Qed.

Lemma getitem_setitem_other : forall k k' v d,
  PyStr.eqb k k' = false -> getitem k (setitem k' v d) = getitem k d.
Proof.
  intros k k' v d Hk. induction d as [|[k0 w] d IH]; cbn [setitem getitem].
  - rewrite Hk. reflexivity.
  - destruct (PyStr.eqb k' k0) eqn:E; cbn [getitem].
    + apply eqb_eq in E. subst k0. rewrite Hk. reflexivity.
    + rewrite IH. reflexivity.
Qed.

(** X1 (environment report).  [test_database()] reports [database_url] and
    [database_name] from the environment alone: each is the text for a
    variable that is set and not empty, or the text for one that is not,
    whatever the import of the database module gave. *)
Theorem test_database_env_fields : forall imported url name,
  match test_database imported url name with
  | Returns r =>
      getitem (PyStr.lit "database_url") r
      = Some (VStr (if truthy url then check_mark " Set" else cross_mark " Not Set"))
      /\ getitem (PyStr.lit "database_name") r
         = Some (VStr (if truthy name then check_mark " Set" else cross_mark " Not Set"))
  | Raises _ => True
  end.
Proof.
  intros imported url name. unfold test_database.
  match goal with |- context [bind ?b _] => destruct b as [r|e] end;
    cbn [bind]; [|exact I].
  rewrite getitem_setitem_other by reflexivity.
  rewrite !getitem_setitem. unfold set_or_not.
  destruct (truthy url), (truthy name); split; reflexivity.
Qed.


Lemma firstn_50_length : forall (s : PyStr.str), (length (firstn 50 s) <= 50)%nat.
Proof. intros s. apply firstn_le_length. Qed.

(** X3 (database status texts).  The [database] entry of a response is one
    of five texts, at most 76 characters long: neither the text the response
    starts with nor the one set right after the import is ever returned. *)
Theorem test_database_status : forall imported url name,
  match test_database imported url name with
  | Returns r =>
      exists s,
        getitem (PyStr.lit "database") r = Some (VStr s)
        /\ final_status s
        /\ s <> cross_mark " Not Available"
        /\ s <> check_mark " Available"
        /\ (length s <= 76)%nat
  | Raises _ => True
  end.
Proof.
  intros imported url name. unfold final_status.
  test_database_cases imported; try exact I;
    (eexists; split; [reflexivity|]); cbn [text];
    (split; [|split; [discriminate|split; [discriminate|]]]).
  all: try (rewrite ?length_app;
            try match goal with
                | |- context [firstn 50 ?m] =>
                    generalize (firstn_50_length m); generalize (firstn 50 m);
                    intros ? ?
                end;
            cbn [length warning_sign cross_mark check_mark PyStr.lit
                 list_ascii_of_string map];
            lia).
  all: first [ left; reflexivity
             | right; left; eexists; reflexivity
             | right; right; left; reflexivity
             | right; right; right; left; reflexivity
             | right; right; right; right; eexists; reflexivity ].
Qed.

(** X4 (listed collections).  The [collections] entry of a response is a
    sequence of at most ten items: the empty list the response starts with,
    unless the database listed its collections, in which case it is the
    first ten of them and the [database] entry says connected and working. *)
Theorem test_database_collections : forall imported url name,
  match test_database imported url name with
  | Returns r =>
      exists v,
        getitem (PyStr.lit "collections") r = Some v
        /\ match v with
           | VList l => (length l <= 10)%nat
           | VStr s => (length s <= 10)%nat
           | _ => False
           end
        /\ (v = VList []
            \/ exists db cs,
                 imported = Returns (Some db)
                 /\ db_list_collection_names db = Returns cs
                 /\ slice10 cs = Returns v
                 /\ getitem (PyStr.lit "database") r
                    = Some (VStr (check_mark " Connected & Working")))
  | Raises _ => True
  end.
Proof.
  intros imported url name.
  test_database_cases imported; try exact I;
    (eexists; split; [reflexivity|]);
    (split; [first [apply firstn_le_length | cbn; lia]|]);
    first [ left; reflexivity
          | right; eexists; eexists; repeat split; reflexivity ].
Qed.

(** X5 (connection status).  The [connection_status] entry says connected
    exactly when the import gave a database object that is not [None] and
    reading its [name] raised nothing but, at most, an [AttributeError]
    (which [getattr] swallows, as it does an absent attribute); it stays so
    when listing the collections fails afterwards.  Otherwise the entry
    says not connected. *)
Theorem test_database_connection_status : forall imported url name,
  match test_database imported url name with
  | Returns r =>
      (getitem (PyStr.lit "connection_status") r = Some (VStr (PyStr.lit "Connected"))
       /\ exists db,
            imported = Returns (Some db)
            /\ forall e, db_name db = Some (Raises e) -> kind e = AttributeError)
      \/ (getitem (PyStr.lit "connection_status") r
          = Some (VStr (PyStr.lit "Not Connected"))
          /\ forall db, imported = Returns (Some db) ->
               exists e, db_name db = Some (Raises e) /\ kind e <> AttributeError)
  | Raises _ => True
  end.
Proof.
  intros imported url name.
  test_database_cases imported; try exact I;
    first [ left; split; [reflexivity|]; eexists; split; [reflexivity|];
            cbn [db_name]; intros e H;
            first [ discriminate H | injection H as <-; reflexivity ]
          | right; split; [reflexivity|]; intros db H;
            first [ discriminate H
                  | injection H as <-; eexists; split; [reflexivity | discriminate] ] ].
Qed.

(** ** The text of an event *)

Lemma printable_range : forall c, 32 <= c <= 126 -> printable c = true.
Proof.
  intros c H. unfold printable.
  apply andb_true_iff. split; apply Z.leb_le; lia.
Qed.

Lemma lower_hex_printable : forall c,
  PyStr.is_lower_hex c = true -> printable c = true.
Proof.
  intros c H. unfold PyStr.is_lower_hex in H.
  apply printable_range.
  apply orb_true_iff in H. destruct H as [H|H];
    apply andb_true_iff in H; destruct H as [H1 H2];
    apply Z.leb_le in H1; apply Z.leb_le in H2; lia.
Qed.

Lemma digits_pos_printable : forall fuel n acc,
  forallb printable acc = true ->
  forallb printable (PyStr.digits_pos fuel n acc) = true.
Proof.
  induction fuel as [|fuel IH]; intros n acc Hacc; cbn [PyStr.digits_pos];
    [exact Hacc|].
  assert (Hd : forallb printable ((48 + n mod 10) :: acc) = true).
  { cbn [forallb]. rewrite Hacc, printable_range; [reflexivity|].
    pose proof (Z.mod_pos_bound n 10 ltac:(lia)). lia. }
  destruct (n <? 10); [exact Hd | apply IH; exact Hd].
Qed.

Lemma repr_int_printable : forall n, forallb printable (PyStr.repr_int n) = true.
Proof.
  intros n. unfold PyStr.repr_int. destruct (n <? 0).
  - cbn [forallb]. rewrite digits_pos_printable; reflexivity.
  - apply digits_pos_printable. reflexivity.
Qed.

Lemma hex4_printable : forall c, forallb printable (Json.hex4 c) = true.
Proof.
  intros c. unfold Json.hex4. cbn [forallb].
  rewrite !lower_hex_printable; [reflexivity|..];
    apply hexchar_lower_hex; apply Z.mod_pos_bound; lia.
Qed.

Lemma uescape_printable : forall c, forallb printable (Json.uescape c) = true.
Proof.
  intros c. unfold Json.uescape. cbn [forallb]. rewrite hex4_printable. reflexivity.
Qed.

Lemma escape_cp_printable : forall c, forallb printable (Json.escape_cp c) = true.
Proof.
  intros c. unfold Json.escape_cp.
  repeat match goal with
         | |- context [if ?b then _ else _] => destruct b eqn:?
         end; try reflexivity.
  - cbn [forallb]. unfold printable.
    match goal with H : _ && _ = true |- _ => rewrite H end. reflexivity.
  - apply uescape_printable.
  - rewrite forallb_app, !uescape_printable. reflexivity.
Qed.

Lemma encode_str_printable : forall s, forallb printable (Json.encode_str s) = true.
Proof.
  intros s. unfold Json.encode_str.
  rewrite !forallb_app. cbn [forallb].
  replace (forallb printable (flat_map Json.escape_cp s)) with true; [reflexivity|].
  symmetry. induction s as [|c s IH]; [reflexivity|].
  cbn [flat_map]. rewrite forallb_app, escape_cp_printable, IH. reflexivity.
Qed.

Lemma zeros_printable : forall n, forallb printable (PyFloat.zeros n) = true.
Proof.
  intros n. unfold PyFloat.zeros.
  induction (Z.to_nat n) as [|k IH]; simpl; [reflexivity | exact IH].
Qed.

Lemma mantissa_printable : forall digits,
  forallb printable digits = true ->
  forallb printable (PyFloat.point_after_first digits) = true.
Proof.
  intros [|d [|d' rest]] Hd; exact Hd.
Qed.

Lemma layout_printable : forall digits decpt,
  forallb printable digits = true ->
  forallb printable (PyFloat.layout digits decpt) = true.
Proof.
  intros digits decpt Hd. unfold PyFloat.layout.
  destruct ((decpt <=? -4) || (16 <? decpt)).
  - rewrite !forallb_app, (mantissa_printable _ Hd).
    destruct (decpt - 1 <? 0), (Z.abs (decpt - 1) <? 10);
      cbn [forallb]; rewrite repr_int_printable; reflexivity.
  - destruct (decpt <=? 0); [|destruct (Z.of_nat (length digits) <=? decpt)].
    + rewrite !forallb_app, zeros_printable, Hd. reflexivity.
    + rewrite !forallb_app, zeros_printable, Hd. reflexivity.
    + rewrite !forallb_app, (forallb_firstn _ _ _ Hd), (forallb_skipn _ _ _ Hd).
      reflexivity.
Qed.

Lemma floatstr_printable : forall x, forallb printable (Json.floatstr x) = true.
Proof.
  intros x. unfold Json.floatstr, PyFloat.repr.
  destruct (Prim2SF x) as [s|s| |s m e]; try (destruct s; reflexivity); try reflexivity.
  destruct (PyFloat.shortest _ _ _ _ _) as [c p].
  destruct (PyFloat.strip_zeros _ _ _) as [c' p'].
  rewrite forallb_app, layout_printable by apply repr_int_printable.
  destruct s; reflexivity.
Qed.

(** Whatever the value, [json.dumps] writes printable ASCII only. *)
Lemma dumps_printable : forall v, forallb printable (Json.dumps v) = true.
Proof.
  fix IH 1. intros [n|x|s|items]; cbn [Json.dumps].
  - apply repr_int_printable.
  - apply floatstr_printable.
  - apply encode_str_printable.
  - rewrite !forallb_app.
    apply andb_true_iff. split; [reflexivity|].
    apply andb_true_iff. split; [|reflexivity].
    induction items as [|[k w] rest IHl]; [reflexivity|].
    destruct rest as [|kw rest].
    + rewrite !forallb_app, encode_str_printable, (IH w). reflexivity.
    + destruct kw as [k' w'].
      rewrite (forallb_app _ (Json.encode_str k)), encode_str_printable.
      rewrite (forallb_app _ Json.key_sep).
      rewrite (forallb_app _ (Json.dumps w)), (IH w).
      rewrite (forallb_app _ Json.item_sep), IHl. reflexivity.
Qed.

(** X6 (event framing).  An event is one line that starts with [data: ] and
    is closed by a blank line: whatever the symbol of the request and the
    clock readings, the text between the marker and the two line feeds is
    printable ASCII, with no line feed or carriage return of its own. *)
Theorem event_framing : forall env symbol inputs,
  Forall (fun t =>
            exists body,
              event t = PyStr.lit "data: " ++ body ++ [10; 10]
              /\ forallb printable body = true)
         (fst (run (sse_market env symbol) inputs)).
Proof.
  intros env symbol inputs.
  destruct (session_ticks env symbol inputs) as [st' [Hc _]].
  eapply ticks_from_Forall; [|exact Hc].
  intros st i t st1 Hstep. apply market_step_inv in Hstep.
  destruct Hstep as (_ & _ & _ & _ & _ & _ & _ & He & _).
  rewrite He. unfold make_event. eexists. split; [reflexivity|].
  apply dumps_printable.
Qed.

(** X7 (signed bytes).  What is handed to HMAC is the payload itself, one
    byte for each of its characters, under the bytes of the secret: the
    payload is ASCII whatever the symbol and the clock readings, so a client
    can check a signature on the text it received. *)
Theorem signed_bytes : forall env symbol inputs,
  Forall (fun t =>
            PyStr.encode (payload t) = Some (payload t)
            /\ exists key,
                 PyStr.encode (getenv env (PyStr.lit "demo-secret")) = Some key
                 /\ sig t = Hmac.hexdigest key (payload t))
         (fst (run (sse_market env symbol) inputs)).
Proof.
  intros env symbol inputs.
  destruct (session_ticks env symbol inputs) as [st' [Hc _]].
  eapply ticks_from_Forall; [|exact Hc].
  intros st i t st1 Hstep.
  pose proof (encode_ascii _ (tick_payload_ascii _ _ _ _ _ _ Hstep)) as Hp.
  apply market_step_inv in Hstep.
  destruct Hstep as (_ & _ & _ & _ & _ & _ & Hs & _).
  split; [exact Hp|]. unfold sign_payload in Hs. rewrite Hp in Hs.
  destruct (PyStr.encode (getenv env (PyStr.lit "demo-secret"))) as [key|];
    [|discriminate].
  exists key. split; [reflexivity|]. injection Hs as <-. reflexivity.
Qed.

(** ** Consecutive ticks *)

(** The first tick that reaches the transport is the first of the
    generator, taken at a request that found the client connected. *)
Lemma run_first : forall secret symbol inputs st t,
  nth_error (fst (run (Streaming (Suspended secret symbol st)) inputs)) 0 = Some t ->
  exists i rest st',
    inputs = (i, false) :: rest
    /\ market_step secret symbol st i = Some (t, st').
Proof.
  intros secret symbol [|[i d] rest] st t Hn; [discriminate|].
  rewrite run_cons in Hn. unfold event_generator, next in Hn.
  destruct (market_step secret symbol st i) as [[t0 st1]|] eqn:Hstep.
  - destruct d; cbn [fst snd] in Hn.
    + rewrite run_Finished in Hn. discriminate.
    + cbn in Hn. injection Hn as <-. exists i, rest, st1.
      split; [reflexivity | exact Hstep].
  - cbn [fst snd] in Hn. rewrite run_Finished in Hn. discriminate.
Qed.

(** What two steps in a row establish holds of any two ticks that reach
    the transport one after the other. *)
Lemma run_pairs : forall secret symbol (P : tick_input -> Prop)
    (R : tick -> tick -> Prop),
  (forall st i t st1 i' t' st2,
      P i -> P i' ->
      market_step secret symbol st i = Some (t, st1) ->
      market_step secret symbol st1 i' = Some (t', st2) -> R t t') ->
  forall inputs st,
    Forall (fun x => P (fst x)) inputs ->
    forall n t t',
      nth_error (fst (run (Streaming (Suspended secret symbol st)) inputs)) n = Some t ->
      nth_error (fst (run (Streaming (Suspended secret symbol st)) inputs)) (S n)
      = Some t' ->
      R t t'.
Proof.
  intros secret symbol P R HR inputs.
  induction inputs as [|[i d] rest IH]; intros st HP n t t' Hn Hn'.
  - destruct n; discriminate.
  - inversion HP as [|x l Hi Hrest]; subst. cbn [fst] in Hi.
    rewrite run_cons in Hn, Hn'. unfold event_generator, next in Hn, Hn'.
    destruct (market_step secret symbol st i) as [[t0 st1]|] eqn:Hstep.
    + destruct d; cbn [fst snd] in Hn, Hn'.
      * rewrite run_Finished in Hn. destruct n; discriminate.
      * destruct n as [|n].
        -- cbn [nth_error] in Hn, Hn'. injection Hn as ->.
           destruct (run_first _ _ _ _ _ Hn') as (i' & rest' & st2 & -> & Hstep').
           inversion Hrest as [|x l Hi' _]; subst. cbn [fst] in Hi'.
           exact (HR _ _ _ _ _ _ _ Hi Hi' Hstep Hstep').
        -- cbn [nth_error] in Hn, Hn'. exact (IH st1 Hrest n t t' Hn Hn').
    + cbn [fst snd] in Hn. rewrite run_Finished in Hn. destruct n; discriminate.
Qed.

(** X8 (latency step).  With jitter drawn in [-20, 20], the latency of the
    first envelope is within [30, 70], and the latencies of two envelopes in
    a row differ by 20 at most. *)
Theorem latency_step : forall env symbol inputs,
  Forall (fun x => jitter_in_range (fst x)) inputs ->
  (forall t,
      nth_error (fst (run (sse_market env symbol) inputs)) 0 = Some t ->
      exists l, field "latency_ms" t = Some (Json.JInt l) /\ 30 <= l <= 70)
  /\ (forall n t t',
        nth_error (fst (run (sse_market env symbol) inputs)) n = Some t ->
        nth_error (fst (run (sse_market env symbol) inputs)) (S n) = Some t' ->
        exists l l',
          field "latency_ms" t = Some (Json.JInt l)
          /\ field "latency_ms" t' = Some (Json.JInt l')
          /\ -20 <= l' - l <= 20).
Proof.
  intros env symbol inputs HP. split.
  - intros t Hn. unfold sse_market, market_stream in Hn.
    destruct (run_first _ _ _ _ _ Hn) as (i & rest & st' & -> & Hstep).
    inversion HP as [|x l Hi _]; subst. cbn [fst] in Hi.
    apply tick_fields in Hstep. destruct Hstep as (_ & _ & Hl & _).
    eexists. split; [exact Hl|].
    unfold jitter_in_range in Hi. unfold clamp_latency. cbn [latency_ms init_state]. lia.
  - intros n t t'. unfold sse_market, market_stream.
    apply (run_pairs _ _ jitter_in_range
             (fun t t' => exists l l',
                field "latency_ms" t = Some (Json.JInt l)
                /\ field "latency_ms" t' = Some (Json.JInt l')
                /\ -20 <= l' - l <= 20)); [|exact HP].
    intros st i t0 st1 i' t1 st2 Hi Hi' Hstep Hstep'.
    pose proof (tick_fields _ _ _ _ _ _ Hstep) as (_ & _ & Hl & _).
    pose proof (tick_fields _ _ _ _ _ _ Hstep') as (_ & _ & Hl' & _).
    apply market_step_inv in Hstep.
    destruct Hstep as (_ & _ & _ & _ & _ & _ & _ & _ & _ & Hs).
    eexists. eexists. split; [exact Hl|]. split; [exact Hl'|].
    rewrite Hs. unfold jitter_in_range in Hi'. unfold clamp_latency. lia.
Qed.

Lemma latency_step_witness :
  exists t t' l l',
    Forall (fun x => jitter_in_range (fst x)) sample_inputs
    /\ nth_error (fst (run (sse_market None None) sample_inputs)) 0 = Some t
    /\ nth_error (fst (run (sse_market None None) sample_inputs)) 1 = Some t'
    /\ field "latency_ms" t = Some (Json.JInt l)
    /\ field "latency_ms" t' = Some (Json.JInt l')
    /\ -20 <= l' - l <= 20.
Proof.
  pose proof sample_inputs_jitter as HP.
  pose proof (latency_step None None sample_inputs HP) as [_ H].
  pose proof sample_session_length as L.
  destruct (fst (run (sse_market None None) sample_inputs)) as [|t [|t' rest]];
    [discriminate L | discriminate L |]. clear L.
  destruct (H 0%nat t t' eq_refl eq_refl) as (l & l' & Hl & Hl' & Hd).
  exists t, t', l, l'. repeat split; try assumption; apply Hd.
Defined.

(** ** Prices before rounding *)

(** X9 (order before rounding).  With draws that are floats of the unit
    interval, each of the first [safe_ticks + 1] ticks has its open price
    strictly between its unrounded low and high, and its unrounded close
    between the two. *)
Theorem bar_unrounded_order : forall env symbol inputs,
  Forall (fun x => draws_in_unit (fst x)) inputs ->
  forall n t,
    nth_error (fst (run (sse_market env symbol) inputs)) n = Some t ->
    (n <= safe_ticks)%nat ->
    PrimFloat.ltb (low t) (open_price t) = true
    /\ PrimFloat.ltb (open_price t) (high t) = true
    /\ PrimFloat.leb (low t) (close t) = true
    /\ PrimFloat.leb (close t) (high t) = true.
Proof.
  intros env symbol inputs HP n t Hn Hle.
  assert (Hp : price_in_range (open_price t)).
  { apply (within_range (0 + n)); [exact Hle|].
    apply (run_within (getenv env (PyStr.lit "demo-secret"))
             (getenv symbol (PyStr.lit "BTC-USD")) inputs init_state 0%nat HP
             base_price_within n t); [exact Hn | exact Hle]. }
  pose proof (run_Forall_steps (getenv env (PyStr.lit "demo-secret"))
                (getenv symbol (PyStr.lit "BTC-USD")) draws_in_unit
                (fun t => price_in_range (open_price t) ->
                          PrimFloat.ltb (low t) (open_price t) = true
                          /\ PrimFloat.ltb (open_price t) (high t) = true
                          /\ PrimFloat.leb (low t) (close t) = true
                          /\ PrimFloat.leb (close t) (high t) = true))
    as HF.
  refine (proj1 (Forall_forall _ _) (HF _ inputs init_state HP) t
            (nth_error_In _ _ Hn) Hp).
  intros st i t0 st' Hi Hstep Hp0.
  destruct (tick_bar_ordered _ _ _ _ _ _ Hi Hstep Hp0) as (H1 & H2 & _ & H3 & H4 & _).
  repeat split; assumption.
Qed.

Lemma bar_unrounded_order_witness :
  exists t,
    Forall (fun x => draws_in_unit (fst x)) sample_inputs
    /\ nth_error (fst (run (sse_market None None) sample_inputs)) 2 = Some t
    /\ (2 <= safe_ticks)%nat
    /\ PrimFloat.ltb (low t) (open_price t) = true
    /\ PrimFloat.leb (close t) (high t) = true.
Proof.
  pose proof sample_inputs_draws as HP.
  assert (Hs : (2 <= safe_ticks)%nat) by (unfold safe_ticks; lia).
  pose proof (bar_unrounded_order None None sample_inputs HP 2%nat) as H.
  pose proof sample_session_length as L.
  destruct (fst (run (sse_market None None) sample_inputs)) as [|t0 [|t1 [|t rest]]];
    [discriminate L | discriminate L | discriminate L |]. clear L.
  exists t. split; [exact HP|]. split; [reflexivity|]. split; [exact Hs|].
  destruct (H t eq_refl Hs) as (H1 & _ & _ & H4). split; assumption.
Defined.

(** X10 (price envelope).  Over the first [safe_ticks + 1] ticks the price
    neither overflows nor underflows: the open price of tick [n] is a
    positive finite float within [68000 * (127/128)^n] and [68000 *
    (129/128)^n], which is within [1e-300, 1e300]. *)
Theorem price_envelope : forall env symbol inputs,
  Forall (fun x => draws_in_unit (fst x)) inputs ->
  forall n t,
    nth_error (fst (run (sse_market env symbol) inputs)) n = Some t ->
    (n <= safe_ticks)%nat ->
    nonneg (open_price t)
    /\ (68000 * (127 / 128) ^ n <= fval (open_price t) <= 68000 * (129 / 128) ^ n)%R
    /\ price_in_range (open_price t).
Proof.
  intros env symbol inputs HP n t Hn Hle.
  assert (Hw : within (0 + n) (open_price t)).
  { apply (run_within (getenv env (PyStr.lit "demo-secret"))
             (getenv symbol (PyStr.lit "BTC-USD")) inputs init_state 0%nat HP
             base_price_within n t); [exact Hn | exact Hle]. }
  pose proof (within_range _ _ Hle Hw) as Hp.
  destruct Hw as [Nn Hb]. split; [exact Nn|]. split; [exact Hb | exact Hp].
Qed.

Lemma price_envelope_witness :
  exists t,
    Forall (fun x => draws_in_unit (fst x)) sample_inputs
    /\ nth_error (fst (run (sse_market None None) sample_inputs)) 2 = Some t
    /\ (2 <= safe_ticks)%nat
    /\ price_in_range (open_price t).
Proof.
  pose proof sample_inputs_draws as HP.
  assert (Hs : (2 <= safe_ticks)%nat) by (unfold safe_ticks; lia).
  pose proof (price_envelope None None sample_inputs HP 2%nat) as H.
  pose proof sample_session_length as L.
  destruct (fst (run (sse_market None None) sample_inputs)) as [|t0 [|t1 [|t rest]]];
    [discriminate L | discriminate L | discriminate L |]. clear L.
  exists t. split; [exact HP|]. split; [reflexivity|]. split; [exact Hs|].
  exact (proj2 (proj2 (H t eq_refl Hs))).
Defined.

Lemma nonneg_floatstr : forall x, nonneg x -> Json.floatstr x = PyFloat.repr x.
Proof.
  intros x H. unfold nonneg in H. unfold Json.floatstr.
  destruct (Prim2SF x) as [s|s| |s m e]; try reflexivity; contradiction.
Qed.

(** X11 (finite bar fields).  Over the first [safe_ticks + 1] ticks the four
    prices of the emitted bar are finite floats that are not negative, so
    that the payload writes each of them as a decimal number, never as [NaN]
    or [Infinity]. *)
Theorem bar_fields_finite : forall env symbol inputs,
  Forall (fun x => draws_in_unit (fst x)) inputs ->
  forall n t,
    nth_error (fst (run (sse_market env symbol) inputs)) n = Some t ->
    (n <= safe_ticks)%nat ->
    Forall (fun k =>
              exists x,
                bar_field k t = Some (Json.JFloat x)
                /\ nonneg x
                /\ Json.floatstr x = PyFloat.repr x)
           [ "o"; "h"; "l"; "c" ]%string.
Proof.
  intros env symbol inputs HP n t Hn Hle.
  assert (Hp : price_in_range (open_price t)).
  { apply (within_range (0 + n)); [exact Hle|].
    apply (run_within (getenv env (PyStr.lit "demo-secret"))
             (getenv symbol (PyStr.lit "BTC-USD")) inputs init_state 0%nat HP
             base_price_within n t); [exact Hn | exact Hle]. }
  pose proof (run_Forall_steps (getenv env (PyStr.lit "demo-secret"))
                (getenv symbol (PyStr.lit "BTC-USD")) draws_in_unit
                (fun t => price_in_range (open_price t) ->
                   Forall (fun k =>
                             exists x,
                               bar_field k t = Some (Json.JFloat x)
                               /\ nonneg x
                               /\ Json.floatstr x = PyFloat.repr x)
                          [ "o"; "h"; "l"; "c" ]%string))
    as HF.
  refine (proj1 (Forall_forall _ _) (HF _ inputs init_state HP) t
            (nth_error_In _ _ Hn) Hp).
  intros st i t0 st' Hi Hstep Hp0.
  destruct (tick_bar_finite _ _ _ _ _ _ Hi Hstep Hp0) as (No & Nh & Nl & Nc).
  pose proof (tick_fields _ _ _ _ _ _ Hstep)
    as (_ & _ & _ & _ & _ & _ & Fo & Fh & Fl & Fc).
  repeat constructor; eexists;
    (split; [eassumption|]); (split; [assumption | apply nonneg_floatstr; assumption]).
Qed.

Lemma bar_fields_finite_witness :
  exists t x,
    Forall (fun x => draws_in_unit (fst x)) sample_inputs
    /\ nth_error (fst (run (sse_market None None) sample_inputs)) 1 = Some t
    /\ (1 <= safe_ticks)%nat
    /\ bar_field "c" t = Some (Json.JFloat x)
    /\ nonneg x.
Proof.
  pose proof sample_inputs_draws as HP.
  assert (Hs : (1 <= safe_ticks)%nat) by (unfold safe_ticks; lia).
  pose proof (bar_fields_finite None None sample_inputs HP 1%nat) as H.
  pose proof sample_session_length as L.
  destruct (fst (run (sse_market None None) sample_inputs)) as [|t0 [|t rest]];
    [discriminate L | discriminate L |]. clear L.
  pose proof (H t eq_refl Hs) as HF.
  inversion HF as [|? ? _ HF1]; subst. inversion HF1 as [|? ? _ HF2]; subst.
  inversion HF2 as [|? ? _ HF3]; subst. inversion HF3 as [|? ? Hc _]; subst.
  destruct Hc as (x & Hx & Nx & _).
  exists t, x. split; [exact HP|]. split; [reflexivity|]. split; [exact Hs|].
  split; assumption.
Defined.

(** X12 (continuity as numbers).  With draws that are floats of the unit
    interval, up to tick [safe_ticks] the [o] of a bar is a number that
    compares equal to the [c] of the bar before it: neither is a NaN. *)
Theorem open_equals_previous_close : forall env symbol inputs,
  Forall (fun x => draws_in_unit (fst x)) inputs ->
  forall n t t',
    nth_error (fst (run (sse_market env symbol) inputs)) n = Some t ->
    nth_error (fst (run (sse_market env symbol) inputs)) (S n) = Some t' ->
    (S n <= safe_ticks)%nat ->
    exists c o,
      bar_field "c" t = Some (Json.JFloat c)
      /\ bar_field "o" t' = Some (Json.JFloat o)
      /\ PrimFloat.eqb o c = true.
Proof.
  intros env symbol inputs HP n t t' Hn Hn' Hle.
  destruct (session_ticks env symbol inputs) as [st' [Hc _]].
  pose proof (ticks_from_next _ _ _ _ _ Hc _ _ _ Hn Hn') as Ho.
  pose proof (ticks_from_fields _ _ _ _ _ Hc) as HF.
  rewrite Forall_forall in HF.
  destruct (HF t (nth_error_In _ _ Hn)) as (_ & _ & _ & _ & _ & _ & _ & Fc).
  destruct (HF t' (nth_error_In _ _ Hn')) as (_ & _ & _ & _ & Fo & _).
  exists (PyFloat.round2 (close t)), (PyFloat.round2 (open_price t')).
  split; [exact Fc|]. split; [exact Fo|].
  rewrite <- Ho. apply eqb_nonneg_refl.
  assert (Hp : price_in_range (open_price t')).
  { apply (within_range (0 + S n)); [exact Hle|].
    apply (run_within (getenv env (PyStr.lit "demo-secret"))
             (getenv symbol (PyStr.lit "BTC-USD")) inputs init_state 0%nat HP
             base_price_within (S n) t'); [exact Hn' | exact Hle]. }
  pose proof (run_Forall_steps (getenv env (PyStr.lit "demo-secret"))
                (getenv symbol (PyStr.lit "BTC-USD")) draws_in_unit
                (fun t => price_in_range (open_price t) ->
                          nonneg (PyFloat.round2 (open_price t))))
    as HN.
  refine (proj1 (Forall_forall _ _) (HN _ inputs init_state HP) t'
            (nth_error_In _ _ Hn') Hp).
  intros st i t0 st1 Hi Hstep Hp0.
  exact (proj1 (tick_bar_finite _ _ _ _ _ _ Hi Hstep Hp0)).
Qed.

Lemma open_equals_previous_close_witness :
  exists t t' c o,
    Forall (fun x => draws_in_unit (fst x)) sample_inputs
    /\ nth_error (fst (run (sse_market None None) sample_inputs)) 1 = Some t
    /\ nth_error (fst (run (sse_market None None) sample_inputs)) 2 = Some t'
    /\ (2 <= safe_ticks)%nat
    /\ bar_field "c" t = Some (Json.JFloat c)
    /\ bar_field "o" t' = Some (Json.JFloat o)
    /\ PrimFloat.eqb o c = true.
Proof.
  pose proof sample_inputs_draws as HP.
  assert (Hs : (2 <= safe_ticks)%nat) by (unfold safe_ticks; lia).
  pose proof (open_equals_previous_close None None sample_inputs HP 1%nat) as H.
  pose proof sample_session_length as L.
  destruct (fst (run (sse_market None None) sample_inputs)) as [|t0 [|t [|t' rest]]];
    [discriminate L | discriminate L | discriminate L |]. clear L.
  destruct (H t t' eq_refl eq_refl Hs) as (c & o & Hc & Ho & He).
  exists t, t', c, o. repeat split; assumption.
Defined.

(** ** Rounding to cents, twice *)

Lemma rhe_unique : forall n d k,
  0 < d -> 2 * Z.abs (k * d - n) < d -> PyFloat.round_half_even_div n d = k.
Proof.
  intros n d k Hd Hk.
  destruct (rhe_nearest n d Hd) as (H & _ & _). cbv zeta in H.
  set (M := PyFloat.round_half_even_div n d) in *.
  destruct (Z.eq_dec M k) as [E|N]; [exact E|]. exfalso.
  assert (d <= Z.abs (M * d - k * d)).
  { replace (M * d - k * d) with ((M - k) * d) by ring.
    rewrite Z.abs_mul, (Z.abs_eq d) by lia.
    assert (1 <= Z.abs (M - k)) by lia. nia. }
  lia.
Qed.

(** The hundredths nearest to a float are within a half of a hundred times
    its value, and nothing else is strictly within. *)
Lemma cents_near : forall m e,
  (IZR (cents m e) - / 2 <= 100 * F2R (Zpos m) e <= IZR (cents m e) + / 2)%R.
Proof.
  intros m e. unfold cents.
  rewrite (F2R_split (Zpos m)).
  set (a := Z.max e 0). set (b := Z.max (- e) 0).
  assert (Hb : 0 <= b) by (unfold b; lia).
  assert (Hp : 0 < 2 ^ b) by (apply Z.pow_pos_nonneg; lia).
  destruct (rhe_nearest (Zpos m * 100 * 2 ^ a) (2 ^ b) Hp) as (H & _ & _).
  cbv zeta in H.
  set (K := PyFloat.round_half_even_div (Zpos m * 100 * 2 ^ a) (2 ^ b)) in *.
  unfold F2R.
  pose proof (pow2_neg b Hb) as Hn. pose proof (pow2_pos (- b)) as Hpos.
  assert (H1 : (2 * (IZR K * IZR (2 ^ b) - 100 * IZR (Zpos m * 2 ^ a)) <= IZR (2 ^ b))%R).
  { rewrite <- !mult_IZR, <- minus_IZR, <- mult_IZR. apply IZR_le. lia. }
  assert (H2 : (- IZR (2 ^ b)
                <= 2 * (IZR K * IZR (2 ^ b) - 100 * IZR (Zpos m * 2 ^ a)))%R).
  { rewrite <- !mult_IZR, <- minus_IZR, <- mult_IZR, <- opp_IZR. apply IZR_le. lia. }
  set (B := IZR (2 ^ b)) in *. set (X := IZR (Zpos m * 2 ^ a)) in *.
  set (P := pow2 (- b)) in *.
  assert (E1 : (IZR K = IZR K * B * P)%R)
    by (rewrite Rmult_assoc, (Rmult_comm B), Hn; ring).
  assert (E2 : (/ 2 = / 2 * B * P)%R) by (rewrite Rmult_assoc, (Rmult_comm B), Hn; ring).
  split.
  - rewrite E1, E2. nra.
  - rewrite E1, E2. nra.
Qed.

Lemma cents_unique : forall m e k,
  (IZR k - / 2 < 100 * F2R (Zpos m) e < IZR k + / 2)%R -> cents m e = k.
Proof.
  intros m e k [H1 H2].
  pose proof (cents_near m e) as [N1 N2].
  assert (L : (IZR (cents m e) < IZR k + 1)%R) by lra.
  assert (U : (IZR k < IZR (cents m e) + 1)%R) by lra.
  rewrite <- plus_IZR in L, U. apply lt_IZR in L. apply lt_IZR in U. lia.
Qed.

(** Rounding moves a number below [2^E] by half a unit in the last place
    at most. *)
Lemma rounds_error : forall x z E,
  rounds x z -> nonneg_finite z -> (x < pow2 E)%R -> -1021 <= E ->
  (x - pow2 (E - 54) <= SF2R z <= x + pow2 (E - 54))%R.
Proof.
  intros x z E (m & e & Hx & He & Hz) Hn Hlt HE.
  destruct (rounds_value m e He) as [(_ & _ & Hs)|(Hi & _)];
    [|rewrite <- Hz in Hi; rewrite Hi in Hn; contradiction].
  rewrite <- Hz in Hs. rewrite Hs. clear Hs Hz Hn z.
  set (c := cexp (Zpos m) e) in *.
  assert (Hc : c <= E - 53).
  { unfold c. rewrite cexp_unfold.
    destruct (F2R_binade (Zpos m) e ltac:(lia)) as [L _].
    rewrite <- Hx in L.
    destruct (Z.le_gt_cases E (Zdigits2 (Zpos m) + e - 1)) as [Hge|Hlt'].
    - pose proof (pow2_le _ _ Hge). lra.
    - lia. }
  unfold rnd_int. fold c.
  set (s := c - e) in *.
  assert (Hs0 : 0 <= s) by (unfold s; lia).
  assert (Hp : 0 < 2 ^ s) by (apply Z.pow_pos_nonneg; lia).
  destruct (rhe_nearest (Zpos m) (2 ^ s) Hp) as (H & _ & _). cbv zeta in H.
  set (R := PyFloat.round_half_even_div (Zpos m) (2 ^ s)) in *.
  replace c with (e + s) by (unfold s; lia).
  rewrite <- (F2R_shift R e s Hs0).
  assert (Hh : (pow2 (e + s - 1) <= pow2 (E - 54))%R)
    by (apply pow2_le; unfold s; lia).
  assert (Hhalf : (2 * pow2 (e + s - 1) = IZR (2 ^ s) * pow2 e)%R).
  { replace (e + s - 1) with (-1 + (s + e)) by lia.
    rewrite !pow2_add, (pow2_IZR s Hs0).
    replace (pow2 (-1)) with (/ 2)%R; [field|].
    unfold pow2. simpl. lra. }
  rewrite Hx. unfold F2R in *.
  assert (H1 : (2 * (IZR (R * 2 ^ s) - IZR (Zpos m)) <= IZR (2 ^ s))%R).
  { rewrite <- minus_IZR, <- mult_IZR. apply IZR_le. lia. }
  assert (H2 : (- IZR (2 ^ s) <= 2 * (IZR (R * 2 ^ s) - IZR (Zpos m)))%R).
  { rewrite <- minus_IZR, <- mult_IZR, <- opp_IZR. apply IZR_le. lia. }
  pose proof (pow2_pos e) as Pe.
  set (A := IZR (R * 2 ^ s)) in *. set (B := IZR (Zpos m)) in *.
  set (S := IZR (2 ^ s)) in *. set (Q := pow2 e) in *.
  split; nra.
Qed.

(** The numerator that [float_of_ratio] rounds is within [2^-70] of the
    hundredths it stands for. *)
Lemma ratio_mantissa_near : forall k, 0 <= k ->
  (IZR k / 100 - pow2 (-70) <= F2R (ratio_mantissa k) (-71)
   <= IZR k / 100 + pow2 (-70))%R.
Proof.
  intros k Hk. unfold ratio_mantissa.
  assert (H70 : 2 ^ 70 = 1180591620717411303424) by reflexivity.
  pose proof (Z.div_mod (k * 2 ^ 70) 100 ltac:(lia)) as Hd.
  pose proof (Z.mod_pos_bound (k * 2 ^ 70) 100 ltac:(lia)) as Hm.
  set (q := (k * 2 ^ 70) / 100) in *. set (r := (k * 2 ^ 70) mod 100) in *.
  set (M := 2 * q + (if r =? 0 then 0 else 1)).
  assert (HM : 2 * q <= M <= 2 * q + 1) by (unfold M; destruct (r =? 0); lia).
  assert (L : 100 * M - 200 <= 2 * (k * 2 ^ 70)) by lia.
  assert (U : 2 * (k * 2 ^ 70) <= 100 * M + 200) by lia.
  apply IZR_le in L. apply IZR_le in U.
  rewrite minus_IZR, !mult_IZR in L. rewrite plus_IZR, !mult_IZR in U.
  unfold F2R.
  pose proof (pow2_neg 71 ltac:(lia)) as N71. cbn [Z.opp] in N71.
  pose proof (pow2_neg 70 ltac:(lia)) as N70. cbn [Z.opp] in N70.
  pose proof (pow2_pos (-71)) as P71. pose proof (pow2_pos (-70)) as P70.
  assert (E : (IZR (2 ^ 71) = 2 * IZR (2 ^ 70))%R).
  { rewrite <- mult_IZR. f_equal. }
  set (T := IZR (2 ^ 70)) in *. set (V := IZR (2 ^ 71)) in *.
  set (a := pow2 (-71)) in *. set (b := pow2 (-70)) in *.
  assert (Eb : (b = 2 * a)%R).
  { assert (b * T = a * V)%R by lra. rewrite E in H.
    assert (0 < T)%R by (unfold T; apply IZR_lt; lia). nra. }
  assert (Ea : (a * T = / 2)%R) by (rewrite E in N71; lra).
  fold M. set (m := IZR M) in *. set (kk := IZR k) in *.
  change (IZR 100) with 100%R in *. change (IZR 200) with 200%R in *.
  change (IZR 2) with 2%R in *.
  assert (X1 : ((100 * m - 200) * a <= 2 * (kk * T) * a)%R) by nra.
  assert (X2 : (2 * (kk * T) * a <= (100 * m + 200) * a)%R) by nra.
  replace (2 * (kk * T) * a)%R with (2 * kk * (a * T))%R in X1, X2 by ring.
  rewrite Ea in X1, X2.
  split; lra.
Qed.

Lemma pow2_m8 : pow2 (-8) = (/ 256)%R.
Proof.
  pose proof (pow2_neg 8 ltac:(lia)) as H. cbn [Z.opp] in H.
  change (2 ^ 8) with 256 in H. lra.
Qed.

Lemma pow2_m12 : pow2 (-12) = (/ 4096)%R.
Proof.
  pose proof (pow2_neg 12 ltac:(lia)) as H. cbn [Z.opp] in H.
  change (2 ^ 12) with 4096 in H. lra.
Qed.

(** A float of at most [2^45], once rounded to cents, is within [0.0042]
    of the decimal it was rounded to. *)
Lemma round2_near : forall x m e,
  Prim2SF x = S754_finite false m e ->
  (F2R (Zpos m) e <= pow2 45)%R ->
  0 < cents m e ->
  nonneg (PyFloat.round2 x)
  /\ (IZR (cents m e) / 100 - 17 / 4096 <= fval (PyFloat.round2 x)
      <= IZR (cents m e) / 100 + 17 / 4096)%R.
Proof.
  intros x m e P Hb Hk.
  rewrite (round2_finite x m e P).
  destruct (Z.eqb_spec (cents m e) 0) as [E0|_]; [lia|].
  pose proof (cents_near m e) as [Cl _].
  pose proof (ratio_mantissa_near (cents m e) ltac:(lia)) as [Ml Mu].
  pose proof (ratio_mantissa_pos (cents m e) Hk) as Hp.
  destruct (ratio_mantissa (cents m e)) as [|p|p] eqn:Er; try lia.
  rewrite ?Er in Ml, Mu.
  cbn [binary_normalize].
  pose proof (binary_round_rounds p (-71)) as Hr.
  pose proof (pow2_le (-70) (-12) ltac:(lia)) as H70. rewrite pow2_m12 in H70.
  pose proof (pow2_pos (-70)) as P70.
  assert (H45 : pow2 45 = 35184372088832%R).
  { rewrite pow2_IZR by lia. reflexivity. }
  assert (H46 : pow2 46 = 70368744177664%R).
  { rewrite pow2_IZR by lia. reflexivity. }
  assert (Hlt : (F2R (Zpos p) (-71) < pow2 46)%R) by lra.
  destruct (rounds_upper _ _ (pow2 46) Hr) as (Hn & Hv & _).
  { lra. }
  { apply representable_pow2. lia. }
  { apply pow2_lt. lia. }
  pose proof (rounds_error _ _ 46 Hr Hn Hlt ltac:(lia)) as [El Eu].
  replace (46 - 54) with (-8) in El, Eu by lia. rewrite pow2_m8 in El, Eu.
  unfold nonneg, fval. rewrite Prim2SF_SF2Prim by exact Hv.
  split; [exact Hn|]. split; lra.
Qed.

(** Such a rounded float has the same nearest hundredths as the float it
    comes from. *)
Lemma round2_cents : forall x m e,
  Prim2SF x = S754_finite false m e ->
  (F2R (Zpos m) e <= pow2 45)%R ->
  0 < cents m e ->
  exists m' e',
    Prim2SF (PyFloat.round2 x) = S754_finite false m' e'
    /\ cents m' e' = cents m e.
Proof.
  intros x m e P Hb Hk.
  destruct (round2_near x m e P Hb Hk) as [Hn [Hl Hu]].
  assert (H1 : (1 <= IZR (cents m e))%R) by (apply IZR_le; lia).
  destruct (nonneg_cases _ Hn) as [(s & _ & E)|(m' & e' & P' & E & _)].
  - exfalso. rewrite E in Hl. lra.
  - exists m', e'. split; [exact P'|].
    apply cents_unique. rewrite <- E. split; lra.
Qed.

(** [round(x, 2)] leaves unchanged what it has returned: for a float [x]
    that is not negative and at most [2^45], rounding [round(x, 2)] to two
    decimals again gives the same float. *)
Lemma round2_idempotent : forall x,
  nonneg x -> (fval x <= pow2 45)%R ->
  PyFloat.round2 (PyFloat.round2 x) = PyFloat.round2 x.
Proof.
  intros x Hx Hb.
  destruct (nonneg_cases x Hx) as [(s & P & _)|(m & e & P & E & _)].
  - rewrite (round2_zero x s P). apply (round2_zero x s P).
  - rewrite E in Hb.
    destruct (Z.eq_dec (cents m e) 0) as [E0|N0].
    + rewrite (round2_finite x m e P), E0. reflexivity.
    + pose proof (cents_nonneg m e) as Hc.
      destruct (round2_cents x m e P Hb ltac:(lia)) as (m' & e' & P' & Ek).
      rewrite (round2_finite _ m' e' P'), Ek.
      symmetry. apply (round2_finite x m e P).
Qed.

(** For such a float, [round(x, 2)] is within one cent of [x]. *)
Lemma round2_within_a_cent : forall x,
  nonneg x -> (fval x <= pow2 45)%R ->
  nonneg (PyFloat.round2 x)
  /\ (fval x - / 100 <= fval (PyFloat.round2 x) <= fval x + / 100)%R.
Proof.
  intros x Hx Hb.
  destruct (nonneg_cases x Hx) as [(s & P & _)|(m & e & P & E & _)].
  - rewrite (round2_zero x s P). split; [exact Hx | lra].
  - rewrite E in *. pose proof (cents_near m e) as [Cl Cu].
    destruct (Z.eq_dec (cents m e) 0) as [E0|N0].
    + rewrite (round2_finite x m e P), E0. cbn [Z.eqb].
      split; [exact I|]. change (fval PrimFloat.zero) with 0%R.
      rewrite E0 in Cl, Cu.
      pose proof (F2R_pos (Zpos m) e ltac:(lia)). lra.
    + pose proof (cents_nonneg m e) as Hc.
      destruct (round2_near x m e P Hb ltac:(lia)) as [Hn [Hl Hu]].
      split; [exact Hn|]. lra.
Qed.

Lemma cents_limit_value : nonneg cents_limit /\ fval cents_limit = pow2 45.
Proof.
  destruct (const_value cents_limit 4503599627370496%positive (-7) eq_refl)
    as [N V].
  split; [exact N|]. rewrite V.
  change (Zpos 4503599627370496) with (2 ^ 52). rewrite F2R_pow2 by lia.
  reflexivity.
Qed.

(** The four prices of a tick whose [high] is at most [2^45]. *)
Lemma tick_below_limit : forall secret symbol st i t st',
  draws_in_unit i ->
  market_step secret symbol st i = Some (t, st') ->
  price_in_range (open_price t) ->
  (fval (high t) <= pow2 45)%R ->
  Forall (fun v => nonneg v /\ (fval v <= pow2 45)%R)
         [ open_price t; high t; low t; close t ].
Proof.
  intros secret symbol st i t st' (H1 & H2 & H3) Hstep Hp Hh.
  apply market_step_inv in Hstep.
  destruct Hstep as (Eo & Eh & El & Ec & _).
  rewrite <- Eo in Eh, El.
  pose proof (bar_values (open_price t) _ _ _ Hp H1 H2 H3) as Hb.
  cbv zeta in Hb. rewrite <- Eh, <- El, <- Ec in Hb.
  destruct Hb as (Np & Nh & Nl & Nc & [Hlp Hph] & [Hlc Hch] & _).
  repeat (apply Forall_cons; [split; [assumption | lra]|]). apply Forall_nil.
Qed.

(** X13 (emitted cents).  With draws that are floats of the unit interval,
    in each of the first [cents_ticks] ticks, and in each later tick up to
    [safe_ticks] whose [high] is at most [2^45], every price of the emitted
    bar is a float that [round(., 2)] leaves unchanged, within one cent of
    the price before rounding. *)
Theorem bar_fields_cents : forall env symbol inputs,
  Forall (fun x => draws_in_unit (fst x)) inputs ->
  forall n t,
    nth_error (fst (run (sse_market env symbol) inputs)) n = Some t ->
    (n <= safe_ticks)%nat ->
    (n < cents_ticks)%nat \/ PrimFloat.leb (high t) cents_limit = true ->
    Forall (fun kv =>
              exists y,
                bar_field (fst kv) t = Some (Json.JFloat y)
                /\ PyFloat.round2 y = y
                /\ (fval (snd kv) - / 100 <= fval y <= fval (snd kv) + / 100)%R)
           [ ("o", open_price t); ("h", high t); ("l", low t); ("c", close t) ]%string.
Proof.
  intros env symbol inputs HP n t Hn Hle Hlim.
  assert (Hw : within (0 + n) (open_price t)).
  { apply (run_within (getenv env (PyStr.lit "demo-secret"))
             (getenv symbol (PyStr.lit "BTC-USD")) inputs init_state 0%nat HP
             base_price_within n t); [exact Hn | exact Hle]. }
  pose proof (within_range _ _ Hle Hw) as Hp.
  pose proof (run_Forall_steps (getenv env (PyStr.lit "demo-secret"))
                (getenv symbol (PyStr.lit "BTC-USD")) draws_in_unit
                (fun t =>
                   price_in_range (open_price t) ->
                   (fval (open_price t) * (1 + / 128) <= pow2 45)%R
                   \/ PrimFloat.leb (high t) cents_limit = true ->
                   Forall (fun kv =>
                     exists y,
                       bar_field (fst kv) t = Some (Json.JFloat y)
                       /\ PyFloat.round2 y = y
                       /\ (fval (snd kv) - / 100 <= fval y <= fval (snd kv) + / 100)%R)
                     [ ("o", open_price t); ("h", high t); ("l", low t);
                       ("c", close t) ]%string))
    as HF.
  refine (proj1 (Forall_forall _ _) (HF _ inputs init_state HP) t
            (nth_error_In _ _ Hn) Hp _).
  - intros st i t0 st' Hi Hstep Hp0 Hl0.
    assert (Hh : (fval (high t0) <= pow2 45)%R).
    { pose proof Hstep as Hinv. apply market_step_inv in Hinv.
      destruct Hinv as (Eo & Eh & El & Ec & _). rewrite <- Eo in Eh, El.
      destruct Hi as (H1 & H2 & H3).
      pose proof (bar_values (open_price t0) _ _ _ Hp0 H1 H2 H3) as Hb.
      cbv zeta in Hb. rewrite <- Eh, <- El, <- Ec in Hb.
      destruct Hb as (_ & Nh & _ & _ & _ & _ & _ & Hu & _).
      destruct Hl0 as [Hl0|Hl0]; [lra|].
      destruct cents_limit_value as [Nlim Vlim].
      rewrite <- Vlim. apply (leb_nonneg _ _ Nh Nlim). exact Hl0. }
    pose proof (tick_below_limit _ _ _ _ _ _ Hi Hstep Hp0 Hh) as HB.
    pose proof (tick_fields _ _ _ _ _ _ Hstep)
      as (_ & _ & _ & _ & _ & _ & Fo & Fh & Fl & Fc).
    inversion HB as [|? ? [No Bo] HB1]; subst.
    inversion HB1 as [|? ? [Nh Bh] HB2]; subst.
    inversion HB2 as [|? ? [Nl Bl] HB3]; subst.
    inversion HB3 as [|? ? [Nc Bc] _]; subst.
    repeat (apply Forall_cons;
            [eexists; split; [eassumption|]; split;
             [apply round2_idempotent; assumption
             |apply round2_within_a_cent; assumption]|]).
    apply Forall_nil.
  - destruct Hlim as [Hlt|Hlim]; [left | right; exact Hlim].
    destruct Hw as [Np [_ Hu]]. cbn [Nat.add] in Hu.
    pose proof (pow_lt (129 / 128) n ltac:(lra)) as Hpos.
    assert (H1 : (fval (open_price t) * (1 + / 128) <= 68000 * (129 / 128) ^ S n)%R).
    { cbn [pow]. nra. }
    apply Rle_trans with (1 := H1).
    apply Rle_trans with (68000 * (129 / 128) ^ cents_ticks)%R.
    + apply Rmult_le_compat_l; [lra|]. apply Rle_pow; [lra | lia].
    + unfold cents_ticks. rewrite pow_mult.
      apply Rle_trans with (68000 * (271 / 100) ^ 20)%R.
      * apply Rmult_le_compat_l; [lra|]. apply pow_incr. lra.
      * rewrite pow2_IZR by lia.
        let v := eval vm_compute in (2 ^ 45) in change (2 ^ 45) with v. lra.
Qed.

Lemma bar_fields_cents_witness :
  exists t y,
    Forall (fun x => draws_in_unit (fst x)) sample_inputs
    /\ nth_error (fst (run (sse_market None None) sample_inputs)) 1 = Some t
    /\ (1 <= safe_ticks)%nat
    /\ (1 < cents_ticks)%nat
    /\ bar_field "c" t = Some (Json.JFloat y)
    /\ PyFloat.round2 y = y.
Proof.
  pose proof sample_inputs_draws as HP.
  assert (Hs : (1 <= safe_ticks)%nat) by (unfold safe_ticks; lia).
  assert (Hc : (1 < cents_ticks)%nat) by (unfold cents_ticks; lia).
  pose proof (bar_fields_cents None None sample_inputs HP 1%nat) as H.
  pose proof sample_session_length as L.
  destruct (fst (run (sse_market None None) sample_inputs)) as [|t0 [|t rest]];
    [discriminate L | discriminate L |]. clear L.
  pose proof (H t eq_refl Hs (or_introl Hc)) as HF.
  inversion HF as [|? ? _ HF1]; subst. inversion HF1 as [|? ? _ HF2]; subst.
  inversion HF2 as [|? ? _ HF3]; subst. inversion HF3 as [|? ? Hy _]; subst.
  destruct Hy as (y & Hy & Hr & _). cbn [fst] in Hy.
  exists t, y. repeat split; assumption.
Defined.

(** ** When the signer raises *)

Lemma encode_cp_surrogate : forall c,
  is_code_point c = true ->
  (PyStr.encode_cp c = None <-> is_surrogate c = true).
Proof.
  intros c Hc. unfold is_code_point in Hc. apply andb_true_iff in Hc.
  destruct Hc as [H0 H1]. apply Z.leb_le in H0. apply Z.leb_le in H1.
  unfold PyStr.encode_cp, is_surrogate.
  destruct (Z.ltb_spec c 0); [lia|].
  destruct (Z.ltb_spec c 128).
  { split; [discriminate|]. intros E. apply andb_true_iff in E.
    destruct E as [E _]. apply Z.leb_le in E. lia. }
  destruct (Z.ltb_spec c 2048).
  { split; [discriminate|]. intros E. apply andb_true_iff in E.
    destruct E as [E _]. apply Z.leb_le in E. lia. }
  destruct ((55296 <=? c) && (c <=? 57343)); [split; reflexivity|].
  destruct (Z.ltb_spec c 65536); [split; discriminate|].
  destruct (Z.leb_spec c 1114111); [split; discriminate | lia].
Qed.

Lemma encode_surrogate : forall s,
  forallb is_code_point s = true ->
  (PyStr.encode s = None <-> existsb is_surrogate s = true).
Proof.
  induction s as [|c s IH]; intros H.
  - split; discriminate.
  - cbn [forallb] in H. apply andb_true_iff in H. destruct H as [Hc Hs].
    cbn [PyStr.encode existsb].
    pose proof (encode_cp_surrogate c Hc) as Ec. specialize (IH Hs).
    destruct (PyStr.encode_cp c) as [b|].
    + destruct (is_surrogate c);
        [exfalso; destruct Ec as [_ E]; discriminate (E eq_refl)|].
      cbn [orb]. destruct (PyStr.encode s) as [bs|].
      * split; [discriminate|]. intros E. apply IH in E. discriminate.
      * split; [intros _; apply IH; reflexivity | reflexivity].
    + rewrite (proj1 Ec eq_refl). split; reflexivity.
Qed.

(** X14 (when the signer raises).  On strings of code points, [sign_payload]
    raises exactly when the secret or the payload holds a surrogate;
    otherwise it returns a signature. *)
Theorem sign_payload_raises : forall secret payload,
  forallb is_code_point secret = true ->
  forallb is_code_point payload = true ->
  (sign_payload secret payload = None
   <-> existsb is_surrogate (secret ++ payload) = true).
Proof.
  intros secret payload Hs Hp. unfold sign_payload.
  rewrite existsb_app, orb_true_iff.
  rewrite <- (encode_surrogate secret Hs), <- (encode_surrogate payload Hp).
  destruct (PyStr.encode secret) as [k|], (PyStr.encode payload) as [m|].
  - split; [discriminate | intros [H|H]; discriminate].
  - split; [right; reflexivity | reflexivity].
  - split; [left; reflexivity | reflexivity].
  - split; [left; reflexivity | reflexivity].
Qed.

Lemma sign_payload_raises_witness :
  forallb is_code_point (PyStr.lit "demo-secret") = true
  /\ forallb is_code_point [123; 0xD83D; 125] = true
  /\ sign_payload (PyStr.lit "demo-secret") [123; 0xD83D; 125] = None.
Proof.
  split; [reflexivity|]. split; [reflexivity|].
  apply (sign_payload_raises (PyStr.lit "demo-secret") [123; 0xD83D; 125]);
    reflexivity.
Defined.

Lemma encode_app : forall a b ka kb,
  PyStr.encode a = Some ka -> PyStr.encode b = Some kb ->
  PyStr.encode (a ++ b) = Some (ka ++ kb).
Proof.
  induction a as [|c a IH]; intros b ka kb Ha Hb.
  - injection Ha as <-. exact Hb.
  - cbn [PyStr.encode app] in *.
    destruct (PyStr.encode_cp c) as [bc|]; [|discriminate].
    destruct (PyStr.encode a) as [ba|]; [|discriminate].
    injection Ha as <-. rewrite (IH b ba kb eq_refl Hb).
    rewrite app_assoc. reflexivity.
Qed.

Lemma key_block_nul : forall key,
  (length key < Hmac.block_size)%nat ->
  Hmac.key_block (key ++ [0]) = Hmac.key_block key.
Proof.
  intros key H. unfold Hmac.key_block. rewrite length_app. cbn [length].
  destruct (Nat.leb_spec (length key + 1) Hmac.block_size); [|lia].
  destruct (Nat.leb_spec (length key) Hmac.block_size); [|lia].
  rewrite length_app. cbn [length].
  replace (Hmac.block_size - length key)%nat
    with (S (Hmac.block_size - (length key + 1)))%nat by lia.
  cbn [repeat]. rewrite <- app_assoc. reflexivity.
Qed.

(** X15 (zero padding of the key).  The signer does not tell a secret of
    fewer than 64 bytes from the same secret followed by a NUL character:
    the key is padded with zeros. *)
Theorem sign_payload_trailing_nul : forall secret payload key,
  PyStr.encode secret = Some key ->
  (length key < 64)%nat ->
  sign_payload (secret ++ [0]) payload = sign_payload secret payload.
Proof.
  intros secret payload key Hk Hl. unfold sign_payload.
  rewrite (encode_app secret [0] key [0] Hk eq_refl), Hk.
  destruct (PyStr.encode payload) as [m|]; [|reflexivity].
  unfold Hmac.hexdigest, Hmac.digest. rewrite (key_block_nul key Hl). reflexivity.
Qed.

Lemma sign_payload_trailing_nul_witness :
  PyStr.encode (PyStr.lit "demo-secret") = Some (PyStr.lit "demo-secret")
  /\ (length (PyStr.lit "demo-secret") < 64)%nat
  /\ sign_payload (PyStr.lit "demo-secret" ++ [0]) (PyStr.lit "{}")
     = sign_payload (PyStr.lit "demo-secret") (PyStr.lit "{}").
Proof.
  assert (L : (length (PyStr.lit "demo-secret") < 64)%nat) by (cbn; lia).
  split; [reflexivity|]. split; [exact L|].
  exact (sign_payload_trailing_nul (PyStr.lit "demo-secret") (PyStr.lit "{}")
           (PyStr.lit "demo-secret") eq_refl L).
Defined.

(** ** How many events a session sends *)

Lemma run_until_disconnect : forall secret key symbol inputs st,
  PyStr.encode secret = Some key ->
  length (fst (run (Streaming (Suspended secret symbol st)) inputs))
  = length (until_disconnect inputs)
  /\ if existsb snd inputs
     then snd (run (Streaming (Suspended secret symbol st)) inputs) = Finished
     else exists st',
            snd (run (Streaming (Suspended secret symbol st)) inputs)
            = Streaming (Suspended secret symbol st').
Proof.
  intros secret key symbol inputs st Hk. revert st.
  induction inputs as [|[i d] rest IH]; intros st.
  - split; [reflexivity | exists st; reflexivity].
  - rewrite run_cons. unfold event_generator, next.
    destruct (market_step_total secret key symbol st i Hk) as (t & st1 & Hstep).
    rewrite Hstep. destruct d; cbn [fst snd existsb orb until_disconnect length].
    + rewrite run_Finished. split; reflexivity.
    + destruct (IH st1) as [Hlen Hst]. rewrite Hlen. split; [reflexivity | exact Hst].
Qed.

(** X16 (events per session).  With a secret that can be encoded, a session
    sends one event for each request up to the first that finds the client
    gone, and none for that request or after it; it has finished exactly
    when some request found the client gone. *)
Theorem session_event_count : forall env symbol inputs key,
  PyStr.encode (getenv env (PyStr.lit "demo-secret")) = Some key ->
  length (fst (run (sse_market env symbol) inputs)) = length (until_disconnect inputs)
  /\ if existsb snd inputs
     then snd (run (sse_market env symbol) inputs) = Finished
     else exists st, session_state (snd (run (sse_market env symbol) inputs)) = Some st.
Proof.
  intros env symbol inputs key Hk. unfold sse_market, market_stream.
  destruct (run_until_disconnect _ key
              (getenv (Some (getenv symbol (PyStr.lit "BTC-USD"))) (PyStr.lit "BTC-USD"))
              inputs init_state Hk) as [Hlen Hst].
  split; [exact Hlen|].
  destruct (existsb snd inputs); [exact Hst|].
  destruct Hst as [st' Hst]. exists st'. rewrite Hst. reflexivity.
Qed.

Lemma session_event_count_witness :
  PyStr.encode (getenv None (PyStr.lit "demo-secret")) = Some (PyStr.lit "demo-secret")
  /\ length (fst (run (sse_market None None)
                      [ (sample_input 0, false); (sample_input 1, true);
                        (sample_input 2, false) ])) = 1%nat.
Proof.
  split; [reflexivity|].
  exact (proj1 (session_event_count None None
                  [ (sample_input 0, false); (sample_input 1, true);
                    (sample_input 2, false) ]
                  (PyStr.lit "demo-secret") eq_refl)).
Defined.

(** X17 (unencodable secret).  With a secret that cannot be encoded, the
    generator raises while it signs its first payload: the session ends at
    the first request, and no event is ever sent. *)
Theorem unencodable_secret_ends_stream : forall secret symbol i d rest,
  PyStr.encode secret = None ->
  run (sse_market (Some secret) symbol) ((i, d) :: rest) = ([], Finished).
Proof.
  intros secret symbol i d rest Hk. rewrite run_cons.
  unfold sse_market, market_stream, event_generator, next, market_step, sign_payload.
  cbn [getenv]. rewrite Hk. cbn [fst snd]. rewrite run_Finished. reflexivity.
Qed.

Lemma unencodable_secret_ends_stream_witness :
  PyStr.encode [0xDC80] = None
  /\ run (sse_market (Some [0xDC80]) None) sample_inputs = ([], Finished).
Proof.
  split; [reflexivity|].
  exact (unencodable_secret_ends_stream [0xDC80] None _ _ _ eq_refl).
Defined.

(** ** The encoding of strings *)

Lemma land_high_low : forall a x k,
  0 <= k -> 0 <= x < 2 ^ k -> Z.land (a * 2 ^ k) x = 0.
Proof.
  intros a x k Hk Hx. apply Z.bits_inj'. intros n Hn.
  rewrite Z.land_spec, Z.bits_0.
  destruct (Z.lt_ge_cases n k) as [Hlt|Hge].
  - rewrite Z.mul_pow2_bits_low by lia. reflexivity.
  - destruct (Z.eq_dec x 0) as [->|Hx0].
    + rewrite Z.bits_0. apply andb_false_r.
    + rewrite (Z.bits_above_log2 x n); [apply andb_false_r | lia |].
      apply Z.lt_le_trans with k; [|exact Hge].
      apply Z.log2_lt_pow2; lia.
Qed.

Lemma lor_high_low : forall a x k,
  0 <= k -> 0 <= x < 2 ^ k -> Z.lor (a * 2 ^ k) x = a * 2 ^ k + x.
Proof.
  intros a x k Hk Hx.
  pose proof (Z.add_lor_land (a * 2 ^ k) x) as H.
  rewrite (land_high_low a x k Hk Hx) in H. lia.
Qed.

(** The bytes of one code point, in arithmetic. *)
Lemma encode_cp_bytes : forall c,
  PyStr.encode_cp c
  = if c <? 0 then None
    else if c <? 128 then Some [c]
    else if c <? 2048 then Some [192 + c / 64; 128 + c mod 64]
    else if (55296 <=? c) && (c <=? 57343) then None
    else if c <? 65536 then
      Some [224 + c / 4096; 128 + (c / 64) mod 64; 128 + c mod 64]
    else if c <=? 1114111 then
      Some [240 + c / 262144; 128 + (c / 4096) mod 64; 128 + (c / 64) mod 64;
            128 + c mod 64]
    else None.
Proof.
  intros c. unfold PyStr.encode_cp.
  change 0x3F with (Z.ones 6). rewrite !Z.land_ones by lia.
  rewrite !Z.shiftr_div_pow2 by lia.
  change (2 ^ 6) with 64. change (2 ^ 12) with 4096. change (2 ^ 18) with 262144.
  destruct (Z.ltb_spec c 0); [reflexivity|].
  destruct (Z.ltb_spec c 128); [reflexivity|].
  destruct (Z.ltb_spec c 2048).
  { f_equal. f_equal; [|f_equal].
    - apply (lor_high_low 3 (c / 64) 6); [lia|].
      split; [apply Z.div_pos; lia | apply Z.div_lt_upper_bound; lia].
    - apply (lor_high_low 2 (c mod 64) 6); [lia|]. apply Z.mod_pos_bound. lia. }
  destruct ((55296 <=? c) && (c <=? 57343)); [reflexivity|].
  destruct (Z.ltb_spec c 65536).
  { f_equal. f_equal; [|f_equal; [|f_equal]].
    - apply (lor_high_low 14 (c / 4096) 4); [lia|].
      split; [apply Z.div_pos; lia | apply Z.div_lt_upper_bound; lia].
    - apply (lor_high_low 2 ((c / 64) mod 64) 6); [lia|]. apply Z.mod_pos_bound. lia.
    - apply (lor_high_low 2 (c mod 64) 6); [lia|]. apply Z.mod_pos_bound. lia. }
  destruct (Z.leb_spec c 1114111); [|reflexivity].
  f_equal. f_equal; [|f_equal; [|f_equal; [|f_equal]]].
  - apply (lor_high_low 30 (c / 262144) 3); [lia|].
    split; [apply Z.div_pos; lia | apply Z.div_lt_upper_bound; lia].
  - apply (lor_high_low 2 ((c / 4096) mod 64) 6); [lia|]. apply Z.mod_pos_bound. lia.
  - apply (lor_high_low 2 ((c / 64) mod 64) 6); [lia|]. apply Z.mod_pos_bound. lia.
  - apply (lor_high_low 2 (c mod 64) 6); [lia|]. apply Z.mod_pos_bound. lia.
Qed.

Lemma cons_eq_inv : forall (a b : Z) l l', a :: l = b :: l' -> a = b /\ l = l'.
Proof. intros a b l l' H. injection H as -> ->. split; reflexivity. Qed.

Lemma some_eq_inv : forall (a b : list Z), Some a = Some b -> a = b.
Proof. intros a b H. injection H as ->. reflexivity. Qed.

(** The first code point of a string can be read off its bytes. *)
Lemma encode_cp_prefix : forall c1 c2 b1 b2 r1 r2,
  PyStr.encode_cp c1 = Some b1 -> PyStr.encode_cp c2 = Some b2 ->
  b1 ++ r1 = b2 ++ r2 -> c1 = c2 /\ r1 = r2.
Proof.
  intros c1 c2 b1 b2 r1 r2 H1 H2 E.
  rewrite encode_cp_bytes in H1, H2.
  destruct (Z.ltb_spec c1 0); [discriminate|].
  destruct (Z.ltb_spec c2 0); [discriminate|].
  destruct (Z.ltb_spec c1 128); [|destruct (Z.ltb_spec c1 2048);
    [|destruct ((55296 <=? c1) && (c1 <=? 57343)); [discriminate|];
      destruct (Z.ltb_spec c1 65536);
      [|destruct (Z.leb_spec c1 1114111); [|discriminate]]]];
  (destruct (Z.ltb_spec c2 128); [|destruct (Z.ltb_spec c2 2048);
    [|destruct ((55296 <=? c2) && (c2 <=? 57343)); [discriminate|];
      destruct (Z.ltb_spec c2 65536);
      [|destruct (Z.leb_spec c2 1114111); [|discriminate]]]]);
  apply some_eq_inv in H1; apply some_eq_inv in H2; subst b1 b2;
  rewrite <- ?app_comm_cons, ?app_nil_l in E;
  repeat match type of E with
         | _ :: _ = _ :: _ =>
             let H := fresh "Hb" in
             apply cons_eq_inv in E; destruct E as [H E]
         end;
  split; first [ exact E | Z.div_mod_to_equations; lia ].
Qed.

Lemma encode_cp_nonempty : forall c b, PyStr.encode_cp c = Some b -> b <> [].
Proof.
  intros c b H. rewrite encode_cp_bytes in H.
  repeat match type of H with
         | (if ?x then _ else _) = _ => destruct x
         end; try discriminate; apply some_eq_inv in H; subst b; discriminate.
Qed.

(** X18 (injective encoding).  [str.encode()] maps different strings to
    different bytes: the payload that was signed, and the secret that keyed
    the signature, can be read back from the bytes handed to HMAC. *)
Theorem encode_injective : forall s1 s2 b,
  PyStr.encode s1 = Some b -> PyStr.encode s2 = Some b -> s1 = s2.
Proof.
  induction s1 as [|c1 s1 IH]; intros [|c2 s2] b H1 H2; cbn [PyStr.encode] in *.
  - reflexivity.
  - destruct (PyStr.encode_cp c2) as [b2|] eqn:E2; [|discriminate].
    destruct (PyStr.encode s2) as [bs2|]; [|discriminate].
    apply some_eq_inv in H1. apply some_eq_inv in H2. subst b.
    destruct b2; [exfalso; exact (encode_cp_nonempty _ _ E2 eq_refl) | discriminate].
  - destruct (PyStr.encode_cp c1) as [b1|] eqn:E1; [|discriminate].
    destruct (PyStr.encode s1) as [bs1|]; [|discriminate].
    apply some_eq_inv in H1. apply some_eq_inv in H2. subst b.
    destruct b1; [exfalso; exact (encode_cp_nonempty _ _ E1 eq_refl) | discriminate].
  - destruct (PyStr.encode_cp c1) as [b1|] eqn:E1; [|discriminate].
    destruct (PyStr.encode s1) as [bs1|] eqn:Es1; [|discriminate].
    destruct (PyStr.encode_cp c2) as [b2|] eqn:E2; [|discriminate].
    destruct (PyStr.encode s2) as [bs2|] eqn:Es2; [|discriminate].
    apply some_eq_inv in H1. apply some_eq_inv in H2. subst b.
    destruct (encode_cp_prefix _ _ _ _ _ _ E1 E2 (eq_sym H2)) as [Hc Hr].
    subst c2 bs2. rewrite (IH s2 bs1 eq_refl Es2). reflexivity.
Qed.

Lemma encode_injective_witness :
  PyStr.encode [233; 0x20AC; 0x1F600]
  = Some [195; 169; 226; 130; 172; 240; 159; 152; 128]
  /\ [233; 0x20AC; 0x1F600] = [233; 0x20AC; 0x1F600].
Proof.
  split; [reflexivity|].
  exact (encode_injective [233; 0x20AC; 0x1F600] [233; 0x20AC; 0x1F600]
           [195; 169; 226; 130; 172; 240; 159; 152; 128] eq_refl eq_refl).
Defined.
